(** * bin2img_fp32: raw float32 tensor to 8-bit RGB image

    A shallow embedding of [apss24/project/tools/bin2img_fp32.py].

    The script reads a binary file, keeps its first [3 * 128 * 128 * 4]
    bytes, reads them as float32 samples, reshapes them to a planar
    [(3, 128, 128)] tensor, min-max normalises the tensor to [[0, 255]],
    casts it to uint8, transposes it to [(128, 128, 3)] and saves it as an
    RGB image.

    - float32 arithmetic is IEEE-754 binary32, taken from the Standard
      Library's [SpecFloat] at precision 24 and maximal exponent 128;
    - a numpy array is a data buffer with a shape and strides, as numpy
      stores it: [reshape] and [transpose] only touch shape and strides;
    - the script itself is a computation over a [world] (files, standard
      output, trace of file operations) that may raise a Python exception;
    - what lies outside the script is a parameter of a run: what the
      machine makes of a float that does not fit a byte, what PIL does
      with an output path and an image, which paths can be opened for
      writing and which paths lead to one file. *)

From Stdlib Require Import ZArith List Bool String Lia.
From Stdlib Require Import Strings.Byte.
From Stdlib Require Import Floats.SpecFloat.
Import ListNotations.

Local Open Scope nat_scope.

(** ** Python exceptions and the script's monad *)

Inductive exn : Type :=
| SystemExit (code : Z)
| FileNotFoundError (path : string)
| ValueError (msg : string)
| KeyError (key : string)
| OSError (msg : string).   (* PermissionError, IsADirectoryError and other OSErrors *)

(** A pure computation that may raise. *)
Definition result (A : Type) : Type := (exn + A)%type.

Definition rbind {A B : Type} (c : result A) (k : A -> result B) : result B :=
  match c with
  | inl e => inl e
  | inr a => k a
  end.

Declare Scope result_scope.
Delimit Scope result_scope with result.
Notation "x <- c ;; k" := (rbind c (fun x => k))
  (at level 61, c at next level, right associativity) : result_scope.

(** The files the script opens, or tries to open, for reading or writing,
    in the order it does. *)
Inductive io_event : Type :=
| FileRead (path : string)
| FileWrite (path : string).

(** [files p] is what reading the path [p] yields: the bytes of the file
    there, [None] when there is no file.  A file with several paths is
    found under each of them. *)
Record world : Type := mkWorld {
  files : string -> option (list byte);
  stdout : list string;
  trace : list io_event
}.

(** A command of the script: it transforms the world and returns a value
    or raises; what was printed or written before an exception stays. *)
Definition io (A : Type) : Type := world -> world * result A.

Definition io_ret {A : Type} (a : A) : io A := fun w => (w, inr a).

Definition io_bind {A B : Type} (c : io A) (k : A -> io B) : io B :=
  fun w =>
    match c w with
    | (w', inl e) => (w', inl e)
    | (w', inr a) => k a w'
    end.

Definition io_raise {A : Type} (e : exn) : io A := fun w => (w, inl e).

Definition io_lift {A : Type} (r : result A) : io A := fun w => (w, r).

Declare Scope io_scope.
Delimit Scope io_scope with io.
Notation "x <- c ;; k" := (io_bind c (fun x => k))
  (at level 61, c at next level, right associativity) : io_scope.
Notation "c ;; k" := (io_bind c (fun _ => k))
  (at level 61, right associativity) : io_scope.

(** [print(s)] *)
Definition print (s : string) : io unit :=
  fun w => (mkWorld (files w) (stdout w ++ [s]) (trace w), inr tt).

(** [sys.exit(code)] *)
Definition sys_exit {A : Type} (code : Z) : io A := io_raise (SystemExit code).

(** [with open(path, "rb") as f: f.read()] *)
Definition read_binary (path : string) : io (list byte) :=
  fun w =>
    let w' := mkWorld (files w) (stdout w) (trace w ++ [FileRead path]) in
    match files w path with
    | Some contents => (w', inr contents)
    | None => (w', inl (FileNotFoundError path))
    end.

(** Why the operating system refuses to open a path for writing. *)
Inductive open_failure : Type :=
| NoSuchDirectory                (* a directory of the path is missing *)
| NotWritable (reason : string). (* no permission, a directory at the path, ... *)

Definition open_exn (f : open_failure) (path : string) : exn :=
  match f with
  | NoSuchDirectory => FileNotFoundError path
  | NotWritable reason => OSError reason
  end.

(** What the operating system makes of a path is not in the script: the
    directories, permissions and links of the machine are parameters of a
    run. *)
Section FileSystem.

(** [writable path] is [None] when [open(path, "w+b")] succeeds. *)
Variable writable : string -> option open_failure.

(** [same_file p q]: [p] and [q] are two paths to one file, as [x.png] and
    [./x.png] are, or a link and its target. *)
Variable same_file : string -> string -> bool.

(** [p] leads to the file at [q]. *)
Definition aliases (p q : string) : bool := String.eqb p q || same_file p q.

(** The files once the file at [path] holds [contents] ([None]: it is
    gone): every path to that file sees it. *)
Definition store (path : string) (contents : option (list byte))
    (fs : string -> option (list byte)) : string -> option (list byte) :=
  fun p => if aliases p path then contents else fs p.

(** [open(path, "w+b")]: raises when the system refuses; otherwise the file
    is created, or emptied when it exists.  Returns what the file held
    ([None]: it did not exist). *)
Definition open_write (path : string) : io (option (list byte)) :=
  fun w =>
    match writable path with
    | Some f =>
        (mkWorld (files w) (stdout w) (trace w ++ [FileWrite path]),
         inl (open_exn f path))
    | None =>
        (mkWorld (store path (Some []) (files w)) (stdout w)
                 (trace w ++ [FileWrite path]),
         inr (files w path))
    end.

(** What the opened file holds when it is closed. *)
Definition put_file (path : string) (contents : option (list byte)) : io unit :=
  fun w => (mkWorld (store path contents (files w)) (stdout w) (trace w), inr tt).

End FileSystem.

(** The process exit status of a finished run: 0 on normal termination,
    the code of [sys.exit], 1 for any other uncaught exception. *)
Definition exit_status {A : Type} (r : result A) : Z :=
  match r with
  | inr _ => 0%Z
  | inl (SystemExit code) => code
  | inl _ => 1%Z
  end.

(** ** float32 *)

Abbreviation float32 := spec_float.

Module F32.

Definition prec : Z := 24.
Definition emax : Z := 128.

Definition sub : float32 -> float32 -> float32 := SFsub prec emax.
Definition div : float32 -> float32 -> float32 := SFdiv prec emax.
Definition mul : float32 -> float32 -> float32 := SFmul prec emax.
Definition leb : float32 -> float32 -> bool := SFleb.
Definition eqb : float32 -> float32 -> bool := SFeqb.

Definition is_nan (x : float32) : bool :=
  match x with
  | S754_nan => true
  | _ => false
  end.

(** Neither NaN nor an infinity. *)
Definition is_finite (x : float32) : bool :=
  match x with
  | S754_zero _ | S754_finite _ _ _ => true
  | _ => false
  end.

Definition is_zero (x : float32) : bool :=
  match x with
  | S754_zero _ => true
  | _ => false
  end.

(** A finite number other than zero. *)
Definition is_finite_nonzero (x : float32) : bool :=
  match x with
  | S754_finite _ _ _ => true
  | _ => false
  end.

(** The float32 with a given 32-bit pattern: sign bit 31, biased
    exponent in bits 30..23, fraction in bits 22..0. *)
Definition of_bits (w : Z) : float32 :=
  let s := Z.testbit w 31 in
  let e := Z.land (Z.shiftr w 23) 255 in
  let m := Z.land w (Z.ones 23) in
  if (e =? 0)%Z then
    match m with
    | Zpos p => S754_finite s p (-149)
    | _ => S754_zero s
    end
  else if (e =? 255)%Z then
    (if (m =? 0)%Z then S754_infinity s else S754_nan)
  else S754_finite s (Z.to_pos (m + 2 ^ 23)) (e - 150).

(** The float32 of an integer (exact for the constants used here). *)
Definition of_Z (z : Z) : float32 := binary_normalize prec emax z 0 false.

(** The integer part of a number, rounded toward zero; an infinity or a
    NaN has none. *)
Definition trunc (x : float32) : option Z :=
  match x with
  | S754_zero _ => Some 0%Z
  | S754_finite s m e => Some (cond_Zopp s (Z.shiftl (Zpos m) e))
  | S754_infinity _ | S754_nan => None
  end.

End F32.

(** ** Reference rounding

    A reading of [SpecFloat]'s rounding in integer arithmetic, used to
    reason about the order of results.  A nonnegative value is a fraction
    [N / D] in units of [2 ^ -149], the spacing of the smallest float32
    numbers. *)

Section ReferenceRounding.

Local Open Scope Z_scope.

(** Where a remainder [r] of a division by [B] lies relative to [B / 2]. *)
Definition loc_of_rem (r B : Z) : location :=
  if r =? 0 then loc_Exact else loc_Inexact (Z.compare (2 * r) B).

(** The truncation of [A / B] with the location of what was dropped. *)
Definition rec_of (A B : Z) : shr_record :=
  shr_record_of_loc (A / B) (loc_of_rem (A mod B) B).

(** The last step of [binary_round_aux]: renormalise a rounded mantissa
    and detect overflow. *)
Definition finish (s : bool) (m e : Z) : float32 :=
  let '(mrs, e') := shr_fexp 24 128 m e loc_Exact in
  match shr_m mrs with
  | Z0 => S754_zero s
  | Zpos p => if e' <=? 128 - 24 then S754_finite s p e' else S754_infinity s
  | Zneg _ => S754_nan
  end.

(** Bits of [N / D] beyond the 24 a mantissa holds. *)
Definition rnd_shift (N D : Z) : Z := Z.max (Zdigits2 (N / D) - 24) 0.

(** [N / D * 2 ^ -149] rounded to nearest, ties to even. *)
Definition round_frac (s : bool) (N D : Z) : float32 :=
  let k := rnd_shift N D in
  let B := D * 2 ^ k in
  finish s (round_nearest_even (N / B) (loc_of_rem (N mod B) B)) (k - 149).

(** The float32 of a mantissa and exponent: zero, a number or an infinity. *)
Definition pack (s : bool) (m c : Z) : float32 :=
  if m =? 0 then S754_zero s
  else if c <=? 104 then S754_finite s (Z.to_pos m) c
  else S754_infinity s.

(** Mantissa and exponent as float32 stores them: at most 24 bits, and
    exactly 24 above the smallest exponent. *)
Definition canon_pair (m c : Z) : Prop :=
  0 <= m < 2 ^ 24 /\ -149 <= c /\ (c = -149 \/ 2 ^ 23 <= m).

(** Mantissa and exponent of [round_frac]. *)
Definition rpair (N D : Z) : Z * Z :=
  let k := rnd_shift N D in
  let B := D * 2 ^ k in
  let m := round_nearest_even (N / B) (loc_of_rem (N mod B) B) in
  if m =? 2 ^ 24 then (2 ^ 23, k - 149 + 1) else (m, k - 149).

(** A number in units of [2 ^ -149] (an integer for every float32). *)
Definition scaled (x : float32) : Z :=
  match x with
  | S754_finite s m e => cond_Zopp s (Z.pos m * 2 ^ (e + 149))
  | _ => 0
  end.

(** A float32 as [of_bits] produces it: mantissa and exponent in range. *)
Definition valid (x : float32) : bool := valid_binary 24 128 x.

(** Equal up to the sign of a zero. *)
Definition feq (x y : float32) : Prop :=
  x = y \/ (F32.is_zero x = true /\ F32.is_zero y = true).

(** The float32 1.0. *)
Definition f_one : float32 := S754_finite false 8388608 (-23).

(** Zero or a positive number. *)
Definition nonneg_number (x : float32) : bool :=
  valid x
  && match x with
     | S754_zero _ | S754_finite false _ _ => true
     | _ => false
     end.

End ReferenceRounding.

(** ** numpy arrays *)

(** [range(n)] *)
Definition range (n : Z) : list Z := map Z.of_nat (seq 0 (Z.to_nat n)).

Definition product (sh : list Z) : Z := fold_right Z.mul 1%Z sh.

(** An array is a flat buffer viewed through a shape and strides (counted
    in elements). *)
Record ndarray (A : Type) : Type := mkArray {
  data : list A;
  shape : list Z;
  strides : list Z
}.
Arguments mkArray {A} _ _ _.
Arguments data {A} _.
Arguments shape {A} _.
Arguments strides {A} _.

(** [a.size] *)
Definition size {A : Type} (a : ndarray A) : Z := Z.of_nat (List.length (data a)).

(** Strides of a C-contiguous array of the given shape. *)
Fixpoint c_strides (sh : list Z) : list Z :=
  match sh with
  | [] => []
  | _ :: sh' => product sh' :: c_strides sh'
  end.

(** Buffer offsets of the elements of a view, in C (row-major) order of
    its indices. *)
Fixpoint c_order (sh st : list Z) (off : Z) : list Z :=
  match sh, st with
  | n :: sh', s :: st' =>
      flat_map (fun i => c_order sh' st' (off + i * s)%Z) (range n)
  | _, _ => [off]
  end.

(** Buffer offset of the element at a multi-index. *)
Fixpoint offset_of (st idx : list Z) : Z :=
  match st, idx with
  | s :: st', i :: idx' => (i * s + offset_of st' idx')%Z
  | _, _ => 0%Z
  end.

(** Position of a multi-index in the C-order enumeration of a shape. *)
Fixpoint ravel (sh idx : list Z) : Z :=
  match sh, idx with
  | _ :: sh', i :: idx' => (i * product sh' + ravel sh' idx')%Z
  | _, _ => 0%Z
  end.

(** Multi-indices within a shape. *)
Inductive in_shape : list Z -> list Z -> Prop :=
| in_shape_nil : in_shape [] []
| in_shape_cons n sh i idx :
    (0 <= i < n)%Z -> in_shape sh idx -> in_shape (n :: sh) (i :: idx).

Definition item {A : Type} (d : A) (buf : list A) (o : Z) : A :=
  nth (Z.to_nat o) buf d.

(** [a[idx]] *)
Definition get {A : Type} (d : A) (a : ndarray A) (idx : list Z) : A :=
  item d (data a) (offset_of (strides a) idx).

(** [a.tobytes()] for a one-byte element type: the elements in C order. *)
Definition tobytes {A : Type} (d : A) (a : ndarray A) : list A :=
  map (item d (data a)) (c_order (shape a) (strides a) 0).

Definition le_word (b0 b1 b2 b3 : byte) : Z :=
  (Z.of_N (Byte.to_N b0)
   + Z.shiftl (Z.of_N (Byte.to_N b1)) 8
   + Z.shiftl (Z.of_N (Byte.to_N b2)) 16
   + Z.shiftl (Z.of_N (Byte.to_N b3)) 24)%Z.

(** The float32 items of a buffer, 4 little-endian bytes each; [None] when
    the buffer size is not a multiple of the item size. *)
Fixpoint float32_items (buf : list byte) : option (list float32) :=
  match buf with
  | [] => Some []
  | b0 :: b1 :: b2 :: b3 :: rest =>
      match float32_items rest with
      | Some xs => Some (F32.of_bits (le_word b0 b1 b2 b3) :: xs)
      | None => None
      end
  | _ => None
  end.

(** [np.frombuffer(buf, dtype=np.float32)] *)
Definition frombuffer (buf : list byte) : result (ndarray float32) :=
  match float32_items buf with
  | Some xs => inr (mkArray xs [Z.of_nat (List.length xs)] [1%Z])
  | None =>
      inl (ValueError "buffer size must be a multiple of element size")
  end.

(** [a.reshape(sh)] of a C-contiguous array. *)
Definition reshape {A : Type} (a : ndarray A) (sh : list Z)
    : result (ndarray A) :=
  if (size a =? product sh)%Z
  then inr (mkArray (data a) sh (c_strides sh))
  else inl (ValueError "cannot reshape array").

(** [np.transpose(a, axes)] *)
Definition transpose {A : Type} (a : ndarray A) (axes : list nat) : ndarray A :=
  mkArray (data a)
          (map (fun ax => nth ax (shape a) 0%Z) axes)
          (map (fun ax => nth ax (strides a) 0%Z) axes).

(** An elementwise operation keeps shape and strides. *)
Definition amap {A B : Type} (f : A -> B) (a : ndarray A) : ndarray B :=
  mkArray (map f (data a)) (shape a) (strides a).

(** One step of numpy's [minimum] / [maximum] reduction: a NaN, once
    met, is kept. *)
Definition fmin (acc x : float32) : float32 :=
  if F32.leb acc x || F32.is_nan acc then acc else x.

Definition fmax (acc x : float32) : float32 :=
  if F32.leb x acc || F32.is_nan acc then acc else x.

(** A reduction over all elements, first to last; an empty array has none. *)
Definition reduce (f : float32 -> float32 -> float32) (xs : list float32)
    : option float32 :=
  match xs with
  | [] => None
  | x :: xs' => Some (fold_left f xs' x)
  end.

(** [a.min()] and [a.max()] over all elements. *)
Definition amin (a : ndarray float32) : result float32 :=
  match reduce fmin (data a) with
  | Some m => inr m
  | None => inl (ValueError "zero-size array to reduction operation minimum")
  end.

Definition amax (a : ndarray float32) : result float32 :=
  match reduce fmax (data a) with
  | Some m => inr m
  | None => inl (ValueError "zero-size array to reduction operation maximum")
  end.

Definition no_nan (xs : list float32) : Prop :=
  forall x, In x xs -> F32.is_nan x = false.

(** The Python constant [255.0] as a float32 operand. *)
Definition c255 : float32 := F32.of_Z 255.

(** [(v - lo) / (hi - lo) * 255.0] for one element, all in float32. *)
Definition normalize (lo hi v : float32) : float32 :=
  F32.mul (F32.div (F32.sub v lo) (F32.sub hi lo)) c255.

(** ** PIL images *)

Record image : Type := mkImage {
  width : Z;
  height : Z;
  pixels : list Z   (* packed RGB, row by row, 3 bytes per pixel *)
}.

(** Channel [k] (0 = R, 1 = G, 2 = B) of the pixel at row [r], column [c]. *)
Definition getpixel (img : image) (r c k : Z) : Z :=
  item 0%Z (pixels img) ((r * width img + c) * 3 + k)%Z.

(** [Image.fromarray(a, 'RGB')] of a uint8 array of shape (h, w, 3). *)
Definition fromarray (a : ndarray Z) : result image :=
  match shape a with
  | [h; w; 3%Z] => inr (mkImage w h (tobytes 0%Z a))
  | _ => inl (ValueError "not enough image data")
  end.

(** What [Image.save] does with a path and an image, as PIL's registry of
    formats and the encoder it selects decide it:
    - the extension is unknown: [ValueError], before the file is opened;
    - the format has no writer: [KeyError], before the file is opened;
    - the encoder raises [e] after the file was opened: [remains old] is what
      the file holds then, [old] being what it held before the call (PIL
      removes a file it had created; a file that existed stays as the
      encoder left it);
    - the encoder writes [contents]. *)
Inductive save_plan : Type :=
| UnknownExtension
| NoWriter (format : string)
| EncoderFails (e : exn) (remains : option (list byte) -> option (list byte))
| Encodes (contents : list byte).

(** ** The script *)

Section Converter.

(** What the machine's float-to-integer conversion yields for an operand
    whose integer part does not fit the target (NaN, infinities, values
    outside [[0, 255]]): C leaves it undefined and numpy only warns. *)
Variable invalid_cast : float32 -> Z.

(** What PIL does with an output path and an image. *)
Variable encode : string -> image -> save_plan.

(** The file system of the machine. *)
Variable writable : string -> option open_failure.
Variable same_file : string -> string -> bool.

(** [x.astype(np.uint8)] for one element: the integer part. *)
Definition to_uint8 (x : float32) : Z :=
  match F32.trunc x with
  | Some z =>
      if ((0 <=? z) && (z <=? 255))%Z then z
      else (invalid_cast x mod 256)%Z
  | None => (invalid_cast x mod 256)%Z
  end.

Definition astype_uint8 (a : ndarray float32) : ndarray Z := amap to_uint8 a.

(** [image.save(path)]: the format is looked up, then the file is opened,
    then the encoder runs. *)
Definition save (img : image) (path : string) : io unit :=
  match encode path img with
  | UnknownExtension => io_raise (ValueError "unknown file extension")
  | NoWriter format => io_raise (KeyError format)
  | EncoderFails e remains =>
      (old <- open_write writable same_file path ;;
       put_file same_file path (remains old) ;;
       io_raise e)%io
  | Encodes contents =>
      (old <- open_write writable same_file path ;;
       put_file same_file path (Some contents))%io
  end.

(** Lines 25-31: the planar (3, 128, 128) tensor of the input file. *)
Definition input_tensor (input_bin : list byte) : result (ndarray float32) :=
  (let input_bin := firstn (3 * 128 * 128 * 4) input_bin in
   input_array <- frombuffer input_bin ;;
   reshape input_array [3; 128; 128]%Z)%result.

(** Lines 25-41: from the bytes of the input file to the output image. *)
Definition convert (input_bin : list byte) : result image :=
  (input_array <- input_tensor input_bin ;;
   lo <- amin input_array ;;
   hi <- amax input_array ;;
   let input_array := amap (normalize lo hi) input_array in
   let input_array := astype_uint8 input_array in
   fromarray (transpose input_array [1; 2; 0]))%result.

Definition usage : string :=
  "Usage: python bin2img_fp32.py <path/to/output.bin> <path/to/output.png>".

Definition main (argv : list string) : io unit :=
  (if List.length argv <? 3 then
     print usage ;;
     sys_exit 1%Z
   else
     let input_path := nth 1 argv EmptyString in
     let output_path := nth 2 argv EmptyString in
     input_bin <- read_binary input_path ;;
     output_image <- io_lift (convert input_bin) ;;
     save output_image output_path)%io.

End Converter.

(** ** Vocabulary of the statements *)

(** The float32 samples the script consumes: the items of the first
    [3 * 128 * 128 * 4] bytes, in file order. *)
Definition samples (input_bin : list byte) : list float32 :=
  match float32_items (firstn (3 * 128 * 128 * 4) input_bin) with
  | Some xs => xs
  | None => []
  end.

Definition sample (input_bin : list byte) (i : Z) : float32 :=
  item S754_nan (samples input_bin) i.

Definition n_samples : Z := 49152.

(** Sample [i] is a smallest (largest) of the 49152 samples. *)
Definition holds_minimum (input_bin : list byte) (i : Z) : Prop :=
  forall j, (0 <= j < n_samples)%Z ->
    F32.leb (sample input_bin i) (sample input_bin j) = true.

Definition holds_maximum (input_bin : list byte) (i : Z) : Prop :=
  forall j, (0 <= j < n_samples)%Z ->
    F32.leb (sample input_bin j) (sample input_bin i) = true.

(** All 49152 samples compare equal ([==] on floats). *)
Definition all_equal (input_bin : list byte) : Prop :=
  forall i j, (0 <= i < n_samples)%Z -> (0 <= j < n_samples)%Z ->
    F32.eqb (sample input_bin i) (sample input_bin j) = true.

(** The same, decided by comparing every sample with the first. *)
Definition all_equalb (xs : list float32) : bool :=
  match xs with
  | [] => true
  | x :: _ => forallb (fun y => F32.eqb y x) xs
  end.

(** [x] is below (above) every element of [xs]. *)
Definition is_lower_bound (xs : list float32) (x : float32) : bool :=
  forallb (fun y => F32.leb x y) xs.

Definition is_upper_bound (xs : list float32) (x : float32) : bool :=
  forallb (fun y => F32.leb y x) xs.

(** [maxVal - minVal], as the script computes it, is neither NaN nor an
    infinity. *)
Definition range_is_finite (input_bin : list byte) : bool :=
  match reduce fmin (samples input_bin), reduce fmax (samples input_bin) with
  | Some lo, Some hi => F32.is_finite (F32.sub hi lo)
  | _, _ => false
  end.

(** [255 * (v - lo) / (hi - lo)] in exact arithmetic, rounded down. *)
Definition exact_byte (lo hi v : float32) : Z :=
  ((255 * (scaled v - scaled lo)) / (scaled hi - scaled lo))%Z.

(** ** Sample inputs *)

(** -1.0, 0.0, 1.0 as little-endian float32, repeated over the 49152 slots. *)
Definition ramp_pattern : list byte :=
  [x00; x00; x80; xbf;  x00; x00; x00; x00;  x00; x00; x80; x3f].

Definition input_ramp : list byte := List.concat (repeat ramp_pattern (128 * 128)).

(** The samples of [input_ramp]. *)
Definition ramp_floats : list float32 :=
  [S754_finite true 8388608 (-23); S754_zero false; S754_finite false 8388608 (-23)].

(** 0.0 as little-endian float32. *)
Definition zero_word : list byte := [x00; x00; x00; x00].

(** The largest finite float32, its opposite, then zeros. *)
Definition input_overflow : list byte :=
  [xff; xff; x7f; x7f;  xff; xff; x7f; xff]
  ++ List.concat (repeat zero_word (3 * 128 * 128 - 2)).

(** 49152 times 0.0. *)
Definition input_zeros : list byte := List.concat (repeat zero_word (3 * 128 * 128)).

(** A single float32: far too short. *)
Definition input_short : list byte := [x00; x00; x80; x3f].

(** x86-64 converts with [cvttss2si], which yields the "integer indefinite"
    value [0x80000000] for an operand it cannot convert. *)
Definition x86_invalid_cast (_ : float32) : Z := (-2147483648)%Z.

(** An encoder that stores the raw pixel bytes, whatever the path. *)
Definition raw_encode (_ : string) (img : image) : save_plan :=
  Encodes (map (fun z => match Byte.of_N (Z.to_N z) with Some b => b | None => x00 end)
               (pixels img)).

(** A machine where every path can be opened for writing. *)
Definition always_writable (_ : string) : option open_failure := None.

(** A machine where only paths inside the directory [out/] cannot: there
    is no such directory. *)
Definition no_out_directory (path : string) : option open_failure :=
  if String.eqb (substring 0 4 path) "out/" then Some NoSuchDirectory else None.

(** A machine without links, where a file has one path. *)
Definition no_links (_ _ : string) : bool := false.

(** A machine where [p] and [./p] are the same file. *)
Definition dot_slash (p q : string) : bool :=
  String.eqb p (String.append "./" q) || String.eqb q (String.append "./" p).

Definition empty_world : world := mkWorld (fun _ => None) [] [].

(** A file system with one file. *)
Definition world_with (path : string) (contents : list byte) : world :=
  mkWorld (fun p => if String.eqb p path then Some contents else None) [] [].

(** The same with a second file. *)
Definition world_with_two (path1 : string) (contents1 : list byte)
    (path2 : string) (contents2 : list byte) : world :=
  mkWorld (fun p => if String.eqb p path1 then Some contents1
                    else if String.eqb p path2 then Some contents2 else None)
          [] [].

(** A NaN, then zeros. *)
Definition input_nan : list byte :=
  [x00; x00; xc0; x7f] ++ List.concat (repeat zero_word (3 * 128 * 128 - 1)).

(** +Inf, then zeros. *)
Definition input_inf : list byte :=
  [x00; x00; x80; x7f] ++ List.concat (repeat zero_word (3 * 128 * 128 - 1)).

(** A conversion that yields 0 for every operand it cannot convert. *)
Definition zero_invalid_cast (_ : float32) : Z := 0%Z.

(** A PIL that writes [.png], knows [.fits] without a writer for it, and
    no other extension. *)
Definition png_only_encode (path : string) (img : image) : save_plan :=
  let ext := substring (String.length path - 4) 4 path in
  if String.eqb ext ".png" then raw_encode path img
  else if String.eqb (substring (String.length path - 5) 5 path) ".fits"
  then NoWriter "FITS"
  else UnknownExtension.

(** -1.0 and 1.0 as little-endian float32. *)
Definition minus_one_word : list byte := [x00; x00; x80; xbf].
Definition one_word : list byte := [x00; x00; x80; x3f].

(** A plane of -1.0, a plane of 0.0 and a plane of 1.0. *)
Definition input_planes : list byte :=
  List.concat (repeat minus_one_word (128 * 128))
  ++ List.concat (repeat zero_word (128 * 128))
  ++ List.concat (repeat one_word (128 * 128)).

(** * Facts *)

(** ** float32: order and special values *)

Section Float32Facts.

Ltac order_cases :=
  repeat match goal with
  | H : context [Z.compare ?a ?b] |- _ => destruct (Z.compare_spec a b)
  | |- context [Z.compare ?a ?b] => destruct (Z.compare_spec a b)
  | H : context [Pos.compare ?a ?b] |- _ => destruct (Pos.compare_spec a b)
  | |- context [Pos.compare ?a ?b] => destruct (Pos.compare_spec a b)
  end.

Ltac order_solve :=
  order_cases; cbn in *; try reflexivity; try discriminate; try lia.

Lemma leb_trans (x y z : float32) :
  F32.leb x y = true -> F32.leb y z = true -> F32.leb x z = true.
Proof.
  unfold F32.leb, SFleb, SFcompare.
  change (Pos.compare_cont Eq) with Pos.compare.
  destruct x as [sx|sx| |sx mx ex], y as [sy|sy| |sy my ey],
           z as [sz|sz| |sz mz ez];
    try destruct sx; try destruct sy; try destruct sz; cbn;
    try (intros; reflexivity || discriminate).
  all: intros H1 H2; order_solve.
Qed.

Lemma leb_total (x y : float32) :
  F32.is_nan x = false -> F32.is_nan y = false ->
  F32.leb x y = false -> F32.leb y x = true.
Proof.
  unfold F32.leb, SFleb, SFcompare.
  change (Pos.compare_cont Eq) with Pos.compare.
  destruct x as [sx|sx| |sx mx ex], y as [sy|sy| |sy my ey];
    try destruct sx; try destruct sy; cbn;
    try (intros; reflexivity || discriminate).
  all: intros _ _ H1; order_solve.
Qed.

Lemma leb_refl (x : float32) : F32.is_nan x = false -> F32.leb x x = true.
Proof.
  unfold F32.leb, SFleb, SFcompare.
  change (Pos.compare_cont Eq) with Pos.compare.
  destruct x as [sx|sx| |sx mx ex]; try destruct sx; cbn;
    try (intros; reflexivity || discriminate).
  all: intros _; rewrite Z.compare_refl, Pos.compare_refl; reflexivity.
Qed.

Lemma leb_not_nan (x y : float32) :
  F32.leb x y = true -> F32.is_nan x = false /\ F32.is_nan y = false.
Proof.
  destruct x, y; cbn; intros H; try discriminate; split; reflexivity.
Qed.

Lemma leb_antisym (x y : float32) :
  F32.leb x y = true -> F32.leb y x = true -> F32.eqb x y = true.
Proof.
  unfold F32.leb, F32.eqb, SFeqb, SFleb, SFcompare.
  change (Pos.compare_cont Eq) with Pos.compare.
  destruct x as [sx|sx| |sx mx ex], y as [sy|sy| |sy my ey];
    try destruct sx; try destruct sy; cbn;
    try (intros; reflexivity || discriminate).
  all: intros H1 H2; order_solve.
Qed.

Lemma eqb_leb (x y : float32) : F32.eqb x y = true -> F32.leb x y = true.
Proof.
  unfold F32.leb, F32.eqb, SFeqb, SFleb.
  destruct (SFcompare x y) as [[| |]|]; intros H; try discriminate; reflexivity.
Qed.

Lemma eqb_sym (x y : float32) : F32.eqb x y = true -> F32.eqb y x = true.
Proof.
  unfold F32.eqb, SFeqb, SFcompare.
  change (Pos.compare_cont Eq) with Pos.compare.
  destruct x as [sx|sx| |sx mx ex], y as [sy|sy| |sy my ey];
    try destruct sx; try destruct sy; cbn;
    try (intros; reflexivity || discriminate).
  all: intros H1; order_solve.
Qed.

Lemma eqb_finite_inv sx mx ex sy my ey :
  F32.eqb (S754_finite sx mx ex) (S754_finite sy my ey) = true ->
  sx = sy /\ mx = my /\ ex = ey.
Proof.
  unfold F32.eqb, SFeqb, SFcompare.
  change (Pos.compare_cont Eq) with Pos.compare.
  destruct sx, sy; try discriminate; intros H; order_cases; cbn in *;
    try discriminate; auto.
Qed.

Lemma shl_align_same (m : positive) (e : Z) : shl_align m e e = (m, e).
Proof. unfold shl_align. rewrite Z.sub_diag. reflexivity. Qed.

(** [x - y] for [x == y]: a zero, or NaN when both are the same infinity. *)
Lemma sub_eqb (x y : float32) :
  F32.eqb x y = true ->
  (exists s, F32.sub x y = S754_zero s) \/ F32.sub x y = S754_nan.
Proof.
  intros H.
  destruct x as [sx|sx| |sx mx ex], y as [sy|sy| |sy my ey];
    try discriminate H;
    try (destruct sy; discriminate H); try (destruct sx; discriminate H).
  - left. destruct sx, sy; eexists; reflexivity.
  - right. destruct sx, sy; try discriminate H; reflexivity.
  - left. apply eqb_finite_inv in H. destruct H as (-> & -> & ->).
    exists false. unfold F32.sub, SFsub. rewrite Z.min_id, shl_align_same.
    cbn [fst]. rewrite Z.sub_diag. reflexivity.
Qed.

Lemma sub_eqb_finite (x y : float32) :
  F32.eqb x y = true -> F32.is_finite x = true ->
  exists s, F32.sub x y = S754_zero s.
Proof.
  intros H F. destruct (sub_eqb x y H) as [Hz|Hn]; [exact Hz|].
  destruct x as [sx|sx| |sx mx ex], y as [sy|sy| |sy my ey];
    try discriminate F; try discriminate H;
    try (destruct sy; discriminate H); try (destruct sx; discriminate H).
  - destruct sx, sy; discriminate Hn.
  - apply eqb_finite_inv in H. destruct H as (-> & -> & ->).
    unfold F32.sub, SFsub in Hn. rewrite Z.min_id, shl_align_same in Hn.
    cbn [fst] in Hn. rewrite Z.sub_diag in Hn. discriminate Hn.
Qed.

(** Equal minuends give the same difference whenever that difference is a
    nonzero number (only the sign of a zero minuend could matter). *)
Lemma sub_eqb_left (x y lo : float32) :
  F32.eqb x y = true ->
  F32.is_finite_nonzero (F32.sub y lo) = true ->
  F32.sub x lo = F32.sub y lo.
Proof.
  intros H Hd.
  destruct x as [sx|sx| |sx mx ex], y as [sy|sy| |sy my ey];
    try discriminate H;
    try (destruct sy; discriminate H); try (destruct sx; discriminate H).
  - destruct lo as [sl|sl| |sl ml el]; try reflexivity.
    destruct sy, sl; discriminate Hd.
  - destruct lo as [sl|sl| |sl ml el]; try discriminate Hd.
    destruct sy, sl; discriminate Hd.
  - apply eqb_finite_inv in H. destruct H as (-> & -> & ->). reflexivity.
Qed.

(** [d / d = 1.0] for a nonzero number [d]. *)
Lemma div_same (d : float32) :
  F32.is_finite_nonzero d = true ->
  F32.div d d = S754_finite false 8388608 (-23).
Proof.
  destruct d as [| | |s m e]; try discriminate. intros _.
  unfold F32.div, SFdiv, SFdiv_core_binary.
  rewrite !Z.sub_diag.
  change (Z.min (fexp F32.prec F32.emax 0) 0) with (-24)%Z.
  change (0 - -24)%Z with 24%Z. cbv iota beta.
  assert (H : Z.div_eucl (Z.shiftl (Z.pos m) 24) (Z.pos m) = (2 ^ 24, 0)%Z).
  { rewrite Z.shiftl_mul_pow2 by lia. rewrite Z.mul_comm.
    rewrite (surjective_pairing (Z.div_eucl _ _)).
    change (fst (Z.div_eucl ?a ?b)) with (a / b)%Z.
    change (snd (Z.div_eucl ?a ?b)) with (a mod b)%Z.
    rewrite Z.div_mul, Z.mod_mul by lia. reflexivity. }
  rewrite H.
  replace (new_location (Z.pos m) 0) with loc_Exact
    by (unfold new_location; destruct (Z.even (Z.pos m)); reflexivity).
  rewrite xorb_nilpotent. reflexivity.
Qed.

Lemma div_zero (s : bool) (d : float32) :
  F32.is_finite_nonzero d = true ->
  exists s', F32.div (S754_zero s) d = S754_zero s'.
Proof.
  destruct d as [| | |sd m e]; try discriminate. intros _.
  eexists. reflexivity.
Qed.

Lemma mul_zero_c255 (s : bool) : F32.mul (S754_zero s) c255 = S754_zero s.
Proof. destruct s; reflexivity. Qed.

Lemma mul_one_c255 :
  F32.mul (S754_finite false 8388608 (-23)) c255 = c255.
Proof. reflexivity. Qed.

Lemma normalize_nan_lo (hi v : float32) : normalize S754_nan hi v = S754_nan.
Proof. unfold normalize. destruct v, hi; reflexivity. Qed.

(** ** Reductions *)

Lemma fmin_cases (acc x : float32) : fmin acc x = acc \/ fmin acc x = x.
Proof. unfold fmin. destruct (_ || _); auto. Qed.

Lemma fmax_cases (acc x : float32) : fmax acc x = acc \/ fmax acc x = x.
Proof. unfold fmax. destruct (_ || _); auto. Qed.

Lemma fold_fmin_in (xs : list float32) : forall x,
  In (fold_left fmin xs x) (x :: xs).
Proof.
  induction xs as [|a xs IH]; intros x; [left; reflexivity|].
  cbn [fold_left]. destruct (IH (fmin x a)) as [H|H].
  - rewrite <- H. destruct (fmin_cases x a) as [E|E]; rewrite E;
      [left|right; left]; reflexivity.
  - right. right. exact H.
Qed.

Lemma fold_fmax_in (xs : list float32) : forall x,
  In (fold_left fmax xs x) (x :: xs).
Proof.
  induction xs as [|a xs IH]; intros x; [left; reflexivity|].
  cbn [fold_left]. destruct (IH (fmax x a)) as [H|H].
  - rewrite <- H. destruct (fmax_cases x a) as [E|E]; rewrite E;
      [left|right; left]; reflexivity.
  - right. right. exact H.
Qed.

Lemma fmin_le (acc x : float32) :
  F32.is_nan acc = false -> F32.is_nan x = false ->
  F32.leb (fmin acc x) acc = true /\ F32.leb (fmin acc x) x = true.
Proof.
  intros Ha Hx. unfold fmin. rewrite Ha, orb_false_r.
  destruct (F32.leb acc x) eqn:E.
  - split; [apply leb_refl; exact Ha|exact E].
  - split; [apply leb_total; assumption|apply leb_refl; exact Hx].
Qed.

Lemma fmax_ge (acc x : float32) :
  F32.is_nan acc = false -> F32.is_nan x = false ->
  F32.leb acc (fmax acc x) = true /\ F32.leb x (fmax acc x) = true.
Proof.
  intros Ha Hx. unfold fmax. rewrite Ha, orb_false_r.
  destruct (F32.leb x acc) eqn:E.
  - split; [apply leb_refl; exact Ha|exact E].
  - split; [apply leb_total; assumption|apply leb_refl; exact Hx].
Qed.

(** Without NaN, the minimum reduction is a lower bound of all elements. *)
Lemma fold_fmin_le (xs : list float32) : forall x,
  no_nan (x :: xs) ->
  forall y, In y (x :: xs) -> F32.leb (fold_left fmin xs x) y = true.
Proof.
  induction xs as [|a xs IH]; intros x Hn y Hy.
  - destruct Hy as [<-|[]]. apply leb_refl. apply Hn. left. reflexivity.
  - cbn [fold_left].
    assert (Hx : F32.is_nan x = false) by (apply Hn; left; reflexivity).
    assert (Ha : F32.is_nan a = false) by (apply Hn; right; left; reflexivity).
    destruct (fmin_le x a Hx Ha) as [L1 L2].
    assert (Hn' : no_nan (fmin x a :: xs)).
    { intros z [<-|Hz]; [apply (leb_not_nan _ _ L1)|apply Hn; right; right; exact Hz]. }
    destruct Hy as [<-|[<-|Hy]].
    + apply leb_trans with (fmin x a); [|exact L1].
      apply IH; [exact Hn'|left; reflexivity].
    + apply leb_trans with (fmin x a); [|exact L2].
      apply IH; [exact Hn'|left; reflexivity].
    + apply IH; [exact Hn'|right; exact Hy].
Qed.

Lemma fold_fmax_ge (xs : list float32) : forall x,
  no_nan (x :: xs) ->
  forall y, In y (x :: xs) -> F32.leb y (fold_left fmax xs x) = true.
Proof.
  induction xs as [|a xs IH]; intros x Hn y Hy.
  - destruct Hy as [<-|[]]. apply leb_refl. apply Hn. left. reflexivity.
  - cbn [fold_left].
    assert (Hx : F32.is_nan x = false) by (apply Hn; left; reflexivity).
    assert (Ha : F32.is_nan a = false) by (apply Hn; right; left; reflexivity).
    destruct (fmax_ge x a Hx Ha) as [L1 L2].
    assert (Hn' : no_nan (fmax x a :: xs)).
    { intros z [<-|Hz]; [apply (leb_not_nan _ _ L1)|apply Hn; right; right; exact Hz]. }
    destruct Hy as [<-|[<-|Hy]].
    + apply leb_trans with (fmax x a); [exact L1|].
      apply IH; [exact Hn'|left; reflexivity].
    + apply leb_trans with (fmax x a); [exact L2|].
      apply IH; [exact Hn'|left; reflexivity].
    + apply IH; [exact Hn'|right; exact Hy].
Qed.

(** A NaN among the elements is what both reductions return. *)
Lemma fold_fmin_nan (xs : list float32) : forall x,
  In S754_nan (x :: xs) -> fold_left fmin xs x = S754_nan.
Proof.
  induction xs as [|a xs IH]; intros x Hx.
  - destruct Hx as [->|[]]. reflexivity.
  - cbn [fold_left]. apply IH.
    destruct Hx as [->|[->|Hx]].
    + left. reflexivity.
    + left. unfold fmin. destruct x; reflexivity.
    + right. exact Hx.
Qed.

Lemma fold_fmax_nan (xs : list float32) : forall x,
  In S754_nan (x :: xs) -> fold_left fmax xs x = S754_nan.
Proof.
  induction xs as [|a xs IH]; intros x Hx.
  - destruct Hx as [->|[]]. reflexivity.
  - cbn [fold_left]. apply IH.
    destruct Hx as [->|[->|Hx]].
    + left. unfold fmax. destruct a; reflexivity.
    + left. unfold fmax. destruct x; reflexivity.
    + right. exact Hx.
Qed.

End Float32Facts.

(** ** float32: rounding *)

Section RoundingFacts.

Local Open Scope Z_scope.

Lemma digits2_pos_bounds (p : positive) :
  2 ^ (Z.pos (digits2_pos p) - 1) <= Z.pos p < 2 ^ Z.pos (digits2_pos p).
Proof.
  induction p as [p IH|p IH|]; cbn [digits2_pos].
  - rewrite Pos2Z.inj_succ.
    replace (Z.succ (Z.pos (digits2_pos p)) - 1) with (Z.succ (Z.pos (digits2_pos p) - 1)) by lia.
    rewrite !Z.pow_succ_r by lia. lia.
  - rewrite Pos2Z.inj_succ.
    replace (Z.succ (Z.pos (digits2_pos p)) - 1) with (Z.succ (Z.pos (digits2_pos p) - 1)) by lia.
    rewrite !Z.pow_succ_r by lia. lia.
  - cbn. lia.
Qed.

Lemma digits_bounds (n : Z) :
  0 < n -> 2 ^ (Zdigits2 n - 1) <= n < 2 ^ Zdigits2 n.
Proof.
  destruct n as [|p|p]; try lia. intros _. apply digits2_pos_bounds.
Qed.

Lemma digits_pos (n : Z) : 0 < n -> 0 < Zdigits2 n.
Proof. destruct n; cbn; lia. Qed.

Lemma digits_nonneg (n : Z) : 0 <= Zdigits2 n.
Proof. destruct n; cbn; lia. Qed.

Lemma pow2_lt_inv (a b : Z) : 0 <= b -> 2 ^ a < 2 ^ b -> a < b.
Proof.
  intros Hb H. destruct (Z_lt_le_dec a b) as [|Hle]; [assumption|].
  pose proof (Z.pow_le_mono_r 2 b a ltac:(lia) Hle). lia.
Qed.

Lemma digits_unique (n d : Z) :
  2 ^ (d - 1) <= n < 2 ^ d -> 0 < d -> Zdigits2 n = d.
Proof.
  intros [Hlo Hhi] Hd.
  assert (Hn : 0 < n) by (pose proof (Z.pow_pos_nonneg 2 (d - 1) ltac:(lia) ltac:(lia)); lia).
  pose proof (digits_bounds n Hn) as [Blo Bhi].
  pose proof (digits_pos n Hn) as Hp.
  assert (Zdigits2 n - 1 < d) by (apply pow2_lt_inv; lia).
  assert (d - 1 < Zdigits2 n) by (apply pow2_lt_inv; lia).
  lia.
Qed.

Lemma digits_le_mono (a b : Z) : 0 <= a <= b -> Zdigits2 a <= Zdigits2 b.
Proof.
  intros [Ha Hab].
  destruct (Z.eq_dec a 0) as [->|Hne]; [apply digits_nonneg|].
  pose proof (digits_bounds a ltac:(lia)) as [A1 A2].
  pose proof (digits_bounds b ltac:(lia)) as [B1 B2].
  pose proof (digits_pos b ltac:(lia)).
  assert (Zdigits2 a - 1 < Zdigits2 b) by (apply pow2_lt_inv; lia).
  lia.
Qed.

(** digits of a quotient, by bounds on the fraction *)

Lemma digits_frac_bounds (N D : Z) :
  0 < D -> D <= N ->
  2 ^ (Zdigits2 (N / D) - 1) * D <= N < 2 ^ Zdigits2 (N / D) * D.
Proof.
  intros HD HN.
  assert (Hq : 0 < N / D) by (apply Z.div_str_pos; lia).
  pose proof (digits_bounds _ Hq) as [B1 B2].
  pose proof (Z.div_mod N D ltac:(lia)) as E.
  pose proof (Z.mod_pos_bound N D HD) as R.
  split; nia.
Qed.

Lemma digits_frac_unique (N D d : Z) :
  0 < D -> 0 < d -> 2 ^ (d - 1) * D <= N < 2 ^ d * D ->
  Zdigits2 (N / D) = d.
Proof.
  intros HD Hd [H1 H2].
  apply digits_unique; [|assumption].
  split.
  - apply Z.div_le_lower_bound; lia.
  - apply Z.div_lt_upper_bound; lia.
Qed.

Lemma loc_of_shr_record_of_loc m l :
  loc_of_shr_record (shr_record_of_loc m l) = l.
Proof. destruct l as [|[]]; reflexivity. Qed.

Lemma shr_m_record_of_loc m l : shr_m (shr_record_of_loc m l) = m.
Proof. destruct l as [|[]]; reflexivity. Qed.

(** one more bit dropped: from divisor B to divisor 2B *)

Lemma shr_1_even (h : Z) (l : location) :
  0 <= h ->
  shr_1 (shr_record_of_loc (2 * h) l)
  = Build_shr_record h false (match l with loc_Exact => false | _ => true end).
Proof.
  intros Hh. destruct h as [|p|p]; try lia; destruct l as [|[]]; reflexivity.
Qed.

Lemma shr_1_odd (h : Z) (l : location) :
  0 <= h ->
  shr_1 (shr_record_of_loc (2 * h + 1) l)
  = Build_shr_record h true (match l with loc_Exact => false | _ => true end).
Proof.
  intros Hh. destruct h as [|p|p]; try lia; destruct l as [|[]]; reflexivity.
Qed.

(** one more bit dropped: from divisor B to divisor 2B *)

Lemma shr_1_rec_of (A B : Z) :
  0 <= A -> 0 < B -> shr_1 (rec_of A B) = rec_of A (2 * B).
Proof.
  intros HA HB. unfold rec_of.
  pose proof (Z.div_mod A B ltac:(lia)) as E.
  pose proof (Z.mod_pos_bound A B HB) as R.
  assert (Hq : 0 <= A / B) by (apply Z.div_pos; lia).
  set (q := A / B) in *. set (r := A mod B) in *.
  pose proof (Z.div_mod q 2 ltac:(lia)) as E2.
  pose proof (Z.mod_pos_bound q 2 ltac:(lia)) as R2.
  assert (Hh : 0 <= q / 2) by (apply Z.div_pos; lia).
  set (h := q / 2) in *.
  assert (q mod 2 = 0 \/ q mod 2 = 1) as [H0|H1] by lia.
  - (* even quotient *)
    assert (Hq2 : q = 2 * h) by lia.
    assert (EA : A = (2 * B) * h + r) by nia.
    rewrite <- (Z.div_unique_pos A (2 * B) h r) by lia.
    rewrite <- (Z.mod_unique_pos A (2 * B) h r) by lia.
    rewrite Hq2, shr_1_even by assumption.
    unfold loc_of_rem. destruct (Z.eqb_spec r 0) as [->|Hr]; [reflexivity|].
    replace (2 * r ?= 2 * B) with Lt by (symmetry; apply Z.compare_lt_iff; lia).
    reflexivity.
  - (* odd quotient *)
    assert (Hq2 : q = 2 * h + 1) by lia.
    assert (EA : A = (2 * B) * h + (B + r)) by nia.
    rewrite <- (Z.div_unique_pos A (2 * B) h (B + r)) by lia.
    rewrite <- (Z.mod_unique_pos A (2 * B) h (B + r)) by lia.
    rewrite Hq2, shr_1_odd by assumption.
    unfold loc_of_rem.
    replace (B + r =? 0) with false by (symmetry; apply Z.eqb_neq; lia).
    destruct (Z.eqb_spec r 0) as [->|Hr].
    + replace (2 * (B + 0) ?= 2 * B) with Eq by (symmetry; apply Z.compare_eq_iff; lia).
      reflexivity.
    + replace (2 * (B + r) ?= 2 * B) with Gt by (symmetry; apply Z.compare_gt_iff; lia).
      reflexivity.
Qed.

Lemma iter_shr_1_rec_of (p : positive) : forall A B,
  0 <= A -> 0 < B ->
  iter_pos shr_1 p (rec_of A B) = rec_of A (B * 2 ^ Z.pos p).
Proof.
  induction p as [p IH|p IH|]; intros A B HA HB; cbn [iter_pos].
  - rewrite shr_1_rec_of, IH, IH by (try assumption; nia).
    apply f_equal. rewrite (Pos2Z.inj_xI p), Z.pow_add_r, Z.pow_twice_r by lia.
    change (2 ^ 1) with 2. ring.
  - rewrite IH, IH by (try assumption; nia).
    apply f_equal. rewrite (Pos2Z.inj_xO p), Z.pow_twice_r. ring.
  - rewrite shr_1_rec_of by assumption. apply f_equal. change (2 ^ 1) with 2. ring.
Qed.

Lemma shr_rec_of (A B e n : Z) :
  0 <= A -> 0 < B -> 0 <= n ->
  shr (rec_of A B) e n = (rec_of A (B * 2 ^ n), e + n).
Proof.
  intros HA HB Hn. unfold shr. destruct n as [|p|p]; try lia.
  - rewrite Z.mul_1_r, Z.add_0_r. reflexivity.
  - rewrite iter_shr_1_rec_of by assumption. reflexivity.
Qed.

Lemma frac_equiv (A B A' B' : Z) :
  0 <= A -> 0 < B -> 0 < B' -> A * B' = A' * B ->
  A / B = A' / B' /\ loc_of_rem (A mod B) B = loc_of_rem (A' mod B') B'.
Proof.
  intros HA HB HB' E.
  pose proof (Z.div_mod A B ltac:(lia)) as EA.
  pose proof (Z.mod_pos_bound A B HB) as RA.
  assert (Hq : 0 <= A / B) by (apply Z.div_pos; lia).
  set (q := A / B) in *. set (r := A mod B) in *.
  set (r' := A' - q * B').
  assert (Er : r' * B = r * B') by (unfold r'; nia).
  assert (Hr' : 0 <= r' < B') by (split; nia).
  assert (EA' : A' = B' * q + r') by (unfold r'; lia).
  rewrite <- (Z.div_unique_pos A' B' q r') by lia.
  rewrite <- (Z.mod_unique_pos A' B' q r') by lia.
  split; [reflexivity|].
  unfold loc_of_rem.
  destruct (Z.eqb_spec r 0) as [Hr0|Hr0], (Z.eqb_spec r' 0) as [Hr0'|Hr0']; try nia.
  - reflexivity.
  - f_equal.
    destruct (Z.compare_spec (2 * r) B), (Z.compare_spec (2 * r') B'); try reflexivity; nia.
Qed.

Lemma bra_unfold (s : bool) (m e : Z) (l : location) :
  binary_round_aux 24 128 s m e l
  = finish s (round_nearest_even (shr_m (fst (shr_fexp 24 128 m e l)))
                                 (loc_of_shr_record (fst (shr_fexp 24 128 m e l))))
             (snd (shr_fexp 24 128 m e l)).
Proof.
  unfold binary_round_aux, finish.
  destruct (shr_fexp 24 128 m e l) as [mrs' e']. reflexivity.
Qed.

Lemma fexp_eq (t : Z) : fexp 24 128 t = Z.max (t - 24) (-149).
Proof. reflexivity. Qed.

Lemma pow2_pos (k : Z) : 0 <= k -> 0 < 2 ^ k.
Proof. intros. apply Z.pow_pos_nonneg; lia. Qed.

(** Rounding a fraction presented at exponent [e] is rounding its value. *)

Lemma bra_round_frac (s : bool) (A B e N D : Z) :
  0 <= A -> 0 < B -> 0 <= N -> 0 < D ->
  (-149 <= e -> A * D * 2 ^ (e + 149) = N * B) ->
  (e < -149 -> A * D = N * B * 2 ^ (-149 - e)) ->
  e <= fexp 24 128 (Zdigits2 (A / B) + e) ->
  binary_round_aux 24 128 s (A / B) e (loc_of_rem (A mod B) B) = round_frac s N D.
Proof.
  intros HA HB HN HD Hge Hlt Hpre.
  rewrite bra_unfold. unfold shr_fexp.
  change (shr_record_of_loc (A / B) (loc_of_rem (A mod B) B)) with (rec_of A B).
  set (n := fexp 24 128 (Zdigits2 (A / B) + e) - e).
  assert (Hn : 0 <= n) by (unfold n; lia).
  rewrite shr_rec_of by assumption. cbn [fst snd].
  unfold rec_of. rewrite shr_m_record_of_loc, loc_of_shr_record_of_loc.
  unfold round_frac.
  (* the shift of the reference rounding is the same *)
  assert (Hk : rnd_shift N D = e + n + 149).
  { unfold rnd_shift, n. rewrite fexp_eq in *.
    assert (Hq : 0 <= A / B) by (apply Z.div_pos; lia).
    assert (HqN : 0 <= N / D) by (apply Z.div_pos; lia).
    destruct (Z_le_gt_dec (-149) e) as [He|He].
    - specialize (Hge He). clear Hlt.
      pose proof (pow2_pos (e + 149) ltac:(lia)) as Pj.
      destruct (Z_lt_le_dec A B) as [Hsmall|Hbig].
      + (* A / B = 0 *)
        assert (EAB : A / B = 0) by (apply Z.div_small; lia).
        rewrite EAB in *. cbn [Zdigits2] in *.
        assert (e = -149) by lia. subst e.
        change (2 ^ (-149 + 149)) with 1 in Hge.
        rewrite Z.div_small by nia. cbn [Zdigits2]. lia.
      + pose proof (digits_frac_bounds A B HB Hbig) as [B1 B2].
        pose proof (digits_pos (A / B) ltac:(apply Z.div_str_pos; lia)) as Dp.
        set (d := Zdigits2 (A / B)) in *.
        rewrite (digits_frac_unique N D (d + (e + 149))); [lia|lia|lia|].
        replace (d + (e + 149) - 1) with ((d - 1) + (e + 149)) by lia.
        rewrite (Z.pow_add_r 2 (d - 1) (e + 149)), (Z.pow_add_r 2 d (e + 149)) by lia.
        set (P := 2 ^ (d - 1)) in *. set (P' := 2 ^ d) in *. set (J := 2 ^ (e + 149)) in *.
        assert (HDJ : 0 < D * J) by nia.
        split.
        * apply Z.mul_le_mono_pos_r with B; [lia|]. rewrite <- Hge.
          pose proof (Z.mul_le_mono_nonneg_r _ _ (D * J) ltac:(lia) B1). lia.
        * apply Z.mul_lt_mono_pos_r with B; [lia|]. rewrite <- Hge.
          pose proof (proj1 (Z.mul_lt_mono_pos_r (D * J) _ _ ltac:(lia)) B2). lia.
    - specialize (Hlt ltac:(lia)). clear Hge.
      pose proof (pow2_pos (-149 - e) ltac:(lia)) as Pj.
      destruct (Z_lt_le_dec N D) as [Hsmall|Hbig].
      + (* N / D = 0 *)
        rewrite (Z.div_small N D) by lia. cbn [Zdigits2].
        assert (Zdigits2 (A / B) <= -149 - e).
        { destruct (Z_lt_le_dec A B) as [HAB|HAB].
          - rewrite Z.div_small by lia. cbn [Zdigits2]. lia.
          - pose proof (digits_frac_bounds A B HB HAB) as [B1 B2].
            set (d := Zdigits2 (A / B)) in *.
            assert (2 ^ (d - 1) < 2 ^ (-149 - e)).
            { set (P := 2 ^ (d - 1)) in *. set (J := 2 ^ (-149 - e)) in *.
              apply Z.mul_lt_mono_pos_r with (B * D); [nia|]. nia. }
            apply pow2_lt_inv in H; lia. }
        lia.
      + pose proof (digits_frac_bounds N D HD Hbig) as [B1 B2].
        pose proof (digits_pos (N / D) ltac:(apply Z.div_str_pos; lia)) as Dp.
        set (d := Zdigits2 (N / D)) in *.
        rewrite (digits_frac_unique A B (d + (-149 - e))); [lia|lia|lia|].
        replace (d + (-149 - e) - 1) with ((d - 1) + (-149 - e)) by lia.
        rewrite (Z.pow_add_r 2 (d - 1) (-149 - e)), (Z.pow_add_r 2 d (-149 - e)) by lia.
        set (P := 2 ^ (d - 1)) in *. set (P' := 2 ^ d) in *. set (J := 2 ^ (-149 - e)) in *.
        assert (HBJ : 0 < B * J) by nia.
        split.
        * apply Z.mul_le_mono_pos_r with D; [lia|].
          pose proof (Z.mul_le_mono_nonneg_r _ _ (B * J) ltac:(lia) B1). lia.
        * apply Z.mul_lt_mono_pos_r with D; [lia|].
          pose proof (proj1 (Z.mul_lt_mono_pos_r (B * J) _ _ ltac:(lia)) B2). lia. }
  rewrite Hk. replace (e + n + 149 - 149) with (e + n) by lia.
  assert (Hk0 : 0 <= e + n + 149) by (rewrite <- Hk; unfold rnd_shift; lia).
  pose proof (pow2_pos n Hn) as Pn.
  pose proof (pow2_pos (e + n + 149) Hk0) as Pk.
  destruct (frac_equiv A (B * 2 ^ n) N (D * 2 ^ (e + n + 149))) as [-> ->];
    try nia; [|reflexivity].
  destruct (Z_le_gt_dec (-149) e) as [He|He].
  - specialize (Hge He).
    replace (2 ^ (e + n + 149)) with (2 ^ (e + 149) * 2 ^ n)
      by (rewrite <- Z.pow_add_r by lia; f_equal; lia).
    rewrite (Z.mul_assoc N), <- Hge. ring.
  - specialize (Hlt ltac:(lia)).
    replace (2 ^ n) with (2 ^ (-149 - e) * 2 ^ (e + n + 149))
      by (rewrite <- Z.pow_add_r by lia; f_equal; lia).
    replace (N * (B * (2 ^ (-149 - e) * 2 ^ (e + n + 149))))
      with (N * B * 2 ^ (-149 - e) * 2 ^ (e + n + 149)) by ring.
    rewrite <- Hlt. ring.
Qed.

Lemma rne_bounds (q : Z) (l : location) :
  q <= round_nearest_even q l <= q + 1.
Proof.
  unfold round_nearest_even. destruct l as [|[]]; try lia.
  destruct (Z.even q); lia.
Qed.

Lemma rne_mono_loc (q r1 r2 B : Z) :
  0 <= r1 <= r2 -> 
  round_nearest_even q (loc_of_rem r1 B) <= round_nearest_even q (loc_of_rem r2 B).
Proof.
  intros H. unfold loc_of_rem, round_nearest_even.
  destruct (Z.eqb_spec r1 0), (Z.eqb_spec r2 0); try lia;
    destruct (Z.compare_spec (2 * r1) B), (Z.compare_spec (2 * r2) B);
    destruct (Z.even q); lia.
Qed.

Lemma rnd_shift_nonneg N D : 0 <= rnd_shift N D.
Proof. unfold rnd_shift. lia. Qed.

(** the truncated quotient fits 24 bits, and fills them once shifted *)

Lemma quot_bounds (N D : Z) :
  0 <= N -> 0 < D ->
  0 <= N / (D * 2 ^ rnd_shift N D) < 2 ^ 24
  /\ (0 < rnd_shift N D -> 2 ^ 23 <= N / (D * 2 ^ rnd_shift N D)).
Proof.
  intros HN HD.
  pose proof (pow2_pos _ (rnd_shift_nonneg N D)) as Pk.
  destruct (Z_lt_le_dec N D) as [Hs|Hb].
  - assert (E : rnd_shift N D = 0).
    { unfold rnd_shift. rewrite Z.div_small by lia. cbn [Zdigits2]. lia. }
    rewrite E. change (2 ^ 0) with 1. rewrite Z.mul_1_r, Z.div_small by lia.
    split; lia.
  - pose proof (digits_frac_bounds N D HD Hb) as [B1 B2].
    pose proof (digits_pos (N / D) ltac:(apply Z.div_str_pos; lia)) as Dp.
    unfold rnd_shift in *.
    set (d := Zdigits2 (N / D)) in *.
    destruct (Z_le_gt_dec d 24) as [Hd|Hd].
    + rewrite Z.max_r in * by lia. change (2 ^ 0) with 1. rewrite Z.mul_1_r.
      split; [|lia]. split; [apply Z.div_pos; lia|].
      apply Z.div_lt_upper_bound; [lia|].
      pose proof (Z.pow_le_mono_r 2 d 24 ltac:(lia) Hd). nia.
    + rewrite Z.max_l in * by lia.
      assert (E1 : 2 ^ (d - 1) = 2 ^ 23 * 2 ^ (d - 24))
        by (rewrite <- Z.pow_add_r by lia; f_equal; lia).
      assert (E2 : 2 ^ d = 2 ^ 24 * 2 ^ (d - 24))
        by (rewrite <- Z.pow_add_r by lia; f_equal; lia).
      set (K := 2 ^ (d - 24)) in *.
      split; [split|intros _].
      * apply Z.div_pos; nia.
      * apply Z.div_lt_upper_bound; [nia|]. nia.
      * apply Z.div_le_lower_bound; [nia|]. nia.
Qed.

Lemma rpair_canon (N D : Z) :
  0 <= N -> 0 < D -> canon_pair (fst (rpair N D)) (snd (rpair N D)).
Proof.
  intros HN HD. unfold rpair.
  pose proof (quot_bounds N D HN HD) as [Hq Hk].
  pose proof (rnd_shift_nonneg N D) as K0.
  set (k := rnd_shift N D) in *. set (B := D * 2 ^ k) in *.
  pose proof (rne_bounds (N / B) (loc_of_rem (N mod B) B)) as Hm.
  set (m := round_nearest_even (N / B) (loc_of_rem (N mod B) B)) in *.
  unfold canon_pair.
  destruct (Z.eqb_spec m (2 ^ 24)) as [E|E]; cbn [fst snd].
  - split; [lia|]. split; [lia|]. right. lia.
  - split; [lia|]. split; [lia|].
    destruct (Z.eq_dec k 0) as [->|Hk0]; [left; lia|right].
    specialize (Hk ltac:(lia)). lia.
Qed.

Lemma finish_pack (s : bool) (m c : Z) :
  0 <= m < 2 ^ 24 -> -149 <= c -> finish s m c = pack s m c.
Proof.
  intros Hm Hc. unfold finish, pack, shr_fexp. rewrite fexp_eq.
  assert (Hd : Zdigits2 m <= 24).
  { destruct (Z.eq_dec m 0) as [->|Hne]; [cbn; lia|].
    pose proof (digits_bounds m ltac:(lia)) as [B1 _].
    assert (Zdigits2 m - 1 < 24) by (apply pow2_lt_inv; lia). lia. }
  assert (Hn : Z.max (Zdigits2 m + c - 24) (-149) - c <= 0) by lia.
  unfold shr.
  destruct (Z.max (Zdigits2 m + c - 24) (-149) - c) as [|p|p] eqn:E; try lia;
    cbn [shr_record_of_loc shr_m]; destruct m as [|p'|p']; try lia; reflexivity.
Qed.

Lemma finish_carry (s : bool) (c : Z) :
  -149 <= c -> finish s (2 ^ 24) c = pack s (2 ^ 23) (c + 1).
Proof.
  intros Hc. unfold finish, pack, shr_fexp. rewrite fexp_eq.
  change (Zdigits2 (2 ^ 24)) with 25.
  replace (Z.max (25 + c - 24) (-149) - c) with 1 by lia.
  reflexivity.
Qed.

Lemma round_frac_pack (s : bool) (N D : Z) :
  0 <= N -> 0 < D ->
  round_frac s N D = pack s (fst (rpair N D)) (snd (rpair N D)).
Proof.
  intros HN HD. unfold round_frac, rpair.
  pose proof (quot_bounds N D HN HD) as [Hq Hk].
  pose proof (rnd_shift_nonneg N D) as K0.
  set (k := rnd_shift N D) in *. set (B := D * 2 ^ k) in *.
  pose proof (rne_bounds (N / B) (loc_of_rem (N mod B) B)) as Hm.
  set (m := round_nearest_even (N / B) (loc_of_rem (N mod B) B)) in *.
  destruct (Z.eqb_spec m (2 ^ 24)) as [E|E]; cbn [fst snd].
  - rewrite E. apply finish_carry. lia.
  - apply finish_pack; lia.
Qed.

(** order of packed pairs *)

Lemma pack_leb (m1 c1 m2 c2 : Z) :
  canon_pair m1 c1 -> canon_pair m2 c2 ->
  c1 < c2 \/ (c1 = c2 /\ m1 <= m2) ->
  SFleb (pack false m1 c1) (pack false m2 c2) = true.
Proof.
  intros (Hm1 & Hc1 & Hn1) (Hm2 & Hc2 & Hn2) Hord.
  unfold pack.
  destruct (Z.eqb_spec m1 0) as [E1|E1], (Z.eqb_spec m2 0) as [E2|E2];
    destruct (Z.leb_spec c1 104), (Z.leb_spec c2 104); try reflexivity; try lia.
  unfold SFleb, SFcompare.
  destruct Hord as [Hlt|[-> Hle]].
  - replace (c1 ?= c2) with Lt by (symmetry; apply Z.compare_lt_iff; lia). reflexivity.
  - rewrite Z.compare_refl. change (Pos.compare_cont Eq) with Pos.compare.
    destruct (Pos.compare_spec (Z.to_pos m1) (Z.to_pos m2)) as [| |Hgt]; try reflexivity.
    apply Pos2Z.pos_lt_pos in Hgt. rewrite !Z2Pos.id in Hgt by lia. lia.
Qed.

Lemma rpair_mono (N1 N2 D : Z) :
  0 <= N1 <= N2 -> 0 < D ->
  snd (rpair N1 D) < snd (rpair N2 D)
  \/ (snd (rpair N1 D) = snd (rpair N2 D) /\ fst (rpair N1 D) <= fst (rpair N2 D)).
Proof.
  intros HN HD.
  pose proof (quot_bounds N1 D ltac:(lia) HD) as [Hq1 Hk1].
  pose proof (quot_bounds N2 D ltac:(lia) HD) as [Hq2 Hk2].
  pose proof (rnd_shift_nonneg N1 D) as K1.
  assert (Hk : rnd_shift N1 D <= rnd_shift N2 D).
  { unfold rnd_shift.
    pose proof (digits_le_mono (N1 / D) (N2 / D)
                  ltac:(split; [apply Z.div_pos; lia|apply Z.div_le_mono; lia])). lia. }
  unfold rpair.
  set (k1 := rnd_shift N1 D) in *. set (k2 := rnd_shift N2 D) in *.
  set (B1 := D * 2 ^ k1) in *. set (B2 := D * 2 ^ k2) in *.
  pose proof (rne_bounds (N1 / B1) (loc_of_rem (N1 mod B1) B1)) as Hm1.
  pose proof (rne_bounds (N2 / B2) (loc_of_rem (N2 mod B2) B2)) as Hm2.
  destruct (Z.eq_dec k1 k2) as [Ek|Nk].
  - (* same shift: the roundings are ordered *)
    assert (EB : B2 = B1) by (unfold B1, B2; rewrite Ek; reflexivity).
    rewrite EB in *. clear EB.
    assert (HB : 0 < B1) by (unfold B1; pose proof (pow2_pos k1 K1); nia).
    assert (Hm : round_nearest_even (N1 / B1) (loc_of_rem (N1 mod B1) B1)
                 <= round_nearest_even (N2 / B1) (loc_of_rem (N2 mod B1) B1)).
    { pose proof (Z.div_le_mono N1 N2 B1 HB ltac:(lia)) as Hql.
      destruct (Z.eq_dec (N1 / B1) (N2 / B1)) as [Eq|Ne].
      - rewrite Eq. apply rne_mono_loc.
        pose proof (Z.div_mod N1 B1 ltac:(lia)). pose proof (Z.div_mod N2 B1 ltac:(lia)).
        pose proof (Z.mod_pos_bound N1 B1 HB). rewrite Eq in *. lia.
      - lia. }
    set (m1 := round_nearest_even (N1 / B1) (loc_of_rem (N1 mod B1) B1)) in *.
    set (m2 := round_nearest_even (N2 / B1) (loc_of_rem (N2 mod B1) B1)) in *.
    rewrite <- Ek.
    destruct (Z.eqb_spec m1 (2 ^ 24)), (Z.eqb_spec m2 (2 ^ 24)); cbn [fst snd]; lia.
  - (* a larger shift: a later binade *)
    specialize (Hk2 ltac:(lia)).
    set (m1 := round_nearest_even (N1 / B1) (loc_of_rem (N1 mod B1) B1)) in *.
    set (m2 := round_nearest_even (N2 / B2) (loc_of_rem (N2 mod B2) B2)) in *.
    destruct (Z.eqb_spec m1 (2 ^ 24)), (Z.eqb_spec m2 (2 ^ 24)); cbn [fst snd]; lia.
Qed.

Lemma round_frac_mono (N1 N2 D : Z) :
  0 <= N1 <= N2 -> 0 < D ->
  SFleb (round_frac false N1 D) (round_frac false N2 D) = true.
Proof.
  intros HN HD.
  rewrite !round_frac_pack by lia.
  apply pack_leb; try (apply rpair_canon; lia).
  apply rpair_mono; assumption.
Qed.

Lemma valid_canon (s : bool) (m : positive) (e : Z) :
  valid_binary 24 128 (S754_finite s m e) = true ->
  canon_pair (Z.pos m) e /\ e <= 104.
Proof.
  unfold valid_binary, bounded, canonical_mantissa. rewrite fexp_eq.
  intros H. apply andb_true_iff in H. destruct H as [H1 H2].
  apply Z.eqb_eq in H1. apply Z.leb_le in H2.
  pose proof (digits2_pos_bounds m) as [B1 B2].
  set (d := Z.pos (digits2_pos m)) in *.
  assert (Hd : d <= 24) by lia.
  pose proof (Z.pow_le_mono_r 2 d 24 ltac:(lia) Hd).
  split; [|change (128 - 24) with 104 in H2; lia].
  unfold canon_pair. split; [lia|]. split; [lia|].
  destruct (Z.eq_dec e (-149)); [left; assumption|right].
  assert (d = 24) by lia. subst d. rewrite H0 in B1. exact B1.
Qed.

Lemma pack_valid (s : bool) (m c : Z) :
  canon_pair m c -> valid_binary 24 128 (pack s m c) = true.
Proof.
  intros (Hm & Hc & Hn). unfold pack.
  destruct (Z.eqb_spec m 0) as [E|E]; [reflexivity|].
  destruct (Z.leb_spec c 104) as [L|L]; [|reflexivity].
  unfold valid_binary, bounded, canonical_mantissa. rewrite fexp_eq.
  apply andb_true_iff. split; [|apply Z.leb_le; change (128 - 24) with 104; lia].
  apply Z.eqb_eq.
  pose proof (digits_bounds m ltac:(lia)) as [B1 B2].
  assert (Zd : Z.pos (digits2_pos (Z.to_pos m)) = Zdigits2 m)
    by (destruct m; try lia; reflexivity).
  rewrite Zd.
  assert (Hd : Zdigits2 m <= 24).
  { assert (Zdigits2 m - 1 < 24) by (apply pow2_lt_inv; lia). lia. }
  destruct Hn as [->|Hn]; [lia|].
  assert (23 < Zdigits2 m) by (apply pow2_lt_inv; [apply digits_nonneg|lia]).
  lia.
Qed.

Lemma pack_scaled (m c : Z) :
  canon_pair m c -> c <= 104 -> scaled (pack false m c) = m * 2 ^ (c + 149).
Proof.
  intros (Hm & Hc & Hn) L. unfold pack.
  destruct (Z.eqb_spec m 0) as [->|E]; [reflexivity|].
  destruct (Z.leb_spec c 104); [|lia].
  cbn [scaled cond_Zopp]. rewrite Z2Pos.id by lia. reflexivity.
Qed.

(** the float order is the order of the scaled values *)

Lemma compare_pos_scaled (m1 m2 : positive) (e1 e2 : Z) :
  canon_pair (Z.pos m1) e1 -> canon_pair (Z.pos m2) e2 ->
  match e1 ?= e2 with
  | Lt => Lt
  | Gt => Gt
  | Eq => Pos.compare_cont Eq m1 m2
  end = (Z.pos m1 * 2 ^ (e1 + 149) ?= Z.pos m2 * 2 ^ (e2 + 149)).
Proof.
  intros (Hm1 & Hc1 & Hn1) (Hm2 & Hc2 & Hn2).
  change (Pos.compare_cont Eq m1 m2) with (Z.pos m1 ?= Z.pos m2).
  assert (Hlt : forall ma ea mb eb,
             0 < ma < 2 ^ 24 -> 2 ^ 23 <= mb -> -149 <= ea < eb ->
             ma * 2 ^ (ea + 149) < mb * 2 ^ (eb + 149)).
  { intros ma ea mb eb Ha Hb He.
    replace (eb + 149) with ((eb - ea) + (ea + 149)) by lia.
    rewrite (Z.pow_add_r 2 (eb - ea) (ea + 149)) by lia.
    pose proof (pow2_pos (ea + 149) ltac:(lia)) as P.
    pose proof (Z.pow_le_mono_r 2 1 (eb - ea) ltac:(lia) ltac:(lia)) as Q.
    change (2 ^ 1) with 2 in Q. change (2 ^ 24) with 16777216 in Ha.
    change (2 ^ 23) with 8388608 in Hb.
    set (X := 2 ^ (ea + 149)) in *. set (Y := 2 ^ (eb - ea)) in *.
    assert (ma * X < 8388608 * (2 * X)) by nia.
    assert (8388608 * 2 <= mb * Y) by nia.
    assert (8388608 * 2 * X <= mb * Y * X)
      by (apply Z.mul_le_mono_nonneg_r; lia).
    lia. }
  destruct (Z.compare_spec e1 e2) as [->|L|G].
  - pose proof (pow2_pos (e2 + 149) ltac:(lia)) as P.
    set (X := 2 ^ (e2 + 149)) in *.
    destruct (Z.compare_spec (Z.pos m1) (Z.pos m2)) as [E|L|G]; symmetry.
    + apply Z.compare_eq_iff. rewrite E. reflexivity.
    + apply Z.compare_lt_iff. nia.
    + apply Z.compare_gt_iff. nia.
  - symmetry. apply Z.compare_lt_iff. apply Hlt; lia.
  - symmetry. apply Z.compare_gt_iff. apply Hlt; lia.
Qed.

Lemma compare_scaled (x y : spec_float) :
  valid_binary 24 128 x = true -> valid_binary 24 128 y = true ->
  F32.is_finite x = true -> F32.is_finite y = true ->
  SFcompare x y = Some (scaled x ?= scaled y).
Proof.
  intros Vx Vy Fx Fy.
  destruct x as [sx|sx| |sx mx ex], y as [sy|sy| |sy my ey]; try discriminate.
  - reflexivity.
  - apply valid_canon in Vy. destruct Vy as [(_ & Cy & _) _].
    pose proof (pow2_pos (ey + 149) ltac:(lia)) as Py.
    unfold SFcompare, scaled. destruct sy; cbn [cond_Zopp]; f_equal; symmetry.
    + apply Z.compare_gt_iff. nia.
    + apply Z.compare_lt_iff. nia.
  - apply valid_canon in Vx. destruct Vx as [(_ & Cx & _) _].
    pose proof (pow2_pos (ex + 149) ltac:(lia)) as Px.
    unfold SFcompare, scaled. destruct sx; cbn [cond_Zopp]; f_equal; symmetry.
    + apply Z.compare_lt_iff. nia.
    + apply Z.compare_gt_iff. nia.
  - apply valid_canon in Vx, Vy. destruct Vx as [Cx _], Vy as [Cy _].
    pose proof (compare_pos_scaled mx my ex ey Cx Cy) as H.
    pose proof (compare_pos_scaled my mx ey ex Cy Cx) as H'.
    pose proof (pow2_pos (ex + 149) ltac:(unfold canon_pair in Cx; lia)) as Px.
    pose proof (pow2_pos (ey + 149) ltac:(unfold canon_pair in Cy; lia)) as Py.
    unfold SFcompare, scaled.
    destruct sx, sy; cbn [cond_Zopp].
    + rewrite Z.compare_opp. rewrite <- H'. f_equal.
      rewrite (Z.compare_antisym ex ey).
      destruct (ex ?= ey); cbn [CompOpp]; try reflexivity.
      rewrite (Pos.compare_cont_antisym). reflexivity.
    + f_equal. symmetry. apply Z.compare_lt_iff. nia.
    + f_equal. symmetry. apply Z.compare_gt_iff. nia.
    + f_equal. exact H.
Qed.

Lemma leb_scaled (x y : spec_float) :
  valid_binary 24 128 x = true -> valid_binary 24 128 y = true ->
  F32.is_finite x = true -> F32.is_finite y = true ->
  SFleb x y = true <-> scaled x <= scaled y.
Proof.
  intros Vx Vy Fx Fy. unfold SFleb. rewrite (compare_scaled x y Vx Vy Fx Fy).
  destruct (Z.compare_spec (scaled x) (scaled y)); split; intros; try lia;
    try reflexivity; discriminate.
Qed.

Lemma eqb_scaled (x y : spec_float) :
  valid_binary 24 128 x = true -> valid_binary 24 128 y = true ->
  F32.is_finite x = true -> F32.is_finite y = true ->
  SFeqb x y = true <-> scaled x = scaled y.
Proof.
  intros Vx Vy Fx Fy. unfold SFeqb. rewrite (compare_scaled x y Vx Vy Fx Fy).
  destruct (Z.compare_spec (scaled x) (scaled y)); split; intros; try lia;
    try reflexivity; discriminate.
Qed.

Lemma digits_mul_pow2 (x j : Z) :
  0 < x -> 0 <= j -> Zdigits2 (x * 2 ^ j) = Zdigits2 x + j.
Proof.
  intros Hx Hj. pose proof (digits_bounds x Hx) as [B1 B2].
  pose proof (digits_pos x Hx) as Dp. pose proof (pow2_pos j Hj) as Pj.
  apply digits_unique; [|lia].
  replace (Zdigits2 x + j - 1) with ((Zdigits2 x - 1) + j) by lia.
  rewrite (Z.pow_add_r 2 (Zdigits2 x - 1) j), (Z.pow_add_r 2 (Zdigits2 x) j) by lia.
  split; nia.
Qed.

Lemma iter_xO (d m : positive) :
  Z.pos (Pos.iter xO m d) = Z.pos m * 2 ^ Z.pos d.
Proof.
  revert m. induction d as [|d IH] using Pos.peano_ind; intros m.
  - cbn [Pos.iter]. change (2 ^ 1) with 2. lia.
  - rewrite Pos.iter_succ, Pos2Z.inj_xO, IH, Pos2Z.inj_succ, Z.pow_succ_r by lia.
    ring.
Qed.

Lemma shl_align_spec (m : positive) (e t : Z) :
  snd (shl_align m e t) = Z.min e t
  /\ Z.pos (fst (shl_align m e t)) = Z.pos m * 2 ^ (e - Z.min e t).
Proof.
  unfold shl_align. destruct (t - e) as [|p|p] eqn:E; cbn [fst snd].
  - rewrite Z.min_l by lia. rewrite Z.sub_diag. split; [reflexivity|lia].
  - rewrite Z.min_l by lia. rewrite Z.sub_diag. split; [reflexivity|lia].
  - rewrite Z.min_r by lia. split; [reflexivity|].
    rewrite iter_xO. f_equal. f_equal. lia.
Qed.

Lemma binary_round_spec (s : bool) (m : positive) (e : Z) :
  -149 <= e ->
  binary_round 24 128 s m e = round_frac s (Z.pos m * 2 ^ (e + 149)) 1.
Proof.
  intros He. unfold binary_round.
  set (t := fexp 24 128 (Z.pos (digits2_pos m) + e)).
  pose proof (shl_align_spec m e t) as [E1 E2].
  destruct (shl_align m e t) as [mz ez]. cbn [fst snd] in E1, E2.
  assert (Ht : -149 <= t) by (unfold t; rewrite fexp_eq; lia).
  pose proof (pow2_pos (e - Z.min e t) ltac:(lia)) as P.
  replace (Z.pos mz) with (Z.pos mz / 1) at 1 by apply Z.div_1_r.
  replace loc_Exact with (loc_of_rem (Z.pos mz mod 1) 1)
    by (rewrite Z.mod_1_r; reflexivity).
  apply bra_round_frac; try lia.
  - intros _. rewrite E2, E1.
    replace (e + 149) with ((e - Z.min e t) + (Z.min e t + 149)) by lia.
    rewrite (Z.pow_add_r 2 (e - Z.min e t) (Z.min e t + 149)) by lia. ring.
  - rewrite Z.div_1_r, E2. rewrite digits_mul_pow2 by lia.
    change (Zdigits2 (Z.pos m)) with (Z.pos (digits2_pos m)).
    replace (Z.pos (digits2_pos m) + (e - Z.min e t) + ez)
      with (Z.pos (digits2_pos m) + e) by lia.
    fold t. lia.
Qed.

Lemma round_frac_zero (s : bool) (D : Z) : 0 < D -> round_frac s 0 D = S754_zero s.
Proof.
  intros HD. unfold round_frac, rnd_shift.
  rewrite Z.div_0_l by lia. cbn [Zdigits2]. change (Z.max (0 - 24) 0) with 0.
  change (2 ^ 0) with 1. rewrite Z.mul_1_r, Z.div_0_l, Z.mod_0_l by lia.
  reflexivity.
Qed.

(** rounding a representable number gives it back *)

Lemma round_frac_id (s : bool) (m : positive) (e : Z) :
  valid_binary 24 128 (S754_finite s m e) = true ->
  round_frac s (Z.pos m * 2 ^ (e + 149)) 1 = S754_finite s m e.
Proof.
  intros V. pose proof V as V'. apply valid_canon in V'.
  destruct V' as [(Hm & Hc & Hn) L].
  rewrite <- binary_round_spec by lia.
  unfold binary_round.
  unfold valid_binary, bounded, canonical_mantissa in V.
  apply andb_true_iff in V. destruct V as [V1 V2]. apply Z.eqb_eq in V1.
  rewrite V1, shl_align_same.
  rewrite bra_unfold. unfold shr_fexp. cbn [Zdigits2]. rewrite V1, Z.sub_diag.
  cbn [shr fst snd shr_record_of_loc shr_m loc_of_shr_record round_nearest_even].
  rewrite finish_pack by lia. unfold pack. cbn [Z.eqb].
  destruct (Z.leb_spec e 104); [reflexivity|lia].
Qed.

Lemma pow2_add (a b : Z) : 0 <= a -> 0 <= b -> 2 ^ a * 2 ^ b = 2 ^ (a + b).
Proof. intros. symmetry. apply Z.pow_add_r; assumption. Qed.

Lemma new_location_rem (B r : Z) :
  0 < B -> 0 <= r < B -> new_location B r = loc_of_rem r B.
Proof.
  intros HB Hr. unfold new_location, loc_of_rem.
  destruct (Z.even B) eqn:Ev; [reflexivity|].
  unfold new_location_odd. destruct (Z.eqb_spec r 0); [reflexivity|].
  f_equal.
  assert (Ho : Z.odd B = true) by (rewrite <- Z.negb_even, Ev; reflexivity).
  apply Z.odd_spec in Ho. destruct Ho as [h Hh].
  destruct (Z.compare_spec (2 * r + 1) B), (Z.compare_spec (2 * r) B);
    try reflexivity; lia.
Qed.

(** [x - y] for numbers [y <= x] *)

Lemma sub_finite_spec (sx : bool) (mx : positive) (ex : Z)
                      (sy : bool) (my : positive) (ey : Z) :
  -149 <= ex -> -149 <= ey ->
  let x := S754_finite sx mx ex in
  let y := S754_finite sy my ey in
  scaled y <= scaled x ->
  SFsub 24 128 x y
  = if scaled x =? scaled y then S754_zero false
    else round_frac false (scaled x - scaled y) 1.
Proof.
  intros Hex Hey x y Hle. unfold x, y in *. unfold SFsub.
  set (ez := Z.min ex ey).
  pose proof (shl_align_spec mx ex ez) as [_ Ex].
  pose proof (shl_align_spec my ey ez) as [_ Ey].
  replace (Z.min ex ez) with ez in Ex by (unfold ez; lia).
  replace (Z.min ey ez) with ez in Ey by (unfold ez; lia).
  rewrite Ex, Ey.
  assert (Hez : -149 <= ez) by (unfold ez; lia).
  assert (Sx : scaled (S754_finite sx mx ex)
               = cond_Zopp sx (Z.pos mx * 2 ^ (ex - ez)) * 2 ^ (ez + 149)).
  { cbn [scaled]. replace (ex + 149) with ((ex - ez) + (ez + 149)) by lia.
    rewrite (Z.pow_add_r 2 (ex - ez) (ez + 149)) by (unfold ez; lia).
    destruct sx; cbn [cond_Zopp]; ring. }
  assert (Sy : scaled (S754_finite sy my ey)
               = cond_Zopp sy (Z.pos my * 2 ^ (ey - ez)) * 2 ^ (ez + 149)).
  { cbn [scaled]. replace (ey + 149) with ((ey - ez) + (ez + 149)) by lia.
    rewrite (Z.pow_add_r 2 (ey - ez) (ez + 149)) by (unfold ez; lia).
    destruct sy; cbn [cond_Zopp]; ring. }
  rewrite Sx, Sy in *.
  pose proof (pow2_pos (ez + 149) ltac:(lia)) as P.
  set (X := cond_Zopp sx (Z.pos mx * 2 ^ (ex - ez))) in *.
  set (Y := cond_Zopp sy (Z.pos my * 2 ^ (ey - ez))) in *.
  set (J := 2 ^ (ez + 149)) in *.
  assert (HM : 0 <= X - Y) by nia.
  rewrite <- Z.mul_sub_distr_r.
  destruct (X - Y) as [|p|p] eqn:EM; try lia.
  - replace (X * J =? Y * J) with true by (symmetry; apply Z.eqb_eq; nia).
    reflexivity.
  - replace (X * J =? Y * J) with false by (symmetry; apply Z.eqb_neq; nia).
    cbn [binary_normalize]. apply binary_round_spec. exact Hez.
Qed.

Lemma sub_spec (x y : spec_float) :
  valid_binary 24 128 x = true -> valid_binary 24 128 y = true ->
  F32.is_finite x = true -> F32.is_finite y = true ->
  scaled y <= scaled x ->
  (scaled x = scaled y /\ exists s, SFsub 24 128 x y = S754_zero s)
  \/ (scaled y < scaled x
      /\ SFsub 24 128 x y = round_frac false (scaled x - scaled y) 1).
Proof.
  intros Vx Vy Fx Fy Hle.
  destruct x as [sx|sx| |sx mx ex], y as [sy|sy| |sy my ey]; try discriminate.
  - left. split; [reflexivity|]. destruct sx, sy; eexists; reflexivity.
  - right. pose proof Vy as Cy. apply valid_canon in Cy. destruct Cy as [(_ & Cy & _) _].
    pose proof (pow2_pos (ey + 149) ltac:(lia)) as Py.
    cbn [scaled] in *. destruct sy; cbn [cond_Zopp] in *; [|nia].
    split; [nia|]. cbn [SFsub negb].
    replace (0 - - (Z.pos my * 2 ^ (ey + 149))) with (Z.pos my * 2 ^ (ey + 149)) by lia.
    symmetry. apply round_frac_id. exact Vy.
  - right. pose proof Vx as Cx. apply valid_canon in Cx. destruct Cx as [(_ & Cx & _) _].
    pose proof (pow2_pos (ex + 149) ltac:(lia)) as Px.
    cbn [scaled] in *. destruct sx; cbn [cond_Zopp] in *; [nia|].
    split; [nia|]. cbn [SFsub]. rewrite Z.sub_0_r.
    symmetry. apply round_frac_id. exact Vx.
  - pose proof Vx as Cx. apply valid_canon in Cx. destruct Cx as [(_ & Cx & _) _].
    pose proof Vy as Cy. apply valid_canon in Cy. destruct Cy as [(_ & Cy & _) _].
    rewrite (sub_finite_spec sx mx ex sy my ey Cx Cy Hle).
    destruct (Z.eqb_spec (scaled (S754_finite sx mx ex)) (scaled (S754_finite sy my ey)))
      as [E|E].
    + left. split; [exact E|]. eexists. reflexivity.
    + right. split; [lia|reflexivity].
Qed.

(** [u / d] for positive numbers *)

Lemma div_spec (mu : positive) (eu : Z) (md : positive) (ed : Z) :
  -149 <= eu -> -149 <= ed ->
  SFdiv 24 128 (S754_finite false mu eu) (S754_finite false md ed)
  = round_frac false (Z.pos mu * 2 ^ (eu + 149) * 2 ^ 149) (Z.pos md * 2 ^ (ed + 149)).
Proof.
  intros Heu Hed. unfold SFdiv, SFdiv_core_binary.
  set (du := Zdigits2 (Z.pos mu)). set (dd := Zdigits2 (Z.pos md)).
  set (e' := Z.min (fexp 24 128 (du + eu - (dd + ed))) (eu - ed)).
  set (s := eu - ed - e').
  assert (Hs : 0 <= s) by (unfold s, e'; lia).
  assert (Em : match s with
               | 0 => Z.pos mu
               | Z.pos _ => Z.shiftl (Z.pos mu) s
               | Z.neg _ => 0
               end = Z.pos mu * 2 ^ s).
  { clearbody s. destruct s as [|p|p]; try lia.
    apply Z.shiftl_mul_pow2. lia. }
  rewrite Em. clear Em.
  pose proof (pow2_pos s Hs) as Ps.
  set (A := Z.pos mu * 2 ^ s) in *.
  rewrite (surjective_pairing (Z.div_eucl A (Z.pos md))).
  change (fst (Z.div_eucl A (Z.pos md))) with (A / Z.pos md).
  change (snd (Z.div_eucl A (Z.pos md))) with (A mod Z.pos md).
  rewrite new_location_rem by (try apply Z.mod_pos_bound; lia).
  cbn [xorb].
  pose proof (pow2_pos (eu + 149) ltac:(lia)) as Pu.
  pose proof (pow2_pos (ed + 149) ltac:(lia)) as Pd.
  apply bra_round_frac; try (unfold A; nia).
  - intros He. unfold A.
    transitivity (Z.pos mu * Z.pos md * (2 ^ s * 2 ^ (ed + 149) * 2 ^ (e' + 149))); [ring|].
    transitivity (Z.pos mu * Z.pos md * (2 ^ (eu + 149) * 2 ^ 149)); [|ring].
    f_equal. rewrite !pow2_add by lia. f_equal. unfold s. lia.
  - intros He. unfold A.
    transitivity (Z.pos mu * Z.pos md * (2 ^ s * 2 ^ (ed + 149))); [ring|].
    transitivity (Z.pos mu * Z.pos md * (2 ^ (eu + 149) * 2 ^ 149 * 2 ^ (-149 - e'))); [|ring].
    f_equal. rewrite !pow2_add by lia. f_equal. unfold s. lia.
  - (* enough bits in the quotient *)
    assert (Hd : du + s - dd <= Zdigits2 (A / Z.pos md)).
    { destruct (Z_le_gt_dec (du + s - dd) 0) as [Hsmall|Hbig].
      - pose proof (digits_nonneg (A / Z.pos md)). lia.
      - pose proof (digits_bounds (Z.pos mu) ltac:(lia)) as [U1 U2].
        pose proof (digits_bounds (Z.pos md) ltac:(lia)) as [D1 D2].
        fold du in U1, U2. fold dd in D1, D2.
        pose proof (digits_pos (Z.pos mu) ltac:(lia)) as Du0. fold du in Du0.
        pose proof (digits_pos (Z.pos md) ltac:(lia)) as Dd0. fold dd in Dd0.
        assert (Hq : 2 ^ (du + s - dd - 1) <= A / Z.pos md).
        { apply Z.div_le_lower_bound; [lia|].
          unfold A.
          apply Z.le_trans with (2 ^ dd * 2 ^ (du + s - dd - 1)).
          - apply Z.mul_le_mono_nonneg_r; [apply Z.pow_nonneg; lia|lia].
          - rewrite pow2_add by lia.
            replace (dd + (du + s - dd - 1)) with ((du - 1) + s) by lia.
            rewrite <- pow2_add by lia.
            apply Z.mul_le_mono_nonneg_r; lia. }
        assert (0 < A / Z.pos md)
          by (pose proof (pow2_pos (du + s - dd - 1) ltac:(lia)); lia).
        pose proof (digits_bounds (A / Z.pos md) ltac:(lia)) as [_ Q2].
        assert (du + s - dd - 1 < Zdigits2 (A / Z.pos md))
          by (apply pow2_lt_inv; [apply digits_nonneg|lia]).
        lia. }
    rewrite fexp_eq. unfold e' at 1. rewrite fexp_eq. unfold s in Hd. lia.
Qed.

(** [w * 255.0] for a positive number *)

Lemma mul_255_spec (mw : positive) (ew : Z) :
  valid_binary 24 128 (S754_finite false mw ew) = true ->
  SFmul 24 128 (S754_finite false mw ew) (S754_finite false 16711680 (-16))
  = round_frac false (255 * (Z.pos mw * 2 ^ (ew + 149))) 1.
Proof.
  intros V. apply valid_canon in V. destruct V as [(Hm & Hc & Hn) L].
  unfold SFmul. cbn [xorb].
  rewrite Pos2Z.inj_mul.
  replace (Z.pos mw * 16711680) with ((Z.pos mw * 16711680) / 1) at 1 by apply Z.div_1_r.
  replace loc_Exact with (loc_of_rem ((Z.pos mw * 16711680) mod 1) 1)
    by (rewrite Z.mod_1_r; reflexivity).
  apply bra_round_frac; try lia.
  - intros He.
    replace (ew + 149) with (16 + (ew + -16 + 149)) by lia.
    rewrite (Z.pow_add_r 2 16 (ew + -16 + 149)) by lia.
    change (2 ^ 16) with 65536. ring.
  - intros He.
    replace (2 ^ (-149 - (ew + -16))) with (2 ^ (16 - (ew + 149)))
      by (f_equal; lia).
    transitivity (255 * Z.pos mw * (2 ^ (ew + 149) * 2 ^ (16 - (ew + 149)))); [|ring].
    rewrite pow2_add by lia. replace (ew + 149 + (16 - (ew + 149))) with 16 by lia.
    change (2 ^ 16) with 65536. ring.
  - rewrite Z.div_1_r, fexp_eq.
    change 16711680 with (255 * 2 ^ 16). rewrite Z.mul_assoc.
    rewrite digits_mul_pow2 by lia.
    assert (Hd : Zdigits2 (Z.pos mw) + 7 <= Zdigits2 (Z.pos mw * 255)).
    { rewrite <- (digits_mul_pow2 (Z.pos mw) 7) by lia.
      apply digits_le_mono. change (2 ^ 7) with 128. lia. }
    destruct Hn as [->|Hn]; [pose proof (digits_nonneg (Z.pos mw * 255)); lia|].
    assert (23 < Zdigits2 (Z.pos mw)).
    { pose proof (digits_bounds (Z.pos mw) ltac:(lia)) as [_ B2].
      apply pow2_lt_inv; [apply digits_nonneg|lia]. }
    lia.
Qed.

End RoundingFacts.

Section BufferFacts.

Lemma float32_items_length (n : nat) : forall buf,
    List.length buf = 4 * n ->
    exists xs, float32_items buf = Some xs /\ List.length xs = n.
Proof.
  induction n as [|n IH]; intros buf Hlen.
  - destruct buf; [|discriminate]. exists []. split; reflexivity.
  - destruct buf as [|b0 [|b1 [|b2 [|b3 rest]]]]; simpl in Hlen; try lia.
    destruct (IH rest) as (xs & Hxs & Hn); [lia|].
    exists (F32.of_bits (le_word b0 b1 b2 b3) :: xs).
    simpl. rewrite Hxs, Hn. split; reflexivity.
Qed.

Lemma float32_items_some_length : forall buf xs,
    float32_items buf = Some xs -> List.length buf = 4 * List.length xs.
Proof.
  fix IH 1. intros buf xs H.
  destruct buf as [|b0 [|b1 [|b2 [|b3 rest]]]]; simpl in H; try discriminate.
  - injection H as <-. reflexivity.
  - destruct (float32_items rest) as [ys|] eqn:E; [|discriminate].
    injection H as <-. simpl. rewrite (IH rest ys E). lia.
Qed.

Lemma range_length (n : Z) : List.length (range n) = Z.to_nat n.
Proof. unfold range. rewrite length_map, length_seq. reflexivity. Qed.

Lemma range_nth (n i : Z) (d : Z) :
  (0 <= i < n)%Z -> nth (Z.to_nat i) (range n) d = i.
Proof.
  intros Hi. unfold range.
  rewrite nth_indep with (d' := Z.of_nat 0) by (rewrite length_map, length_seq; lia).
  rewrite map_nth, seq_nth by lia. lia.
Qed.

(** In a concatenation of chunks of equal length [m], element [i * m + j]
    is element [j] of chunk [i]. *)
Lemma nth_flat_map_uniform {A B : Type} (f : A -> list B) (m : nat) (d : B) :
  forall (l : list A) (i j : nat) (a : A),
    (forall x, List.length (f x) = m) ->
    i < List.length l -> j < m ->
    nth (i * m + j) (flat_map f l) d = nth j (f (nth i l a)) d.
Proof.
  induction l as [|x l IH]; intros i j a Hm Hi Hj; simpl in Hi; [lia|].
  simpl flat_map. destruct i as [|i].
  - simpl. rewrite app_nth1 by (rewrite Hm; lia). reflexivity.
  - rewrite app_nth2 by (rewrite Hm; lia). rewrite Hm.
    replace (S i * m + j - m) with (i * m + j) by lia.
    simpl nth. apply IH; auto; lia.
Qed.

Lemma length_flat_map_uniform {A B : Type} (f : A -> list B) (m : nat) :
  forall l : list A,
    (forall x, List.length (f x) = m) ->
    List.length (flat_map f l) = List.length l * m.
Proof.
  induction l as [|x l IH]; intros Hm; simpl; [reflexivity|].
  rewrite length_app, Hm, IH by assumption. reflexivity.
Qed.

Lemma product_nonneg sh idx : in_shape sh idx -> (0 < product sh)%Z.
Proof.
  induction 1; simpl; [lia|].
  unfold product in *. simpl. nia.
Qed.

Lemma ravel_bound sh idx :
  in_shape sh idx -> (0 <= ravel sh idx < product sh)%Z.
Proof.
  induction 1 as [|n sh i idx Hi Hin IH]; simpl; [unfold product; simpl; lia|].
  change (product (n :: sh)) with (n * product sh)%Z. nia.
Qed.

Lemma c_order_length : forall sh st off,
    List.length sh = List.length st ->
    Forall (fun n => 0 <= n)%Z sh ->
    List.length (c_order sh st off) = Z.to_nat (product sh).
Proof.
  induction sh as [|n sh IH]; intros st off Hlen Hpos.
  - destruct st; [reflexivity|discriminate].
  - destruct st as [|s st]; [discriminate|]. simpl c_order.
    inversion Hpos as [|? ? Hn Hsh]; subst.
    rewrite length_flat_map_uniform with (m := Z.to_nat (product sh)).
    + rewrite range_length. change (product (n :: sh)) with (n * product sh)%Z.
      assert (0 <= product sh)%Z.
      { clear - Hsh. induction Hsh; unfold product in *; simpl; [lia|nia]. }
      nia.
    + intros x. apply IH; [simpl in Hlen; lia|assumption].
Qed.

(** The C-order enumeration of a view lists, at the position of each
    multi-index, the buffer offset the strides give it. *)
Lemma c_order_nth : forall sh st idx off d,
    List.length sh = List.length st ->
    in_shape sh idx ->
    nth (Z.to_nat (ravel sh idx)) (c_order sh st off) d
    = (off + offset_of st idx)%Z.
Proof.
  induction sh as [|n sh IH]; intros st idx off d Hlen Hin.
  - inversion Hin; subst. destruct st; [|discriminate]. simpl. lia.
  - inversion Hin as [|? ? i idx' Hi Hin']; subst.
    destruct st as [|s st]; [discriminate|].
    simpl c_order. simpl ravel. simpl offset_of.
    pose proof (ravel_bound _ _ Hin') as Hb.
    assert (Hpos : Forall (fun n => 0 <= n)%Z sh).
    { clear - Hin'. induction Hin'; constructor; [lia|assumption]. }
    replace (Z.to_nat (i * product sh + ravel sh idx'))
      with (Z.to_nat i * Z.to_nat (product sh) + Z.to_nat (ravel sh idx')) by nia.
    rewrite nth_flat_map_uniform with (a := 0%Z).
    + rewrite range_nth by lia. rewrite IH by (auto; simpl in Hlen; lia). lia.
    + intros x. apply c_order_length; [simpl in Hlen; lia|assumption].
    + rewrite range_length. lia.
    + lia.
Qed.

End BufferFacts.

(** ** Quantization *)

Section QuantizationFacts.

Local Open Scope Z_scope.

Variable invalid_cast : float32 -> Z.

Local Abbreviation to_uint8' := (to_uint8 invalid_cast).

Lemma to_uint8_zero (s : bool) : to_uint8' (S754_zero s) = 0%Z.
Proof. reflexivity. Qed.

Lemma to_uint8_c255 : to_uint8' c255 = 255%Z.
Proof. reflexivity. Qed.

Lemma to_uint8_nan : to_uint8' S754_nan = (invalid_cast S754_nan mod 256)%Z.
Proof. reflexivity. Qed.

Lemma to_uint8_range (x : float32) : (0 <= to_uint8' x <= 255)%Z.
Proof.
  unfold to_uint8.
  pose proof (Z.mod_pos_bound (invalid_cast x) 256 ltac:(lia)) as Hm.
  destruct (F32.trunc x) as [z|]; [|lia].
  destruct ((0 <=? z)%Z && (z <=? 255)%Z) eqn:E; [|lia].
  apply andb_true_iff in E. lia.
Qed.

(** decoded floats are valid *)
Lemma of_bits_valid (w : Z) : valid (F32.of_bits w) = true.
Proof.
  unfold F32.of_bits.
  assert (Hm : 0 <= Z.land w (Z.ones 23) < 2 ^ 23).
  { rewrite Z.land_ones by lia. apply Z.mod_pos_bound. lia. }
  assert (He : 0 <= Z.land (Z.shiftr w 23) 255 < 2 ^ 8).
  { change 255 with (Z.ones 8). rewrite Z.land_ones by lia. apply Z.mod_pos_bound. lia. }
  set (m := Z.land w (Z.ones 23)) in *. set (e := Z.land (Z.shiftr w 23) 255) in *.
  set (s := Z.testbit w 31). clearbody m e s.
  destruct (Z.eqb_spec e 0) as [E0|E0].
  - destruct m as [|p|p]; try reflexivity.
    change (valid (S754_finite s p (-149))) with (valid (pack s (Z.pos p) (-149))).
    apply pack_valid. unfold canon_pair. change (2 ^ 24) with 16777216.
    change (2 ^ 23) with 8388608 in Hm. lia.
  - destruct (Z.eqb_spec e 255) as [E1|E1].
    + destruct (m =? 0); reflexivity.
    + change (2 ^ 8) with 256 in He. change (2 ^ 23) with 8388608 in *.
      assert (P : pack s (m + 8388608) (e - 150)
                  = S754_finite s (Z.to_pos (m + 8388608)) (e - 150)).
      { unfold pack. destruct (Z.eqb_spec (m + 8388608) 0); [lia|].
        destruct (Z.leb_spec (e - 150) 104); [reflexivity|lia]. }
      unfold valid. rewrite <- P. apply pack_valid. unfold canon_pair.
      change (2 ^ 24) with 16777216. change (2 ^ 23) with 8388608. lia.
Qed.

Lemma float32_items_valid : forall buf xs,
  float32_items buf = Some xs -> forall x, In x xs -> valid x = true.
Proof.
  fix IH 1. intros buf xs H x Hx.
  destruct buf as [|b0 [|b1 [|b2 [|b3 rest]]]]; cbn [float32_items] in H; try discriminate.
  - injection H as <-. destruct Hx.
  - destruct (float32_items rest) as [ys|] eqn:E; [|discriminate].
    injection H as <-. destruct Hx as [<-|Hx].
    + apply of_bits_valid.
    + exact (IH rest ys E x Hx).
Qed.

(** ** equality up to the sign of zero *)

Lemma feq_refl x : feq x x.
Proof. left. reflexivity. Qed.

Lemma feq_zero_l s y : feq (S754_zero s) y -> exists s', y = S754_zero s'.
Proof.
  intros [<-|[_ H]]; [eexists; reflexivity|].
  destruct y; try discriminate. eexists; reflexivity.
Qed.

Lemma feq_scaled x y : feq x y -> scaled x = scaled y.
Proof.
  intros [->|[Hx Hy]]; [reflexivity|]. destruct x, y; try discriminate; reflexivity.
Qed.

Lemma feq_nonzero x y : feq x y -> F32.is_zero y = false -> x = y.
Proof. intros [->|[_ Hy]] H; [reflexivity|congruence]. Qed.

Lemma feq_leb x x' y y' :
  feq x x' -> feq y y' -> SFleb x' y' = true -> SFleb x y = true.
Proof.
  intros [->|[Hx Hx']] [->|[Hy Hy']] H; try exact H.
  - destruct y, y'; try discriminate. destruct x'; exact H.
  - destruct x, x'; try discriminate. destruct y'; exact H.
  - destruct x, x', y, y'; try discriminate. reflexivity.
Qed.

(** ** results of the reference rounding *)

Lemma round_frac_cases (N D : Z) :
  0 <= N -> 0 < D ->
  valid (round_frac false N D) = true
  /\ (round_frac false N D = S754_zero false
      \/ (exists m e, round_frac false N D = S754_finite false m e)
      \/ round_frac false N D = S754_infinity false).
Proof.
  intros HN HD. rewrite round_frac_pack by assumption.
  pose proof (rpair_canon N D HN HD) as C.
  split; [apply pack_valid; exact C|].
  unfold pack. destruct (_ =? 0); [left; reflexivity|].
  destruct (_ <=? 104); [right; left; eexists _, _; reflexivity|right; right; reflexivity].
Qed.

Lemma round_frac_nonzero (N D : Z) :
  0 < D -> D <= N -> F32.is_zero (round_frac false N D) = false.
Proof.
  intros HD HN. rewrite round_frac_pack by lia. unfold rpair.
  pose proof (quot_bounds N D ltac:(lia) HD) as [Hq Hk].
  pose proof (rnd_shift_nonneg N D) as K0.
  set (k := rnd_shift N D) in *. set (B := D * 2 ^ k) in *.
  pose proof (rne_bounds (N / B) (loc_of_rem (N mod B) B)) as Hm.
  set (m := round_nearest_even (N / B) (loc_of_rem (N mod B) B)) in *.
  assert (Hq1 : 1 <= N / B).
  { destruct (Z.eq_dec k 0) as [E|E].
    - unfold B. rewrite E. change (2 ^ 0) with 1. rewrite Z.mul_1_r.
      apply Z.div_le_lower_bound; lia.
    - specialize (Hk ltac:(lia)). change (2 ^ 23) with 8388608 in Hk. lia. }
  unfold pack.
  destruct (Z.eqb_spec m (2 ^ 24)); cbn [fst snd].
  - cbn [Z.eqb]. destruct (_ <=? 104); reflexivity.
  - destruct (Z.eqb_spec m 0); [lia|]. destruct (_ <=? 104); reflexivity.
Qed.

(** a rounding below a number is a nonnegative number *)
Lemma round_frac_below (N D : Z) (b : float32) :
  0 <= N -> 0 < D -> F32.is_finite b = true ->
  SFleb (round_frac false N D) b = true ->
  nonneg_number (round_frac false N D) = true.
Proof.
  intros HN HD Hb Hle.
  destruct (round_frac_cases N D HN HD) as [V [E|[(m & e & E)|E]]];
    unfold nonneg_number; rewrite V; rewrite E in *; try reflexivity.
  destruct b; discriminate.
Qed.

Lemma nonneg_number_inv x :
  nonneg_number x = true ->
  valid x = true /\ F32.is_finite x = true /\ 0 <= scaled x
  /\ ((exists s, x = S754_zero s) \/ exists m e, x = S754_finite false m e).
Proof.
  unfold nonneg_number. intros H. apply andb_true_iff in H. destruct H as [V H].
  split; [exact V|].
  destruct x as [s|s| |[] m e]; try discriminate.
  - split; [reflexivity|]. split; [cbn; lia|]. left. eexists. reflexivity.
  - split; [reflexivity|]. split; [|right; eexists _, _; reflexivity].
    cbn [scaled cond_Zopp]. apply valid_canon in V. destruct V as [(_ & C & _) _].
    pose proof (pow2_pos (e + 149) ltac:(lia)). lia.
Qed.

Lemma feq_nonneg x y : feq x y -> nonneg_number y = true -> nonneg_number x = true.
Proof.
  intros [->|[Hx Hy]] H; [exact H|]. destruct x; try discriminate. reflexivity.
Qed.

Lemma scaled_mono_of_leb x y :
  nonneg_number x = true -> nonneg_number y = true ->
  SFleb x y = true -> scaled x <= scaled y.
Proof.
  intros Hx Hy. apply nonneg_number_inv in Hx, Hy.
  destruct Hx as (Vx & Fx & _), Hy as (Vy & Fy & _).
  apply leb_scaled; assumption.
Qed.

Lemma sub_stage (x lo : float32) :
  valid x = true -> valid lo = true ->
  F32.is_finite x = true -> F32.is_finite lo = true ->
  F32.leb lo x = true ->
  0 <= scaled x - scaled lo
  /\ feq (F32.sub x lo) (round_frac false (scaled x - scaled lo) 1).
Proof.
  intros Vx Vl Fx Fl Hle.
  apply (leb_scaled lo x Vl Vx Fl Fx) in Hle.
  split; [lia|].
  destruct (sub_spec x lo Vx Vl Fx Fl Hle) as [[E (s & Hs)]|[L Hs]].
  - unfold F32.sub, F32.prec, F32.emax. rewrite Hs, E, Z.sub_diag, round_frac_zero by lia.
    right. split; reflexivity.
  - unfold F32.sub, F32.prec, F32.emax. rewrite Hs. left. reflexivity.
Qed.

Lemma div_stage (u d : float32) :
  nonneg_number u = true -> nonneg_number d = true -> F32.is_zero d = false ->
  feq (F32.div u d) (round_frac false (scaled u * 2 ^ 149) (scaled d)).
Proof.
  intros Hu Hd Hz.
  apply nonneg_number_inv in Hu, Hd.
  destruct Hu as (Vu & _ & _ & [[s ->]|(m & e & ->)]);
    destruct Hd as (Vd & _ & _ & [[s' ->]|(md & ed & ->)]); try discriminate.
  - cbn [scaled]. rewrite Z.mul_0_l, round_frac_zero.
    + right. split; reflexivity.
    + apply valid_canon in Vd. destruct Vd as [(_ & C & _) _].
      pose proof (pow2_pos (ed + 149) ltac:(lia)). cbn [cond_Zopp]. lia.
  - pose proof Vu as Cu. apply valid_canon in Cu. destruct Cu as [(_ & Cu & _) _].
    pose proof Vd as Cd. apply valid_canon in Cd. destruct Cd as [(_ & Cd & _) _].
    left. cbn [scaled cond_Zopp]. apply div_spec; assumption.
Qed.

Lemma mul_stage (q : float32) :
  nonneg_number q = true ->
  feq (F32.mul q c255) (round_frac false (255 * scaled q) 1).
Proof.
  intros Hq. apply nonneg_number_inv in Hq.
  destruct Hq as (Vq & _ & _ & [[s ->]|(m & e & ->)]).
  - cbn [scaled]. rewrite Z.mul_0_r, round_frac_zero by lia.
    right. split; [destruct s|]; reflexivity.
  - left. cbn [scaled cond_Zopp]. apply mul_255_spec. exact Vq.
Qed.

Lemma round_frac_scaled_mono (N1 N2 D : Z) :
  0 <= N1 <= N2 -> 0 < D ->
  nonneg_number (round_frac false N2 D) = true ->
  nonneg_number (round_frac false N1 D) = true
  /\ scaled (round_frac false N1 D) <= scaled (round_frac false N2 D).
Proof.
  intros HN HD H2.
  pose proof (round_frac_mono N1 N2 D HN HD) as Hle.
  assert (H1 : nonneg_number (round_frac false N1 D) = true).
  { apply round_frac_below with (round_frac false N2 D); try lia; [|exact Hle].
    apply nonneg_number_inv in H2. tauto. }
  split; [exact H1|]. apply scaled_mono_of_leb; assumption.
Qed.

Lemma trunc_scaled (p : float32) :
  nonneg_number p = true -> F32.trunc p = Some (scaled p / 2 ^ 149).
Proof.
  intros Hp. apply nonneg_number_inv in Hp.
  destruct Hp as (V & _ & _ & [[s ->]|(m & e & ->)]); [reflexivity|].
  apply valid_canon in V. destruct V as [(_ & C & _) _].
  cbn [F32.trunc scaled cond_Zopp]. f_equal.
  destruct (Z_le_gt_dec 0 e) as [He|He].
  - rewrite Z.shiftl_mul_pow2 by lia.
    rewrite <- (pow2_add e 149) by lia. rewrite Z.mul_assoc.
    rewrite Z.div_mul by (pose proof (pow2_pos 149 ltac:(lia)); lia). reflexivity.
  - rewrite Z.shiftl_div_pow2 by lia.
    replace (2 ^ 149) with (2 ^ (- e) * 2 ^ (e + 149)) by (rewrite pow2_add by lia; f_equal; lia).
    rewrite Z.div_mul_cancel_r; [reflexivity| |];
      [pose proof (pow2_pos (- e) ltac:(lia))|pose proof (pow2_pos (e + 149) ltac:(lia))]; lia.
Qed.

Lemma to_uint8_number (p : float32) :
  nonneg_number p = true -> scaled p <= 255 * 2 ^ 149 ->
  to_uint8 invalid_cast p = scaled p / 2 ^ 149
  /\ 0 <= scaled p / 2 ^ 149 <= 255.
Proof.
  intros Hp Hb. unfold to_uint8. rewrite (trunc_scaled p Hp).
  apply nonneg_number_inv in Hp. destruct Hp as (_ & _ & H0 & _).
  pose proof (pow2_pos 149 ltac:(lia)) as P.
  assert (R : 0 <= scaled p / 2 ^ 149 <= 255).
  { split; [apply Z.div_pos; lia|]. apply Z.div_le_upper_bound; lia. }
  split; [|exact R].
  destruct (Z.leb_spec 0 (scaled p / 2 ^ 149)), (Z.leb_spec (scaled p / 2 ^ 149) 255);
    try lia. reflexivity.
Qed.

(** The three roundings of [normalize] for numbers [lo <= v <= hi] whose
    range [hi - lo] is a nonzero number. *)
Lemma normalize_chain (lo hi v : float32) :
  valid lo = true -> valid hi = true -> valid v = true ->
  F32.is_finite lo = true -> F32.is_finite hi = true -> F32.is_finite v = true ->
  F32.leb lo v = true -> F32.leb v hi = true ->
  F32.is_finite_nonzero (F32.sub hi lo) = true ->
  let d := F32.sub hi lo in
  let u := F32.sub v lo in
  let q := F32.div u d in
  let p := normalize lo hi v in
  nonneg_number d = true /\ 0 < scaled d
  /\ feq u (round_frac false (scaled v - scaled lo) 1)
  /\ nonneg_number (round_frac false (scaled v - scaled lo) 1) = true
  /\ feq q (round_frac false (scaled u * 2 ^ 149) (scaled d))
  /\ nonneg_number (round_frac false (scaled u * 2 ^ 149) (scaled d)) = true
  /\ feq p (round_frac false (255 * scaled q) 1)
  /\ nonneg_number (round_frac false (255 * scaled q) 1) = true
  /\ scaled p <= 255 * 2 ^ 149.
Proof.
  intros Vl Vh Vv Fl Fh Fv Hlv Hvh Hd d u q p.
  assert (Hlh : F32.leb lo hi = true) by (apply leb_trans with v; assumption).
  destruct (sub_stage hi lo Vh Vl Fh Fl Hlh) as [Nd Ed].
  destruct (sub_stage v lo Vv Vl Fv Fl Hlv) as [Nv Eu].
  fold d in Ed, Hd. fold u in Eu.
  assert (Hvh' : scaled v <= scaled hi) by (apply (leb_scaled v hi); assumption).
  (* the range *)
  assert (Nd1 : 1 <= scaled hi - scaled lo).
  { destruct (Z.eq_dec (scaled hi - scaled lo) 0) as [E|E]; [|lia].
    rewrite E, round_frac_zero in Ed by lia.
    destruct Ed as [Ed|[Ed _]]; [rewrite Ed in Hd; discriminate|].
    destruct d; discriminate. }
  assert (Ed' : d = round_frac false (scaled hi - scaled lo) 1).
  { apply feq_nonzero; [exact Ed|]. apply round_frac_nonzero; lia. }
  assert (Hdn : nonneg_number d = true).
  { destruct (round_frac_cases (scaled hi - scaled lo) 1 ltac:(lia) ltac:(lia))
      as [V [E|[(m & e & E)|E]]]; rewrite <- Ed' in *; rewrite E in *; try discriminate.
    unfold nonneg_number. rewrite V. reflexivity. }
  assert (Hdz : F32.is_zero d = false) by (destruct d; try discriminate; reflexivity).
  assert (Hdpos : 0 < scaled d).
  { apply nonneg_number_inv in Hdn. destruct Hdn as (V & _ & _ & [[s E]|(m & e & E)]);
      rewrite E in *; [discriminate|].
    apply valid_canon in V. destruct V as [(_ & C & _) _].
    pose proof (pow2_pos (e + 149) ltac:(lia)). cbn [scaled cond_Zopp]. lia. }
  (* the difference *)
  destruct (round_frac_scaled_mono (scaled v - scaled lo) (scaled hi - scaled lo) 1)
    as [HU LU]; [lia|lia|rewrite <- Ed'; exact Hdn|].
  rewrite <- Ed' in LU.
  assert (Hun : nonneg_number u = true) by (apply (feq_nonneg _ _ Eu HU)).
  assert (Su : scaled u = scaled (round_frac false (scaled v - scaled lo) 1))
    by (apply feq_scaled; exact Eu).
  (* the quotient *)
  pose proof (div_stage u d Hun Hdn Hdz) as Eq. fold q in Eq.
  pose proof (div_stage d d Hdn Hdn Hdz) as E1.
  rewrite (div_same d Hd) in E1.
  pose proof (pow2_pos 149 ltac:(lia)) as P149.
  assert (E1' : f_one = round_frac false (scaled d * 2 ^ 149) (scaled d)).
  { apply feq_nonzero; [exact E1|]. apply round_frac_nonzero; nia. }
  destruct (round_frac_scaled_mono (scaled u * 2 ^ 149) (scaled d * 2 ^ 149) (scaled d))
    as [HQ LQ]; [apply nonneg_number_inv in Hun; nia|lia|rewrite <- E1'; reflexivity|].
  rewrite <- E1' in LQ.
  assert (Hqn : nonneg_number q = true) by (apply (feq_nonneg _ _ Eq HQ)).
  assert (Sq : scaled q = scaled (round_frac false (scaled u * 2 ^ 149) (scaled d)))
    by (apply feq_scaled; exact Eq).
  (* the product *)
  pose proof (mul_stage q Hqn) as Ep.
  change (F32.mul q c255) with p in Ep.
  pose proof (mul_stage f_one eq_refl) as E2.
  unfold f_one in E2 at 1. rewrite mul_one_c255 in E2.
  assert (E2' : c255 = round_frac false (255 * scaled f_one) 1).
  { apply feq_nonzero; [exact E2|]. apply round_frac_nonzero; [lia|].
    change (scaled f_one) with (8388608 * 2 ^ 126). 
    pose proof (pow2_pos 126 ltac:(lia)). lia. }
  destruct (round_frac_scaled_mono (255 * scaled q) (255 * scaled f_one) 1)
    as [HP LP]; [apply nonneg_number_inv in Hqn; lia|lia|rewrite <- E2'; reflexivity|].
  rewrite <- E2' in LP.
  assert (Hpn : nonneg_number p = true) by (apply (feq_nonneg _ _ Ep HP)).
  assert (Sp : scaled p = scaled (round_frac false (255 * scaled q) 1))
    by (apply feq_scaled; exact Ep).
  repeat split; try assumption.
  rewrite Sp. change (255 * 2 ^ 149) with (scaled c255). exact LP.
Qed.

Lemma feq_sym x y : feq x y -> feq y x.
Proof. intros [->|[H1 H2]]; [left; reflexivity|right; split; assumption]. Qed.

(** the pixel of a number in the main case *)
Lemma normalize_pixel (lo hi v : float32) :
  valid lo = true -> valid hi = true -> valid v = true ->
  F32.is_finite lo = true -> F32.is_finite hi = true -> F32.is_finite v = true ->
  F32.leb lo v = true -> F32.leb v hi = true ->
  F32.is_finite_nonzero (F32.sub hi lo) = true ->
  F32.trunc (normalize lo hi v) = Some (to_uint8' (normalize lo hi v))
  /\ to_uint8' (normalize lo hi v) = scaled (normalize lo hi v) / 2 ^ 149
  /\ 0 <= to_uint8' (normalize lo hi v) <= 255.
Proof.
  intros Vl Vh Vv Fl Fh Fv Hlv Hvh Hd.
  destruct (normalize_chain lo hi v Vl Vh Vv Fl Fh Fv Hlv Hvh Hd)
    as (_ & _ & _ & _ & _ & _ & Ep & HP & Bp).
  pose proof (feq_nonneg _ _ Ep HP) as Hp.
  destruct (to_uint8_number _ Hp Bp) as [E R].
  rewrite (trunc_scaled _ Hp), E. repeat split; lia.
Qed.

Lemma normalize_mono_main (lo hi v1 v2 : float32) :
  valid lo = true -> valid hi = true -> valid v1 = true -> valid v2 = true ->
  F32.is_finite lo = true -> F32.is_finite hi = true ->
  F32.is_finite v1 = true -> F32.is_finite v2 = true ->
  F32.leb lo v1 = true -> F32.leb v1 v2 = true -> F32.leb v2 hi = true ->
  F32.is_finite_nonzero (F32.sub hi lo) = true ->
  to_uint8' (normalize lo hi v1) <= to_uint8' (normalize lo hi v2).
Proof.
  intros Vl Vh V1 V2 Fl Fh F1 F2 H1 H12 H2 Hd.
  assert (Hl2 : F32.leb lo v2 = true) by (apply leb_trans with v1; assumption).
  assert (H1h : F32.leb v1 hi = true) by (apply leb_trans with v2; assumption).
  destruct (normalize_chain lo hi v1 Vl Vh V1 Fl Fh F1 H1 H1h Hd)
    as (Hdn & Hdp & Eu1 & HU1 & Eq1 & HQ1 & Ep1 & HP1 & B1).
  destruct (normalize_chain lo hi v2 Vl Vh V2 Fl Fh F2 Hl2 H2 Hd)
    as (_ & _ & Eu2 & HU2 & Eq2 & HQ2 & Ep2 & HP2 & B2).
  destruct (normalize_pixel lo hi v1 Vl Vh V1 Fl Fh F1 H1 H1h Hd) as (_ & -> & _).
  destruct (normalize_pixel lo hi v2 Vl Vh V2 Fl Fh F2 Hl2 H2 Hd) as (_ & -> & _).
  pose proof (pow2_pos 149 ltac:(lia)) as P.
  apply Z.div_le_mono; [lia|].
  cbv zeta in *.
  set (d := F32.sub hi lo) in *.
  set (u1 := F32.sub v1 lo) in *. set (u2 := F32.sub v2 lo) in *.
  set (q1 := F32.div u1 d) in *. set (q2 := F32.div u2 d) in *.
  assert (S12 : scaled v1 <= scaled v2) by (apply (leb_scaled v1 v2); assumption).
  assert (Sl1 : scaled lo <= scaled v1) by (apply (leb_scaled lo v1); assumption).
  assert (Su : scaled u1 <= scaled u2).
  { rewrite (feq_scaled _ _ Eu1), (feq_scaled _ _ Eu2).
    apply round_frac_scaled_mono; [lia|lia|exact HU2]. }
  assert (Su0 : 0 <= scaled u1).
  { pose proof (feq_nonneg _ _ Eu1 HU1) as Hn. apply nonneg_number_inv in Hn. tauto. }
  assert (Sq : scaled q1 <= scaled q2).
  { rewrite (feq_scaled _ _ Eq1), (feq_scaled _ _ Eq2).
    apply round_frac_scaled_mono; [nia|lia|exact HQ2]. }
  assert (Sq0 : 0 <= scaled q1).
  { pose proof (feq_nonneg _ _ Eq1 HQ1) as Hn. apply nonneg_number_inv in Hn. tauto. }
  change (F32.mul q1 c255) with (normalize lo hi v1) in *.
  rewrite (feq_scaled _ _ Ep1), (feq_scaled _ _ Ep2).
  apply round_frac_scaled_mono; [lia|lia|exact HP2].
Qed.

(** ** degenerate ranges *)

Lemma normalize_nan_range (lo hi v : float32) :
  F32.sub hi lo = S754_nan -> normalize lo hi v = S754_nan.
Proof.
  intros H. unfold normalize. rewrite H.
  destruct (F32.sub v lo); reflexivity.
Qed.

Lemma normalize_nan_diff (lo hi v : float32) :
  F32.sub v lo = S754_nan -> normalize lo hi v = S754_nan.
Proof. intros H. unfold normalize. rewrite H. reflexivity. Qed.

Lemma normalize_zero_range (lo hi v : float32) (s : bool) :
  F32.sub hi lo = S754_zero s -> F32.is_zero (F32.sub v lo) = true ->
  normalize lo hi v = S754_nan.
Proof.
  intros H Hu. unfold normalize. rewrite H.
  destruct (F32.sub v lo); try discriminate. reflexivity.
Qed.

Lemma normalize_inf_range (lo hi v : float32) :
  F32.sub hi lo = S754_infinity false ->
  (F32.is_finite (F32.sub v lo) = true /\ to_uint8' (normalize lo hi v) = 0)
  \/ (F32.is_finite (F32.sub v lo) = false /\ normalize lo hi v = S754_nan).
Proof.
  intros H. unfold normalize. rewrite H.
  destruct (F32.sub v lo) as [s|s| |s m e].
  - left. split; [reflexivity|]. destruct s; reflexivity.
  - right. split; reflexivity.
  - right. split; reflexivity.
  - left. split; [reflexivity|]. destruct s; reflexivity.
Qed.

(** an infinite minimum makes every normalised value NaN *)
Lemma normalize_inf_lo (s : bool) (hi v : float32) :
  F32.is_nan v = false -> F32.is_nan hi = false ->
  F32.leb (S754_infinity s) v = true ->
  normalize (S754_infinity s) hi v = S754_nan.
Proof.
  intros Nv Nh Hle.
  destruct s.
  - destruct v as [sv|[]| |sv mv ev], hi as [sh|[]| |sh mh eh];
      try discriminate; reflexivity.
  - destruct v as [sv|[]| |sv mv ev]; try discriminate.
    apply normalize_nan_diff. reflexivity.
Qed.

Lemma between_finite (lo hi v : float32) :
  F32.is_finite lo = true -> F32.is_finite hi = true ->
  F32.leb lo v = true -> F32.leb v hi = true -> F32.is_finite v = true.
Proof.
  intros Fl Fh H1 H2.
  destruct v as [sv|[]| |sv mv ev]; try reflexivity.
  - destruct lo as [?|?| |[] ? ?]; discriminate.
  - destruct hi as [?|?| |[] ? ?]; discriminate.
  - destruct lo; discriminate.
Qed.

Lemma leb_inf_l (x : float32) :
  F32.leb (S754_infinity false) x = true -> x = S754_infinity false.
Proof. destruct x as [?|[]| |[] ? ?]; try discriminate. reflexivity. Qed.

(** quantization is monotone, whatever the samples (NaN apart) *)
Lemma normalize_mono (lo hi v1 v2 : float32) :
  valid lo = true -> valid hi = true -> valid v1 = true -> valid v2 = true ->
  F32.leb lo v1 = true -> F32.leb v1 v2 = true -> F32.leb v2 hi = true ->
  to_uint8' (normalize lo hi v1) <= to_uint8' (normalize lo hi v2).
Proof.
  intros Vl Vh V1 V2 H1 H12 H2.
  assert (Hl2 : F32.leb lo v2 = true) by (apply leb_trans with v1; assumption).
  assert (H1h : F32.leb v1 hi = true) by (apply leb_trans with v2; assumption).
  destruct (leb_not_nan _ _ H1) as [Nl N1]. destruct (leb_not_nan _ _ H2) as [N2 Nh].
  destruct (F32.is_finite lo) eqn:Fl.
  2:{ (* an infinite minimum *)
      destruct lo as [?|s| |? ? ?]; try discriminate.
      rewrite !normalize_inf_lo by assumption. lia. }
  pose proof (to_uint8_range (normalize lo hi v2)) as R2.
  (* what the differences are when the range is infinite *)
  assert (Hinf : F32.sub hi lo = S754_infinity false ->
                 to_uint8' (normalize lo hi v1) <= to_uint8' (normalize lo hi v2)).
  { intros Hd.
    destruct (normalize_inf_range lo hi v1 Hd) as [[_ ->]|[U1 E1]]; [lia|].
    destruct (normalize_inf_range lo hi v2 Hd) as [[U2 _]|[_ E2]];
      [|rewrite E1, E2; lia].
    exfalso.
    destruct (F32.is_finite v2) eqn:F2.
    - assert (F1 : F32.is_finite v1 = true) by (apply (between_finite lo v2); assumption).
      destruct (sub_stage v1 lo V1 Vl F1 Fl H1) as [N1' E1'].
      destruct (sub_stage v2 lo V2 Vl F2 Fl Hl2) as [N2' E2'].
      assert (S12 : scaled v1 <= scaled v2) by (apply (leb_scaled v1 v2); assumption).
      pose proof (round_frac_mono (scaled v1 - scaled lo) (scaled v2 - scaled lo) 1
                    ltac:(lia) ltac:(lia)) as Hm.
      destruct (round_frac_cases (scaled v1 - scaled lo) 1 ltac:(lia) ltac:(lia))
        as [_ [Z1|[(m & e & Z1)|Z1]]].
      + rewrite Z1 in E1'. apply feq_sym, feq_zero_l in E1'. destruct E1' as [s' E1'].
        rewrite E1' in U1. discriminate.
      + rewrite Z1 in E1'. apply feq_nonzero in E1'; [|reflexivity].
        rewrite E1' in U1. discriminate.
      + rewrite Z1 in Hm. apply leb_inf_l in Hm. rewrite Hm in E2'.
        apply feq_nonzero in E2'; [|reflexivity]. rewrite E2' in U2. discriminate.
    - destruct v2 as [?|[]| |? ? ?]; try discriminate.
      + destruct lo; discriminate.
      + destruct lo; discriminate. }
  assert (Hlh : F32.leb lo hi = true) by (apply leb_trans with v1; assumption).
  destruct (F32.is_finite hi) eqn:Fh.
  2:{ destruct hi as [?|[]| |? ? ?]; try discriminate.
      - destruct lo as [?|?| |[] ? ?]; discriminate.
      - apply Hinf. destruct lo; try discriminate; reflexivity. }
  assert (F1 : F32.is_finite v1 = true) by (apply (between_finite lo hi); assumption).
  assert (F2 : F32.is_finite v2 = true) by (apply (between_finite lo hi); assumption).
  destruct (sub_stage hi lo Vh Vl Fh Fl Hlh) as [Nd Ed].
  destruct (F32.sub hi lo) as [sd|sd| |sd md ed] eqn:Ed0.
  - (* all samples equal *)
    assert (E0 : scaled hi - scaled lo = 0).
    { destruct (Z.eq_dec (scaled hi - scaled lo) 0) as [E|E]; [exact E|].
      pose proof (round_frac_nonzero (scaled hi - scaled lo) 1 ltac:(lia) ltac:(lia)) as Hz.
      apply feq_nonzero in Ed; [|exact Hz]. rewrite <- Ed in Hz. discriminate. }
    assert (Hz : forall v, valid v = true -> F32.is_finite v = true ->
                   F32.leb lo v = true -> F32.leb v hi = true ->
                   normalize lo hi v = S754_nan).
    { intros v Vv Fv Hlv Hvh. apply (normalize_zero_range lo hi v sd Ed0).
      destruct (sub_stage v lo Vv Vl Fv Fl Hlv) as [Nv Ev].
      assert (scaled v <= scaled hi) by (apply (leb_scaled v hi); assumption).
      replace (scaled v - scaled lo) with 0 in Ev by lia.
      rewrite round_frac_zero in Ev by lia.
      apply feq_sym, feq_zero_l in Ev. destruct Ev as [s' ->]. reflexivity. }
    rewrite !Hz by assumption. lia.
  - (* the range overflows *)
    destruct sd.
    + destruct (round_frac_cases (scaled hi - scaled lo) 1 ltac:(lia) ltac:(lia))
        as [_ [Z1|[(m & e & Z1)|Z1]]]; rewrite Z1 in Ed;
        destruct Ed as [Ed|[Ed _]]; discriminate.
    + apply Hinf. reflexivity.
  - rewrite !normalize_nan_range by assumption. lia.
  - rewrite <- Ed0 in *. apply normalize_mono_main; try assumption.
    rewrite Ed0. reflexivity.
Qed.

End QuantizationFacts.

(** ** The sample inputs *)

Section SampleInputFacts.

Lemma float32_items_app : forall (a : list byte) (xs : list float32) (b : list byte),
  float32_items a = Some xs ->
  float32_items (a ++ b)
  = match float32_items b with
    | Some ys => Some (xs ++ ys)
    | None => None
    end.
Proof.
  fix IH 1. intros a xs b H.
  destruct a as [|b0 [|b1 [|b2 [|b3 rest]]]]; cbn [float32_items] in H; try discriminate.
  - injection H as <-. cbn [app]. destruct (float32_items b); reflexivity.
  - destruct (float32_items rest) as [ys|] eqn:E; [|discriminate].
    injection H as <-. cbn [app float32_items].
    rewrite (IH rest ys b E). destruct (float32_items b); reflexivity.
Qed.

Lemma float32_items_repeat (word : list byte) (fs : list float32) (n : nat) :
  float32_items word = Some fs ->
  float32_items (List.concat (repeat word n)) = Some (List.concat (repeat fs n)).
Proof.
  intros H. induction n as [|n IH]; [reflexivity|].
  cbn [repeat List.concat]. rewrite (float32_items_app word fs _ H), IH. reflexivity.
Qed.

Lemma samples_of_items (input_bin : list byte) (xs : list float32) :
  (List.length input_bin <= 3 * 128 * 128 * 4)%nat ->
  float32_items input_bin = Some xs ->
  samples input_bin = xs.
Proof.
  intros Hlen H. unfold samples. rewrite firstn_all2 by exact Hlen.
  rewrite H. reflexivity.
Qed.

Lemma zero_word_items : float32_items zero_word = Some [S754_zero false].
Proof. reflexivity. Qed.

Lemma input_ramp_size : List.length input_ramp = (3 * 128 * 128 * 4)%nat.
Proof. apply Nat.eqb_eq. vm_compute. reflexivity. Qed.

Lemma input_overflow_size : List.length input_overflow = (3 * 128 * 128 * 4)%nat.
Proof. apply Nat.eqb_eq. vm_compute. reflexivity. Qed.

Lemma input_zeros_size : List.length input_zeros = (3 * 128 * 128 * 4)%nat.
Proof. apply Nat.eqb_eq. vm_compute. reflexivity. Qed.

Lemma input_ramp_length : (3 * 128 * 128 * 4 <= List.length input_ramp)%nat.
Proof. rewrite input_ramp_size. apply le_n. Qed.

Lemma input_overflow_length : (3 * 128 * 128 * 4 <= List.length input_overflow)%nat.
Proof. rewrite input_overflow_size. apply le_n. Qed.

Lemma input_zeros_length : (3 * 128 * 128 * 4 <= List.length input_zeros)%nat.
Proof. rewrite input_zeros_size. apply le_n. Qed.

Lemma samples_input_ramp :
  samples input_ramp = List.concat (repeat ramp_floats (128 * 128)).
Proof.
  apply samples_of_items; [rewrite input_ramp_size; apply le_n|].
  apply float32_items_repeat. reflexivity.
Qed.

Lemma samples_input_zeros :
  samples input_zeros = List.concat (repeat [S754_zero false] (3 * 128 * 128)).
Proof.
  apply samples_of_items; [rewrite input_zeros_size; apply le_n|].
  apply float32_items_repeat. reflexivity.
Qed.

Lemma samples_input_overflow :
  samples input_overflow
  = [S754_finite false 16777215 104; S754_finite true 16777215 104]
    ++ List.concat (repeat [S754_zero false] (3 * 128 * 128 - 2)).
Proof.
  apply samples_of_items; [rewrite input_overflow_size; apply le_n|].
  unfold input_overflow.
  rewrite (float32_items_app [xff; xff; x7f; x7f; xff; xff; x7f; xff]
             [S754_finite false 16777215 104; S754_finite true 16777215 104]
             _ eq_refl).
  rewrite (float32_items_repeat zero_word [S754_zero false] (3 * 128 * 128 - 2)
             zero_word_items).
  reflexivity.
Qed.

Lemma input_ramp_finite : forallb F32.is_finite (samples input_ramp) = true.
Proof. rewrite samples_input_ramp. vm_compute. reflexivity. Qed.

Lemma input_ramp_min :
  reduce fmin (samples input_ramp) = Some (S754_finite true 8388608 (-23)).
Proof. rewrite samples_input_ramp. vm_compute. reflexivity. Qed.

Lemma input_ramp_max :
  reduce fmax (samples input_ramp) = Some (S754_finite false 8388608 (-23)).
Proof. rewrite samples_input_ramp. vm_compute. reflexivity. Qed.

Lemma input_ramp_range : range_is_finite input_ramp = true.
Proof. unfold range_is_finite. rewrite input_ramp_min, input_ramp_max. reflexivity. Qed.

(** Every sample of [input_ramp] is -1.0, +0.0 or 1.0. *)
Lemma input_ramp_values :
  forallb (fun v => F32.eqb v (S754_finite true 8388608 (-23))
                    || F32.eqb v (S754_zero false)
                    || F32.eqb v (S754_finite false 8388608 (-23)))
          (samples input_ramp) = true.
Proof. rewrite samples_input_ramp. vm_compute. reflexivity. Qed.

Lemma input_ramp_no_negative_zero :
  forallb (fun x => match x with S754_zero true => false | _ => true end)
          (samples input_ramp) = true.
Proof. rewrite samples_input_ramp. vm_compute. reflexivity. Qed.

Lemma input_ramp_first :
  sample input_ramp 0 = S754_finite true 8388608 (-23)
  /\ sample input_ramp 1 = S754_zero false
  /\ sample input_ramp 2 = S754_finite false 8388608 (-23).
Proof. unfold sample. rewrite samples_input_ramp. repeat split. Qed.

Lemma input_ramp_not_all_equal : ~ all_equal input_ramp.
Proof.
  intros H. specialize (H 0%Z 1%Z).
  unfold n_samples in H. specialize (H ltac:(lia) ltac:(lia)).
  destruct input_ramp_first as (E0 & E1 & _). rewrite E0, E1 in H.
  discriminate H.
Qed.

Lemma input_overflow_min :
  reduce fmin (samples input_overflow) = Some (S754_finite true 16777215 104).
Proof. rewrite samples_input_overflow. vm_compute. reflexivity. Qed.

Lemma input_overflow_max :
  reduce fmax (samples input_overflow) = Some (S754_finite false 16777215 104).
Proof. rewrite samples_input_overflow. vm_compute. reflexivity. Qed.

Lemma input_overflow_first :
  sample input_overflow 0 = S754_finite false 16777215 104
  /\ sample input_overflow 1 = S754_finite true 16777215 104.
Proof. unfold sample. rewrite samples_input_overflow. split; reflexivity. Qed.

Lemma input_overflow_not_all_equal : ~ all_equal input_overflow.
Proof.
  intros H. specialize (H 0%Z 1%Z).
  unfold n_samples in H. specialize (H ltac:(lia) ltac:(lia)).
  destruct input_overflow_first as (E0 & E1). rewrite E0, E1 in H.
  discriminate H.
Qed.

Lemma input_overflow_upper :
  is_upper_bound (samples input_overflow) (sample input_overflow 0) = true.
Proof.
  destruct input_overflow_first as (-> & _). rewrite samples_input_overflow.
  vm_compute. reflexivity.
Qed.

(** With [3.4028235e38] and [-3.4028235e38] as extremes the range overflows,
    and the normalised maximum is Inf / Inf. *)
Lemma input_overflow_normalized :
  normalize (S754_finite true 16777215 104) (S754_finite false 16777215 104)
            (sample input_overflow 0) = S754_nan.
Proof. destruct input_overflow_first as (-> & _). vm_compute. reflexivity. Qed.

Lemma input_zeros_all_equalb : all_equalb (samples input_zeros) = true.
Proof. rewrite samples_input_zeros. vm_compute. reflexivity. Qed.

Lemma minus_one_word_items :
  float32_items minus_one_word = Some [S754_finite true 8388608 (-23)].
Proof. reflexivity. Qed.

Lemma one_word_items :
  float32_items one_word = Some [S754_finite false 8388608 (-23)].
Proof. reflexivity. Qed.

Lemma concat_repeat_singleton {A : Type} (x : A) (n : nat) :
  List.concat (repeat [x] n) = repeat x n.
Proof. induction n as [|n IH]; [reflexivity|]. cbn [repeat List.concat app]. rewrite IH. reflexivity. Qed.

Lemma input_planes_size : List.length input_planes = (3 * 128 * 128 * 4)%nat.
Proof. apply Nat.eqb_eq. vm_compute. reflexivity. Qed.

Lemma input_planes_length : (3 * 128 * 128 * 4 <= List.length input_planes)%nat.
Proof. rewrite input_planes_size. apply le_n. Qed.

Lemma samples_input_planes :
  samples input_planes
  = repeat (S754_finite true 8388608 (-23)) (128 * 128)
    ++ repeat (S754_zero false) (128 * 128)
    ++ repeat (S754_finite false 8388608 (-23)) (128 * 128).
Proof.
  apply samples_of_items; [rewrite input_planes_size; apply le_n|].
  unfold input_planes.
  rewrite (float32_items_app
             (List.concat (repeat minus_one_word (128 * 128)))
             (List.concat (repeat [S754_finite true 8388608 (-23)] (128 * 128)))
             (List.concat (repeat zero_word (128 * 128))
              ++ List.concat (repeat one_word (128 * 128)))
             (float32_items_repeat minus_one_word [S754_finite true 8388608 (-23)]
                (128 * 128) minus_one_word_items)).
  rewrite (float32_items_app
             (List.concat (repeat zero_word (128 * 128)))
             (List.concat (repeat [S754_zero false] (128 * 128)))
             (List.concat (repeat one_word (128 * 128)))
             (float32_items_repeat zero_word [S754_zero false] (128 * 128)
                zero_word_items)).
  rewrite (float32_items_repeat one_word [S754_finite false 8388608 (-23)]
             (128 * 128) one_word_items).
  rewrite !concat_repeat_singleton. reflexivity.
Qed.

Lemma input_planes_min :
  reduce fmin (samples input_planes) = Some (S754_finite true 8388608 (-23)).
Proof. rewrite samples_input_planes. vm_compute. reflexivity. Qed.

Lemma input_planes_max :
  reduce fmax (samples input_planes) = Some (S754_finite false 8388608 (-23)).
Proof. rewrite samples_input_planes. vm_compute. reflexivity. Qed.

Lemma plane_count : Z.of_nat (128 * 128) = 16384%Z.
Proof. vm_compute. reflexivity. Qed.

(** Plane [k] of [input_planes] holds -1.0, 0.0 or 1.0 throughout. *)
Lemma input_planes_sample (k i : Z) :
  (0 <= k < 3)%Z -> (0 <= i < 16384)%Z ->
  sample input_planes (k * 16384 + i) = nth (Z.to_nat k) ramp_floats S754_nan.
Proof.
  intros Hk Hi. unfold sample, item. rewrite samples_input_planes.
  pose proof plane_count as Hn.
  remember (128 * 128) as n eqn:En. clear En.
  assert (Hin : forall (x d : float32) (j : nat), j < n -> nth j (repeat x n) d = x).
  { intros x d j Hj. apply (repeat_spec n). apply nth_In. rewrite repeat_length. exact Hj. }
  assert (Hj : Z.to_nat i < n) by lia.
  assert (Hc : k = 0%Z \/ k = 1%Z \/ k = 2%Z) by lia.
  destruct Hc as [-> | [-> | ->]].
  - replace (Z.to_nat (0 * 16384 + i)) with (Z.to_nat i) by lia.
    rewrite app_nth1 by (rewrite repeat_length; exact Hj).
    rewrite Hin by exact Hj. reflexivity.
  - replace (Z.to_nat (1 * 16384 + i)) with (n + Z.to_nat i) by lia.
    rewrite app_nth2 by (rewrite repeat_length; lia).
    rewrite repeat_length. replace (n + Z.to_nat i - n) with (Z.to_nat i) by lia.
    rewrite app_nth1 by (rewrite repeat_length; exact Hj).
    rewrite Hin by exact Hj. reflexivity.
  - replace (Z.to_nat (2 * 16384 + i)) with (n + (n + Z.to_nat i)) by lia.
    rewrite app_nth2 by (rewrite repeat_length; lia).
    rewrite repeat_length. replace (n + (n + Z.to_nat i) - n) with (n + Z.to_nat i) by lia.
    rewrite app_nth2 by (rewrite repeat_length; lia).
    rewrite repeat_length. replace (n + Z.to_nat i - n) with (Z.to_nat i) by lia.
    rewrite Hin by exact Hj. reflexivity.
Qed.

End SampleInputFacts.

Section ConverterFacts.

Variable invalid_cast : float32 -> Z.
Variable encode : string -> image -> save_plan.
Variable writable : string -> option open_failure.
Variable same_file : string -> string -> bool.

Local Abbreviation to_uint8' := (to_uint8 invalid_cast).
Local Abbreviation convert' := (convert invalid_cast).
Local Abbreviation save' := (save encode writable same_file).
Local Abbreviation main' := (main invalid_cast encode writable same_file).

Lemma item_map {A B : Type} (f : A -> B) (dA : A) (dB : B) (l : list A) (o : Z) :
  (0 <= o < Z.of_nat (List.length l))%Z ->
  item dB (map f l) o = f (item dA l o).
Proof.
  intros Ho. unfold item.
  rewrite nth_indep with (d' := f dA) by (rewrite length_map; lia).
  apply map_nth.
Qed.

Lemma sample_count : Z.of_nat (3 * 128 * 128) = 49152%Z.
Proof. vm_compute. reflexivity. Qed.

(** An input with at least [3 * 128 * 128 * 4] bytes yields its tensor. *)
Lemma input_tensor_ok (input_bin : list byte) :
  3 * 128 * 128 * 4 <= List.length input_bin ->
  exists xs,
    float32_items (firstn (3 * 128 * 128 * 4) input_bin) = Some xs
    /\ List.length xs = 3 * 128 * 128
    /\ input_tensor input_bin
       = inr (mkArray xs [3; 128; 128]%Z [16384; 128; 1]%Z).
Proof.
  intros Hlen.
  destruct (float32_items_length (3 * 128 * 128)
              (firstn (3 * 128 * 128 * 4) input_bin)) as (xs & Hxs & Hn).
  { rewrite firstn_length_le by assumption. lia. }
  exists xs. split; [assumption|]. split; [assumption|].
  unfold input_tensor, frombuffer. rewrite Hxs. unfold rbind, reshape, size.
  cbn [data]. rewrite Hn, sample_count. reflexivity.
Qed.

Lemma fold_fmin_nonempty (xs : list float32) :
  List.length xs = 3 * 128 * 128 ->
  exists x rest, xs = x :: rest.
Proof.
  destruct xs as [|x rest]; intros H; [cbn [List.length] in H; lia|].
  exists x, rest. reflexivity.
Qed.

(** Transposing the cast tensor to (row, column, channel) and reading it in
    C order puts element [a[k][r][c]] at byte [(r * 128 + c) * 3 + k]. *)
Lemma interleaved_item (xs : list float32) (f : float32 -> float32) (r c k : Z) :
  List.length xs = 3 * 128 * 128 ->
  (0 <= r < 128)%Z -> (0 <= c < 128)%Z -> (0 <= k < 3)%Z ->
  let a := mkArray xs [3; 128; 128]%Z [16384; 128; 1]%Z in
  item 0%Z (tobytes 0%Z (transpose (astype_uint8 invalid_cast (amap f a)) [1; 2; 0]))
       ((r * 128 + c) * 3 + k)
  = to_uint8' (f (get S754_nan a [k; r; c])).
Proof.
  intros Hn Hr Hc Hk a.
  unfold tobytes, get, astype_uint8, transpose, amap, a.
  cbn [data shape strides map nth].
  assert (Hin : in_shape [128; 128; 3]%Z [r; c; k]).
  { repeat constructor; lia. }
  replace ((r * 128 + c) * 3 + k)%Z with (ravel [128; 128; 3]%Z [r; c; k])
    by (cbn [ravel product fold_right]; lia).
  pose proof (ravel_bound _ _ Hin) as Hb.
  change (product [128; 128; 3]%Z) with 49152%Z in Hb.
  rewrite item_map with (dA := 0%Z).
  2:{ rewrite c_order_length; [|reflexivity|repeat constructor; lia].
      change (product [128; 128; 3]%Z) with 49152%Z. lia. }
  unfold item at 2.
  rewrite c_order_nth by (reflexivity || assumption).
  cbn [offset_of].
  assert (Ho : (0 <= k * 16384 + (r * 128 + (c * 1 + 0))
                < Z.of_nat (List.length xs))%Z).
  { rewrite Hn, sample_count. lia. }
  replace (0 + (r * 128 + (c * 1 + (k * 16384 + 0))))%Z
    with (k * 16384 + (r * 128 + (c * 1 + 0)))%Z by lia.
  rewrite item_map with (dA := S754_nan) by (rewrite length_map; exact Ho).
  rewrite item_map with (dA := S754_nan) by exact Ho.
  reflexivity.
Qed.

(** The image of a long enough input: 128 x 128, and each channel of each
    pixel is the cast of the normalised tensor element [a[k][r][c]]. *)
Lemma convert_ok (input_bin : list byte) :
  3 * 128 * 128 * 4 <= List.length input_bin ->
  exists a lo hi img,
    input_tensor input_bin = inr a
    /\ shape a = [3; 128; 128]%Z
    /\ strides a = [16384; 128; 1]%Z
    /\ float32_items (firstn (3 * 128 * 128 * 4) input_bin) = Some (data a)
    /\ size a = 49152%Z
    /\ amin a = inr lo
    /\ amax a = inr hi
    /\ convert' input_bin = inr img
    /\ width img = 128%Z
    /\ height img = 128%Z
    /\ forall r c k : Z,
        (0 <= r < 128)%Z -> (0 <= c < 128)%Z -> (0 <= k < 3)%Z ->
        getpixel img r c k
        = to_uint8' (normalize lo hi (get S754_nan a [k; r; c])).
Proof.
  intros Hlen.
  destruct (input_tensor_ok input_bin Hlen) as (xs & Hitems & Hn & Ht).
  destruct (fold_fmin_nonempty xs Hn) as (x & rest & ->).
  exists (mkArray (x :: rest) [3; 128; 128]%Z [16384; 128; 1]%Z),
    (fold_left fmin rest x), (fold_left fmax rest x).
  eexists.
  split; [exact Ht|].
  split; [reflexivity|]. split; [reflexivity|]. split; [exact Hitems|].
  split; [unfold size; cbn [data]; rewrite Hn; apply sample_count|].
  split; [reflexivity|]. split; [reflexivity|].
  split; [unfold convert; rewrite Ht; reflexivity|].
  split; [reflexivity|]. split; [reflexivity|].
  intros r c k Hr Hc Hk.
  unfold getpixel. cbn [width pixels].
  apply interleaved_item; assumption.
Qed.

Lemma samples_ok (input_bin : list byte) :
  3 * 128 * 128 * 4 <= List.length input_bin ->
  float32_items (firstn (3 * 128 * 128 * 4) input_bin) = Some (samples input_bin)
  /\ Z.of_nat (List.length (samples input_bin)) = n_samples.
Proof.
  intros Hlen.
  destruct (input_tensor_ok input_bin Hlen) as (xs & Hitems & Hn & _).
  unfold samples. rewrite Hitems. split; [reflexivity|].
  rewrite Hn. apply sample_count.
Qed.

Lemma sample_in (input_bin : list byte) (i : Z) :
  3 * 128 * 128 * 4 <= List.length input_bin ->
  (0 <= i < n_samples)%Z ->
  In (sample input_bin i) (samples input_bin).
Proof.
  intros Hlen Hi. destruct (samples_ok input_bin Hlen) as [_ Hn].
  unfold n_samples in *. unfold sample, item. apply nth_In. lia.
Qed.

Lemma in_sample (input_bin : list byte) (x : float32) :
  3 * 128 * 128 * 4 <= List.length input_bin ->
  In x (samples input_bin) ->
  exists i, (0 <= i < n_samples)%Z /\ sample input_bin i = x.
Proof.
  intros Hlen Hx. destruct (samples_ok input_bin Hlen) as [_ Hn].
  destruct (In_nth _ _ S754_nan Hx) as (n & Hlt & Hnth).
  unfold n_samples in *. exists (Z.of_nat n). split; [lia|].
  unfold sample, item. rewrite Nat2Z.id. exact Hnth.
Qed.

(** [convert_ok] in terms of the samples of the input. *)
Lemma convert_pixels (input_bin : list byte) :
  3 * 128 * 128 * 4 <= List.length input_bin ->
  exists lo hi img,
    reduce fmin (samples input_bin) = Some lo
    /\ reduce fmax (samples input_bin) = Some hi
    /\ In lo (samples input_bin)
    /\ In hi (samples input_bin)
    /\ convert' input_bin = inr img
    /\ width img = 128%Z
    /\ height img = 128%Z
    /\ forall r c k : Z,
        (0 <= r < 128)%Z -> (0 <= c < 128)%Z -> (0 <= k < 3)%Z ->
        getpixel img r c k
        = to_uint8' (normalize lo hi (sample input_bin (k * 16384 + r * 128 + c))).
Proof.
  intros Hlen.
  destruct (convert_ok input_bin Hlen)
    as (a & lo & hi & img & Ht & Hsh & Hst & Hitems & Hsz & Hlo & Hhi & Hc & Hw & Hh & Hpx).
  assert (Hs : samples input_bin = data a) by (unfold samples; rewrite Hitems; reflexivity).
  unfold amin in Hlo. unfold amax in Hhi.
  destruct (reduce fmin (data a)) as [lo'|] eqn:Elo; [|discriminate].
  destruct (reduce fmax (data a)) as [hi'|] eqn:Ehi; [|discriminate].
  injection Hlo as ->. injection Hhi as ->.
  exists lo, hi, img. rewrite Hs.
  split; [exact Elo|]. split; [exact Ehi|].
  split.
  { unfold reduce in Elo. destruct (data a) as [|x xs]; [discriminate|].
    injection Elo as <-. apply fold_fmin_in. }
  split.
  { unfold reduce in Ehi. destruct (data a) as [|x xs]; [discriminate|].
    injection Ehi as <-. apply fold_fmax_in. }
  split; [exact Hc|]. split; [exact Hw|]. split; [exact Hh|].
  intros r c k Hr Hc' Hk. rewrite (Hpx r c k Hr Hc' Hk).
  unfold get, sample. rewrite Hst, Hs. cbn [offset_of].
  do 3 f_equal. lia.
Qed.

(** Without NaN, the reductions bound every sample. *)
Lemma reduce_bounds (xs : list float32) (lo hi : float32) :
  reduce fmin xs = Some lo -> reduce fmax xs = Some hi -> no_nan xs ->
  forall x, In x xs -> F32.leb lo x = true /\ F32.leb x hi = true.
Proof.
  intros Hlo Hhi Hn x Hx. destruct xs as [|y ys]; [destruct Hx|].
  cbn in Hlo, Hhi. injection Hlo as <-. injection Hhi as <-.
  split; [apply fold_fmin_le|apply fold_fmax_ge]; assumption.
Qed.

(** A too short input makes [frombuffer] or [reshape] raise. *)
Lemma convert_short (input_bin : list byte) :
  List.length input_bin < 3 * 128 * 128 * 4 ->
  exists msg, convert' input_bin = inl (ValueError msg).
Proof.
  intros Hlen. unfold convert, input_tensor, frombuffer.
  rewrite firstn_all2 by lia.
  destruct (float32_items input_bin) as [xs|] eqn:E.
  - apply float32_items_some_length in E.
    unfold rbind, reshape, size. cbn [data].
    replace (Z.of_nat (List.length xs) =? product [3; 128; 128])%Z with false.
    + eexists. reflexivity.
    + symmetry. apply Z.eqb_neq. change (product [3; 128; 128]%Z) with 49152%Z.
      rewrite <- sample_count. lia.
  - eexists. reflexivity.
Qed.

(** A run with both paths given, on an existing input file. *)
Lemma main_run (argv : list string) (w : world) (input_bin : list byte) :
  3 <= List.length argv ->
  files w (nth 1 argv EmptyString) = Some input_bin ->
  main' argv w
  = let input_path := nth 1 argv EmptyString in
    let output_path := nth 2 argv EmptyString in
    let w1 := mkWorld (files w) (stdout w) (trace w ++ [FileRead input_path]) in
    match convert' input_bin with
    | inl e => (w1, inl e)
    | inr img => save' img output_path w1
    end.
Proof.
  intros Hargs Hfile. unfold main.
  destruct (Nat.ltb_spec (List.length argv) 3) as [Hlt|_]; [lia|].
  unfold io_bind, read_binary, io_lift. rewrite Hfile.
  destruct (convert' input_bin) as [e|img]; reflexivity.
Qed.

(** [save], case by case: what it raises and what it leaves. *)
Lemma save_cases (img : image) (path : string) (w : world) :
  save' img path w
  = let opened := mkWorld (files w) (stdout w) (trace w ++ [FileWrite path]) in
    let closed contents :=
      mkWorld (store same_file path contents
                 (store same_file path (Some []) (files w)))
              (stdout w) (trace w ++ [FileWrite path]) in
    match encode path img with
    | UnknownExtension => (w, inl (ValueError "unknown file extension"))
    | NoWriter format => (w, inl (KeyError format))
    | EncoderFails e remains =>
        match writable path with
        | Some f => (opened, inl (open_exn f path))
        | None => (closed (remains (files w path)), inl e)
        end
    | Encodes contents =>
        match writable path with
        | Some f => (opened, inl (open_exn f path))
        | None => (closed (Some contents), inr tt)
        end
    end.
Proof.
  unfold save, io_bind, open_write, put_file, io_raise.
  destruct (encode path img) as [|format|e remains|contents]; try reflexivity;
    destruct (writable path) as [f|]; reflexivity.
Qed.

(** A file written after it was opened: the paths to it see what was
    written, the others what they held. *)
Lemma store_twice (path : string) (c c' : option (list byte))
    (fs : string -> option (list byte)) (p : string) :
  store same_file path c (store same_file path c' fs) p
  = if aliases same_file p path then c else fs p.
Proof. unfold store. destruct (aliases same_file p path); reflexivity. Qed.

Lemma aliases_refl (p : string) : aliases same_file p p = true.
Proof. unfold aliases. rewrite String.eqb_refl. reflexivity. Qed.

(** Equality with the first sample decides [all_equal]. *)
Lemma all_equal_of_first (input_bin : list byte) :
  3 * 128 * 128 * 4 <= List.length input_bin ->
  all_equalb (samples input_bin) = true ->
  all_equal input_bin.
Proof.
  intros Hlen Hall i j Hi Hj.
  pose proof (sample_in input_bin i Hlen Hi) as Ii.
  pose proof (sample_in input_bin j Hlen Hj) as Ij.
  unfold all_equalb in Hall.
  destruct (samples input_bin) as [|x xs]; [destruct Ii|].
  rewrite forallb_forall in Hall.
  pose proof (Hall _ Ii) as Ei. pose proof (Hall _ Ij) as Ej.
  apply leb_antisym.
  - apply leb_trans with x; apply eqb_leb; [|apply eqb_sym]; assumption.
  - apply leb_trans with x; apply eqb_leb; [|apply eqb_sym]; assumption.
Qed.

Lemma holds_minimum_of_bound (input_bin : list byte) (i : Z) :
  3 * 128 * 128 * 4 <= List.length input_bin ->
  is_lower_bound (samples input_bin) (sample input_bin i) = true ->
  holds_minimum input_bin i.
Proof.
  intros Hlen H j Hj. unfold is_lower_bound in H. rewrite forallb_forall in H.
  apply H. apply sample_in; assumption.
Qed.

Lemma holds_maximum_of_bound (input_bin : list byte) (i : Z) :
  3 * 128 * 128 * 4 <= List.length input_bin ->
  is_upper_bound (samples input_bin) (sample input_bin i) = true ->
  holds_maximum input_bin i.
Proof.
  intros Hlen H j Hj. unfold is_upper_bound in H. rewrite forallb_forall in H.
  apply H. apply sample_in; assumption.
Qed.

Lemma samples_valid (input_bin : list byte) (x : float32) :
  3 * 128 * 128 * 4 <= List.length input_bin ->
  In x (samples input_bin) -> valid x = true.
Proof.
  intros Hlen Hx. destruct (samples_ok input_bin Hlen) as [Hitems _].
  exact (float32_items_valid _ _ Hitems x Hx).
Qed.

Lemma finite_no_nan (xs : list float32) :
  forallb F32.is_finite xs = true -> no_nan xs.
Proof.
  intros H x Hx. rewrite forallb_forall in H. specialize (H x Hx).
  destruct x; try discriminate; reflexivity.
Qed.

(** Finite samples that are not all equal have a nonzero range, provided
    the subtraction does not overflow. *)
Lemma range_nonzero (input_bin : list byte) (lo hi : float32) :
  3 * 128 * 128 * 4 <= List.length input_bin ->
  reduce fmin (samples input_bin) = Some lo ->
  reduce fmax (samples input_bin) = Some hi ->
  In lo (samples input_bin) -> In hi (samples input_bin) ->
  forallb F32.is_finite (samples input_bin) = true ->
  ~ all_equal input_bin ->
  F32.is_finite (F32.sub hi lo) = true ->
  F32.is_finite_nonzero (F32.sub hi lo) = true.
Proof.
  intros Hlen Hlo Hhi Ilo Ihi Hfin Hne Hd.
  pose proof (finite_no_nan _ Hfin) as Hnn.
  rewrite forallb_forall in Hfin.
  pose proof (samples_valid input_bin lo Hlen Ilo) as Vl.
  pose proof (samples_valid input_bin hi Hlen Ihi) as Vh.
  destruct (reduce_bounds _ lo hi Hlo Hhi Hnn hi Ihi) as [Hlh _].
  destruct (sub_stage hi lo Vh Vl (Hfin _ Ihi) (Hfin _ Ilo) Hlh) as [Nd Ed].
  destruct (Z.eq_dec (scaled hi - scaled lo) 0) as [E0|E0].
  - exfalso. apply Hne. intros i j Hi Hj.
    pose proof (sample_in input_bin i Hlen Hi) as Ii.
    pose proof (sample_in input_bin j Hlen Hj) as Ij.
    destruct (reduce_bounds _ lo hi Hlo Hhi Hnn _ Ii) as [Li Ui].
    destruct (reduce_bounds _ lo hi Hlo Hhi Hnn _ Ij) as [Lj Uj].
    pose proof (samples_valid input_bin _ Hlen Ii) as Vi.
    pose proof (samples_valid input_bin _ Hlen Ij) as Vj.
    apply (leb_scaled _ _ Vl Vi (Hfin _ Ilo) (Hfin _ Ii)) in Li.
    apply (leb_scaled _ _ Vi Vh (Hfin _ Ii) (Hfin _ Ihi)) in Ui.
    apply (leb_scaled _ _ Vl Vj (Hfin _ Ilo) (Hfin _ Ij)) in Lj.
    apply (leb_scaled _ _ Vj Vh (Hfin _ Ij) (Hfin _ Ihi)) in Uj.
    apply (eqb_scaled _ _ Vi Vj (Hfin _ Ii) (Hfin _ Ij)). lia.
  - pose proof (round_frac_nonzero (scaled hi - scaled lo) 1 ltac:(lia) ltac:(lia)) as Hz.
    apply feq_nonzero in Ed; [|exact Hz]. rewrite <- Ed in Hz.
    destruct (F32.sub hi lo); try discriminate; reflexivity.
Qed.

(** ** The claims *)

(** C1, amended. When the 49152 samples are all finite and not all equal,
    and [maxVal - minVal] does not overflow, the pixel of a sample that
    holds the global minimum is 0 and the pixel of a sample that holds the
    global maximum is 255. *)
Theorem min_max_pixels (input_bin : list byte) :
  3 * 128 * 128 * 4 <= List.length input_bin ->
  forallb F32.is_finite (samples input_bin) = true ->
  ~ all_equal input_bin ->
  range_is_finite input_bin = true ->
  exists img,
    convert' input_bin = inr img
    /\ forall r c k : Z,
        (0 <= r < 128)%Z -> (0 <= c < 128)%Z -> (0 <= k < 3)%Z ->
        (holds_minimum input_bin (k * 16384 + r * 128 + c) ->
         getpixel img r c k = 0%Z)
        /\ (holds_maximum input_bin (k * 16384 + r * 128 + c) ->
            getpixel img r c k = 255%Z).
Proof.
  intros Hlen Hfin Hne Hrange.
  destruct (convert_pixels input_bin Hlen)
    as (lo & hi & img & Hlo & Hhi & Ilo & Ihi & Hc & _ & _ & Hpx).
  unfold range_is_finite in Hrange. rewrite Hlo, Hhi in Hrange.
  pose proof (range_nonzero input_bin lo hi Hlen Hlo Hhi Ilo Ihi Hfin Hne Hrange) as Hd.
  pose proof (finite_no_nan _ Hfin) as Hnn.
  rewrite forallb_forall in Hfin.
  exists img. split; [exact Hc|].
  intros r c k Hr Hc' Hk.
  assert (Hi : (0 <= k * 16384 + r * 128 + c < n_samples)%Z) by (unfold n_samples; lia).
  pose proof (sample_in input_bin _ Hlen Hi) as Ii.
  destruct (reduce_bounds _ lo hi Hlo Hhi Hnn _ Ii) as [Li Ui].
  rewrite (Hpx r c k Hr Hc' Hk). unfold normalize.
  split; intros Hext.
  - (* a minimum *)
    destruct (in_sample input_bin lo Hlen Ilo) as (j & Hj & Ej).
    assert (E : F32.eqb (sample input_bin (k * 16384 + r * 128 + c)) lo = true).
    { apply leb_antisym; [|exact Li]. rewrite <- Ej. apply Hext. exact Hj. }
    destruct (sub_eqb_finite _ _ E (Hfin _ Ii)) as [s ->].
    destruct (div_zero s _ Hd) as [s' ->].
    rewrite mul_zero_c255. reflexivity.
  - (* a maximum *)
    destruct (in_sample input_bin hi Hlen Ihi) as (j & Hj & Ej).
    assert (E : F32.eqb (sample input_bin (k * 16384 + r * 128 + c)) hi = true).
    { apply leb_antisym; [exact Ui|]. rewrite <- Ej. apply Hext. exact Hj. }
    rewrite (sub_eqb_left _ _ _ E Hd), (div_same _ Hd), mul_one_c255.
    reflexivity.
Qed.

(** C2, amended. Quantization truncates toward zero: when the samples are
    all finite and not all equal and [maxVal - minVal] does not overflow,
    every normalised value is a number whose integer part lies in
    [[0, 255]], and the output byte is that integer part.  For -1.0, 0.0,
    1.0 repeated over the 49152 slots, -1.0 gives 0, 0.0 gives 127 (from
    127.5) and 1.0 gives 255. *)
Theorem quantization_truncates (input_bin : list byte) :
  3 * 128 * 128 * 4 <= List.length input_bin ->
  forallb F32.is_finite (samples input_bin) = true ->
  ~ all_equal input_bin ->
  range_is_finite input_bin = true ->
  (exists lo hi img,
     reduce fmin (samples input_bin) = Some lo
     /\ reduce fmax (samples input_bin) = Some hi
     /\ convert' input_bin = inr img
     /\ forall r c k : Z,
         (0 <= r < 128)%Z -> (0 <= c < 128)%Z -> (0 <= k < 3)%Z ->
         F32.trunc (normalize lo hi (sample input_bin (k * 16384 + r * 128 + c)))
         = Some (getpixel img r c k)
         /\ (0 <= getpixel img r c k <= 255)%Z)
  /\ (exists img,
        convert' input_ramp = inr img
        /\ forall r c k : Z,
            (0 <= r < 128)%Z -> (0 <= c < 128)%Z -> (0 <= k < 3)%Z ->
            let v := sample input_ramp (k * 16384 + r * 128 + c) in
            (v = F32.of_bits 0xbf800000 /\ getpixel img r c k = 0%Z)
            \/ (v = F32.of_bits 0 /\ getpixel img r c k = 127%Z
                /\ normalize (F32.of_bits 0xbf800000) (F32.of_bits 0x3f800000) v
                   = S754_finite false 16711680 (-17))
            \/ (v = F32.of_bits 0x3f800000 /\ getpixel img r c k = 255%Z)).
Proof.
  intros Hlen Hfin Hne Hrange. split.
  - destruct (convert_pixels input_bin Hlen)
      as (lo & hi & img & Hlo & Hhi & Ilo & Ihi & Hc & _ & _ & Hpx).
    unfold range_is_finite in Hrange. rewrite Hlo, Hhi in Hrange.
    pose proof (range_nonzero input_bin lo hi Hlen Hlo Hhi Ilo Ihi Hfin Hne Hrange) as Hd.
    pose proof (finite_no_nan _ Hfin) as Hnn.
    rewrite forallb_forall in Hfin.
    exists lo, hi, img. repeat split; try assumption.
    + assert (Hi : (0 <= k * 16384 + r * 128 + c < n_samples)%Z) by (unfold n_samples; lia).
      pose proof (sample_in input_bin _ Hlen Hi) as Ii.
      destruct (reduce_bounds _ lo hi Hlo Hhi Hnn _ Ii) as [Li Ui].
      rewrite (Hpx r c k) by assumption.
      apply normalize_pixel; try assumption;
        try (apply (samples_valid input_bin); assumption);
        apply Hfin; assumption.
    + rewrite (Hpx r c k) by assumption. apply to_uint8_range.
    + rewrite (Hpx r c k) by assumption. apply to_uint8_range.
  - destruct (convert_pixels input_ramp input_ramp_length)
      as (lo & hi & img & Hlo & Hhi & _ & _ & Hc & _ & _ & Hpx).
    rewrite input_ramp_min in Hlo. rewrite input_ramp_max in Hhi.
    injection Hlo as <-. injection Hhi as <-.
    change (F32.of_bits 0xbf800000) with (S754_finite true 8388608 (-23)) in *.
    change (F32.of_bits 0) with (S754_zero false) in *.
    change (F32.of_bits 0x3f800000) with (S754_finite false 8388608 (-23)) in *.
    pose proof input_ramp_values as Hall.
    pose proof input_ramp_no_negative_zero as Hpos.
    rewrite forallb_forall in Hall, Hpos.
    exists img. split; [exact Hc|].
    intros r c k Hr Hc' Hk v.
    assert (Hi : (0 <= k * 16384 + r * 128 + c < n_samples)%Z) by (unfold n_samples; lia).
    pose proof (Hall _ (sample_in input_ramp _ input_ramp_length Hi)) as Hv.
    pose proof (Hpos _ (sample_in input_ramp _ input_ramp_length Hi)) as Hz.
    fold v in Hv, Hz. rewrite (Hpx r c k) by assumption. fold v.
    clearbody v.
    apply orb_true_iff in Hv. destruct Hv as [Hv|Hv];
      [apply orb_true_iff in Hv; destruct Hv as [Hv|Hv]|].
    + left. destruct v as [?|[]| |[] m e]; try discriminate Hv.
      apply eqb_finite_inv in Hv. destruct Hv as (_ & -> & ->).
      split; reflexivity.
    + right. left. destruct v as [[]|[]| |[] ? ?]; try discriminate Hv.
      * discriminate Hz.
      * repeat split; reflexivity.
    + right. right. destruct v as [?|[]| |[] m e]; try discriminate Hv.
      apply eqb_finite_inv in Hv. destruct Hv as (_ & -> & ->).
      split; reflexivity.
Qed.

(** C10. Quantization is monotone: if the sample at one position is less
    than or equal to the sample at another, so are their output bytes.
    This holds for every input of at least 196608 bytes (all samples equal
    or not). *)
Theorem quantization_monotone (input_bin : list byte) (r c k r' c' k' : Z) :
  3 * 128 * 128 * 4 <= List.length input_bin ->
  (0 <= r < 128)%Z -> (0 <= c < 128)%Z -> (0 <= k < 3)%Z ->
  (0 <= r' < 128)%Z -> (0 <= c' < 128)%Z -> (0 <= k' < 3)%Z ->
  F32.leb (sample input_bin (k * 16384 + r * 128 + c))
          (sample input_bin (k' * 16384 + r' * 128 + c')) = true ->
  exists img,
    convert' input_bin = inr img
    /\ (getpixel img r c k <= getpixel img r' c' k')%Z.
Proof.
  intros Hlen Hr Hc Hk Hr' Hc' Hk' Hle.
  destruct (convert_pixels input_bin Hlen)
    as (lo & hi & img & Hlo & Hhi & Ilo & Ihi & Hcv & _ & _ & Hpx).
  exists img. split; [exact Hcv|].
  rewrite (Hpx r c k), (Hpx r' c' k') by assumption.
  assert (Hi : (0 <= k * 16384 + r * 128 + c < n_samples)%Z) by (unfold n_samples; lia).
  assert (Hj : (0 <= k' * 16384 + r' * 128 + c' < n_samples)%Z) by (unfold n_samples; lia).
  pose proof (sample_in input_bin _ Hlen Hi) as Ii.
  pose proof (sample_in input_bin _ Hlen Hj) as Ij.
  destruct (existsb F32.is_nan (samples input_bin)) eqn:En.
  - (* a NaN among the samples: every normalised value is NaN *)
    apply existsb_exists in En. destruct En as (x & Ix & Hx).
    destruct x; try discriminate Hx.
    assert (lo = S754_nan).
    { unfold reduce in Hlo. destruct (samples input_bin) as [|y ys]; [destruct Ix|].
      injection Hlo as <-. apply fold_fmin_nan. exact Ix. }
    subst lo. rewrite !normalize_nan_lo. lia.
  - assert (Hnn : no_nan (samples input_bin)).
    { intros x Ix. destruct (F32.is_nan x) eqn:E; [|reflexivity].
      assert (existsb F32.is_nan (samples input_bin) = true)
        by (apply existsb_exists; exists x; split; assumption).
      congruence. }
    destruct (reduce_bounds _ lo hi Hlo Hhi Hnn _ Ii) as [Li Ui].
    destruct (reduce_bounds _ lo hi Hlo Hhi Hnn _ Ij) as [Lj Uj].
    apply normalize_mono; try assumption;
      apply (samples_valid input_bin); assumption.
Qed.

(** C3. Normalisation uses one global minimum and one global maximum, taken
    over all 49152 samples of the three channels: both are samples of the
    input, they bound every sample (when no sample is NaN), and every
    channel of every pixel is the cast of
    [(v - minVal) / (maxVal - minVal) * 255.0] with this same pair
    ([S754_finite false 16711680 (-16)] is 255.0).  For the tensor whose
    planes are -1.0, 0.0 and 1.0 throughout, the three channels of every
    pixel are 0, 127 and 255; extremes taken plane by plane would give
    every plane the range zero. *)
Theorem global_min_max (input_bin : list byte) :
  3 * 128 * 128 * 4 <= List.length input_bin ->
  (exists lo hi img,
     reduce fmin (samples input_bin) = Some lo
     /\ reduce fmax (samples input_bin) = Some hi
     /\ In lo (samples input_bin)
     /\ In hi (samples input_bin)
     /\ (no_nan (samples input_bin) ->
         forall i, (0 <= i < n_samples)%Z ->
           F32.leb lo (sample input_bin i) = true
           /\ F32.leb (sample input_bin i) hi = true)
     /\ convert' input_bin = inr img
     /\ forall r c k : Z,
         (0 <= r < 128)%Z -> (0 <= c < 128)%Z -> (0 <= k < 3)%Z ->
         getpixel img r c k
         = to_uint8'
             (F32.mul
                (F32.div (F32.sub (sample input_bin (k * 16384 + r * 128 + c)) lo)
                         (F32.sub hi lo))
                (S754_finite false 16711680 (-16))))
  /\ (exists img,
        convert' input_planes = inr img
        /\ forall r c : Z,
            (0 <= r < 128)%Z -> (0 <= c < 128)%Z ->
            getpixel img r c 0 = 0%Z
            /\ getpixel img r c 1 = 127%Z
            /\ getpixel img r c 2 = 255%Z).
Proof.
  intros Hlen. split.
  - destruct (convert_pixels input_bin Hlen)
      as (lo & hi & img & Hlo & Hhi & Ilo & Ihi & Hc & _ & _ & Hpx).
    exists lo, hi, img.
    split; [exact Hlo|]. split; [exact Hhi|]. split; [exact Ilo|].
    split; [exact Ihi|]. split.
    { intros Hn i Hi.
      apply (reduce_bounds _ lo hi Hlo Hhi Hn). apply sample_in; assumption. }
    split; [exact Hc|].
    intros r c k Hr Hc' Hk. rewrite (Hpx r c k Hr Hc' Hk). reflexivity.
  - destruct (convert_pixels input_planes input_planes_length)
      as (lo & hi & img & Hlo & Hhi & _ & _ & Hc & _ & _ & Hpx).
    rewrite input_planes_min in Hlo. rewrite input_planes_max in Hhi.
    injection Hlo as <-. injection Hhi as <-.
    exists img. split; [exact Hc|].
    intros r c Hr Hc'.
    rewrite (Hpx r c 0%Z), (Hpx r c 1%Z), (Hpx r c 2%Z) by lia.
    replace (0 * 16384 + r * 128 + c)%Z with (0 * 16384 + (r * 128 + c))%Z by lia.
    replace (1 * 16384 + r * 128 + c)%Z with (1 * 16384 + (r * 128 + c))%Z by lia.
    replace (2 * 16384 + r * 128 + c)%Z with (2 * 16384 + (r * 128 + c))%Z by lia.
    rewrite !input_planes_sample by lia.
    split; [reflexivity|]. split; reflexivity.
Qed.

(** C4. An input shorter than 196608 bytes makes the run fail with a
    [ValueError] (exit status 1): nothing is written, the files are as
    they were, and the only file operation is the read of the input. *)
Theorem short_input_fails (argv : list string) (w : world) (input_bin : list byte) :
  3 <= List.length argv ->
  files w (nth 1 argv EmptyString) = Some input_bin ->
  List.length input_bin < 3 * 128 * 128 * 4 ->
  exists msg,
    snd (main' argv w) = inl (ValueError msg)
    /\ exit_status (snd (main' argv w)) = 1%Z
    /\ files (fst (main' argv w)) = files w
    /\ trace (fst (main' argv w)) = trace w ++ [FileRead (nth 1 argv EmptyString)].
Proof.
  intros Hargs Hfile Hlen.
  destruct (convert_short input_bin Hlen) as (msg & Hc).
  exists msg. rewrite (main_run argv w input_bin Hargs Hfile).
  cbv zeta. rewrite Hc. repeat split; reflexivity.
Qed.

(** C5. The conversion is deterministic: two runs that read the same input
    bytes end the same way, and when they succeed they leave the same bytes
    in the output file, whatever else the two file systems hold. *)
Theorem conversion_deterministic
    (argv : list string) (w1 w2 : world) (input_bin : list byte) :
  3 <= List.length argv ->
  files w1 (nth 1 argv EmptyString) = Some input_bin ->
  files w2 (nth 1 argv EmptyString) = Some input_bin ->
  snd (main' argv w1) = snd (main' argv w2)
  /\ (snd (main' argv w1) = inr tt ->
      exists contents,
        files (fst (main' argv w1)) (nth 2 argv EmptyString) = Some contents
        /\ files (fst (main' argv w2)) (nth 2 argv EmptyString) = Some contents).
Proof.
  intros Hargs H1 H2.
  rewrite (main_run argv w1 input_bin Hargs H1).
  rewrite (main_run argv w2 input_bin Hargs H2).
  cbv zeta. destruct (convert' input_bin) as [e|img]; cbn [fst snd].
  - split; [reflexivity|discriminate].
  - rewrite !save_cases. cbv zeta.
    destruct (encode (nth 2 argv EmptyString) img) as [|format|e remains|contents];
      try destruct (writable (nth 2 argv EmptyString)) as [f|];
      cbn [fst snd files]; (split; [reflexivity|]); try discriminate.
    intros _. exists contents.
    rewrite !store_twice, aliases_refl. split; reflexivity.
Qed.

(** C6. The output depends only on the first 196608 input bytes: inputs
    that agree on them convert to the same image, and runs on them end the
    same way and leave the same bytes in the output file. *)
Theorem only_first_bytes_matter (b1 b2 : list byte) :
  firstn (3 * 128 * 128 * 4) b1 = firstn (3 * 128 * 128 * 4) b2 ->
  convert' b1 = convert' b2
  /\ forall (argv : list string) (w1 w2 : world),
      3 <= List.length argv ->
      files w1 (nth 1 argv EmptyString) = Some b1 ->
      files w2 (nth 1 argv EmptyString) = Some b2 ->
      snd (main' argv w1) = snd (main' argv w2)
      /\ (snd (main' argv w1) = inr tt ->
          files (fst (main' argv w1)) (nth 2 argv EmptyString)
          = files (fst (main' argv w2)) (nth 2 argv EmptyString)).
Proof.
  intros Hpre.
  assert (Hc : convert' b1 = convert' b2).
  { unfold convert, input_tensor. rewrite Hpre. reflexivity. }
  split; [exact Hc|].
  intros argv w1 w2 Hargs H1 H2.
  rewrite (main_run argv w1 b1 Hargs H1), (main_run argv w2 b2 Hargs H2).
  cbv zeta. rewrite Hc. destruct (convert' b2) as [e|img]; cbn [fst snd].
  - split; [reflexivity|discriminate].
  - rewrite !save_cases. cbv zeta.
    destruct (encode (nth 2 argv EmptyString) img) as [|format|e remains|contents];
      try destruct (writable (nth 2 argv EmptyString)) as [f|];
      cbn [fst snd files]; (split; [reflexivity|]); try discriminate.
    intros _. rewrite !store_twice, aliases_refl. reflexivity.
Qed.

(** C7. The cast tensor is transposed from (channel, row, column) to
    (row, column, channel) before it becomes the image, plane 0 being R,
    plane 1 G and plane 2 B: byte [(r * 128 + c) * 3 + k] of the 128 x 128
    image, which is channel [k] of the pixel at row [r] and column [c], is
    the cast of normalised input sample [k * 16384 + r * 128 + c]. *)
Theorem interleaved_layout (input_bin : list byte) :
  3 * 128 * 128 * 4 <= List.length input_bin ->
  exists lo hi img,
    reduce fmin (samples input_bin) = Some lo
    /\ reduce fmax (samples input_bin) = Some hi
    /\ convert' input_bin = inr img
    /\ width img = 128%Z
    /\ height img = 128%Z
    /\ forall r c k : Z,
        (0 <= r < 128)%Z -> (0 <= c < 128)%Z -> (0 <= k < 3)%Z ->
        getpixel img r c k = item 0%Z (pixels img) ((r * 128 + c) * 3 + k)
        /\ getpixel img r c k
           = to_uint8' (normalize lo hi (sample input_bin (k * 16384 + r * 128 + c))).
Proof.
  intros Hlen.
  destruct (convert_pixels input_bin Hlen)
    as (lo & hi & img & Hlo & Hhi & _ & _ & Hc & Hw & Hh & Hpx).
  exists lo, hi, img. repeat split; try assumption.
  - unfold getpixel. rewrite Hw. reflexivity.
  - apply Hpx; assumption.
Qed.

(** C8. When all 49152 samples are equal, [maxVal - minVal] is a zero (or
    NaN, for infinite samples), every normalised value is NaN, and the NaN
    goes unguarded into the cast: the script still produces its image, and
    every byte of it is whatever the conversion of NaN yields on the
    machine; no default value is put in its place. *)
Theorem constant_input_is_nan (input_bin : list byte) :
  3 * 128 * 128 * 4 <= List.length input_bin ->
  all_equal input_bin ->
  exists lo hi img,
    reduce fmin (samples input_bin) = Some lo
    /\ reduce fmax (samples input_bin) = Some hi
    /\ ((exists s, F32.sub hi lo = S754_zero s) \/ F32.sub hi lo = S754_nan)
    /\ convert' input_bin = inr img
    /\ forall r c k : Z,
        (0 <= r < 128)%Z -> (0 <= c < 128)%Z -> (0 <= k < 3)%Z ->
        normalize lo hi (sample input_bin (k * 16384 + r * 128 + c)) = S754_nan
        /\ getpixel img r c k = (invalid_cast S754_nan mod 256)%Z.
Proof.
  intros Hlen Heq.
  destruct (convert_pixels input_bin Hlen)
    as (lo & hi & img & Hlo & Hhi & Ilo & Ihi & Hc & _ & _ & Hpx).
  destruct (in_sample input_bin lo Hlen Ilo) as (il & Hil & El).
  destruct (in_sample input_bin hi Hlen Ihi) as (ih & Hih & Eh).
  assert (Hd : (exists s, F32.sub hi lo = S754_zero s) \/ F32.sub hi lo = S754_nan).
  { apply sub_eqb. rewrite <- El, <- Eh. apply Heq; assumption. }
  assert (Hnan : forall i, (0 <= i < n_samples)%Z ->
                 normalize lo hi (sample input_bin i) = S754_nan).
  { intros i Hi.
    assert (Hu : (exists s, F32.sub (sample input_bin i) lo = S754_zero s)
                 \/ F32.sub (sample input_bin i) lo = S754_nan).
    { apply sub_eqb. rewrite <- El. apply Heq; assumption. }
    unfold normalize.
    destruct Hu as [[su ->]| ->], Hd as [[sd ->]| ->]; reflexivity. }
  exists lo, hi, img. repeat split; try assumption.
  - apply Hnan. unfold n_samples. lia.
  - rewrite (Hpx r c k) by assumption. rewrite Hnan by (unfold n_samples; lia).
    reflexivity.
Qed.

(** C9. With fewer than two positional arguments the script prints the
    usage message on standard output and exits with status 1; it opens no
    file: the files and the trace of file operations are as they were. *)
Theorem usage_on_missing_arguments (argv : list string) (w : world) :
  List.length (tl argv) < 2 ->
  main' argv w
  = (mkWorld (files w) (stdout w ++ [usage]) (trace w), inl (SystemExit 1))
  /\ exit_status (snd (main' argv w)) = 1%Z
  /\ files (fst (main' argv w)) = files w
  /\ trace (fst (main' argv w)) = trace w.
Proof.
  intros Hargs.
  assert (E : main' argv w
              = (mkWorld (files w) (stdout w ++ [usage]) (trace w),
                 inl (SystemExit 1))).
  { unfold main.
    destruct (Nat.ltb_spec (List.length argv) 3) as [_|Hge].
    - reflexivity.
    - destruct argv as [|prog args]; cbn [tl List.length] in *; lia. }
  rewrite E. repeat split; reflexivity.
Qed.

End ConverterFacts.

(** * Further properties *)

(** ** Runs of the script *)

Section RunFacts.

Variable invalid_cast : float32 -> Z.
Variable encode : string -> image -> save_plan.
Variable writable : string -> option open_failure.
Variable same_file : string -> string -> bool.

Local Abbreviation convert' := (convert invalid_cast).
Local Abbreviation main' := (main invalid_cast encode writable same_file).

(** A run with both paths given, on a missing input file. *)
Lemma main_missing (argv : list string) (w : world) :
  3 <= List.length argv ->
  files w (nth 1 argv EmptyString) = None ->
  main' argv w
  = (mkWorld (files w) (stdout w) (trace w ++ [FileRead (nth 1 argv EmptyString)]),
     inl (FileNotFoundError (nth 1 argv EmptyString))).
Proof.
  intros Hargs Hfile. unfold main.
  destruct (Nat.ltb_spec (List.length argv) 3) as [Hlt|_]; [lia|].
  unfold io_bind, read_binary. rewrite Hfile. reflexivity.
Qed.

(** A run with a path missing. *)
Lemma main_usage (argv : list string) (w : world) :
  List.length argv < 3 ->
  main' argv w
  = (mkWorld (files w) (stdout w ++ [usage]) (trace w), inl (SystemExit 1)).
Proof.
  intros Hargs. unfold main.
  destruct (Nat.ltb_spec (List.length argv) 3) as [_|Hge]; [reflexivity|lia].
Qed.

(** Only an input with at least [3 * 128 * 128 * 4] bytes converts. *)
Lemma convert_length (input_bin : list byte) (img : image) :
  convert' input_bin = inr img -> 3 * 128 * 128 * 4 <= List.length input_bin.
Proof.
  intros Hc.
  destruct (Nat.le_gt_cases (3 * 128 * 128 * 4) (List.length input_bin)) as [H|H];
    [exact H|].
  destruct (convert_short invalid_cast input_bin H) as (msg & E).
  rewrite E in Hc. discriminate.
Qed.

(** A run whose input converts: what [save] makes of it. *)
Lemma main_converted (argv : list string) (w : world) (input_bin : list byte)
    (img : image) :
  3 <= List.length argv ->
  files w (nth 1 argv EmptyString) = Some input_bin ->
  convert' input_bin = inr img ->
  main' argv w
  = let input_path := nth 1 argv EmptyString in
    let output_path := nth 2 argv EmptyString in
    let w1 := mkWorld (files w) (stdout w) (trace w ++ [FileRead input_path]) in
    let opened :=
      mkWorld (files w) (stdout w)
              ((trace w ++ [FileRead input_path]) ++ [FileWrite output_path]) in
    let closed contents :=
      mkWorld (store same_file output_path contents
                 (store same_file output_path (Some []) (files w)))
              (stdout w)
              ((trace w ++ [FileRead input_path]) ++ [FileWrite output_path]) in
    match encode output_path img with
    | UnknownExtension => (w1, inl (ValueError "unknown file extension"))
    | NoWriter format => (w1, inl (KeyError format))
    | EncoderFails e remains =>
        match writable output_path with
        | Some f => (opened, inl (open_exn f output_path))
        | None => (closed (remains (files w output_path)), inl e)
        end
    | Encodes contents =>
        match writable output_path with
        | Some f => (opened, inl (open_exn f output_path))
        | None => (closed (Some contents), inr tt)
        end
    end.
Proof.
  intros Hargs Hfile Hc.
  rewrite (main_run invalid_cast encode writable same_file argv w input_bin Hargs Hfile).
  cbv zeta. rewrite Hc, (save_cases encode writable same_file). reflexivity.
Qed.

(** A run that ends normally went through every step. *)
Lemma main_normal (argv : list string) (w : world) :
  snd (main' argv w) = inr tt ->
  3 <= List.length argv
  /\ exists input_bin img contents,
       files w (nth 1 argv EmptyString) = Some input_bin
       /\ convert' input_bin = inr img
       /\ encode (nth 2 argv EmptyString) img = Encodes contents
       /\ writable (nth 2 argv EmptyString) = None
       /\ fst (main' argv w)
          = mkWorld (store same_file (nth 2 argv EmptyString) (Some contents)
                       (store same_file (nth 2 argv EmptyString) (Some [])
                          (files w)))
                    (stdout w)
                    ((trace w ++ [FileRead (nth 1 argv EmptyString)])
                     ++ [FileWrite (nth 2 argv EmptyString)]).
Proof.
  intros Hs.
  destruct (Nat.lt_ge_cases (List.length argv) 3) as [Hlt|Hge].
  { rewrite (main_usage argv w Hlt) in Hs. discriminate Hs. }
  split; [exact Hge|].
  destruct (files w (nth 1 argv EmptyString)) as [input_bin|] eqn:Hfile.
  2:{ rewrite (main_missing argv w Hge Hfile) in Hs. discriminate Hs. }
  destruct (convert' input_bin) as [e|img] eqn:Hc.
  { rewrite (main_run invalid_cast encode writable same_file argv w input_bin Hge Hfile)
      in Hs.
    cbv zeta in Hs. rewrite Hc in Hs. discriminate Hs. }
  rewrite (main_converted argv w input_bin img Hge Hfile Hc) in Hs |- *.
  cbv zeta in Hs |- *.
  exists input_bin, img.
  destruct (encode (nth 2 argv EmptyString) img) as [|format|e remains|contents];
    try discriminate Hs;
    destruct (writable (nth 2 argv EmptyString)) as [f|]; try discriminate Hs.
  exists contents. split; [reflexivity|]. split; [exact Hc|].
  split; [reflexivity|]. split; reflexivity.
Qed.

(** A run succeeds when nothing stands in its way. *)
Lemma main_succeeds (argv : list string) (w : world) (input_bin : list byte) :
  3 <= List.length argv ->
  files w (nth 1 argv EmptyString) = Some input_bin ->
  3 * 128 * 128 * 4 <= List.length input_bin ->
  (forall img, exists contents, encode (nth 2 argv EmptyString) img = Encodes contents) ->
  writable (nth 2 argv EmptyString) = None ->
  snd (main' argv w) = inr tt.
Proof.
  intros Hargs Hfile Hlen Henc Hw.
  destruct (convert_ok invalid_cast input_bin Hlen)
    as (_ & _ & _ & img & _ & _ & _ & _ & _ & _ & _ & Hc & _).
  rewrite (main_converted argv w input_bin img Hargs Hfile Hc). cbv zeta.
  destruct (Henc img) as [contents ->]. rewrite Hw. reflexivity.
Qed.

(** X1. With both paths given and no file at the input path, the run ends
    with [FileNotFoundError] (exit status 1) as soon as it tries to open
    the input: nothing is printed, no file is created or changed, and the
    attempted read is the only file operation. *)
Theorem missing_input_file (argv : list string) (w : world) :
  3 <= List.length argv ->
  files w (nth 1 argv EmptyString) = None ->
  snd (main' argv w) = inl (FileNotFoundError (nth 1 argv EmptyString))
  /\ exit_status (snd (main' argv w)) = 1%Z
  /\ files (fst (main' argv w)) = files w
  /\ stdout (fst (main' argv w)) = stdout w
  /\ trace (fst (main' argv w)) = trace w ++ [FileRead (nth 1 argv EmptyString)].
Proof.
  intros Hargs Hfile. rewrite (main_missing argv w Hargs Hfile).
  repeat split; reflexivity.
Qed.

(** X2. A run ends normally only if both paths were given, the input file
    existed and held at least 196608 bytes, PIL had an encoder for the
    output path that accepted the image, and the output could be opened
    for writing. *)
Theorem normal_run_conditions (argv : list string) (w : world) :
  snd (main' argv w) = inr tt ->
  3 <= List.length argv
  /\ exists input_bin img contents,
       files w (nth 1 argv EmptyString) = Some input_bin
       /\ 3 * 128 * 128 * 4 <= List.length input_bin
       /\ convert' input_bin = inr img
       /\ encode (nth 2 argv EmptyString) img = Encodes contents
       /\ writable (nth 2 argv EmptyString) = None.
Proof.
  intros Hs.
  destruct (main_normal argv w Hs)
    as (Hge & input_bin & img & contents & Hfile & Hc & He & Hw & _).
  split; [exact Hge|].
  exists input_bin, img, contents.
  split; [exact Hfile|]. split; [exact (convert_length input_bin img Hc)|].
  split; [exact Hc|]. split; [exact He|exact Hw].
Qed.

(** X3. A run that ends normally has printed nothing and has opened two
    files, the input for reading and then the output for writing.
    Afterwards the output path, and every other path to the same file,
    holds the encoding of the image converted from the input bytes; every
    other path holds what it held.  So the input still holds its bytes
    when it is another file than the output, and is overwritten when the
    two paths lead to one file. *)
Theorem successful_run_effects (argv : list string) (w : world) :
  snd (main' argv w) = inr tt ->
  exists input_bin img contents,
    files w (nth 1 argv EmptyString) = Some input_bin
    /\ convert' input_bin = inr img
    /\ encode (nth 2 argv EmptyString) img = Encodes contents
    /\ stdout (fst (main' argv w)) = stdout w
    /\ trace (fst (main' argv w))
       = trace w ++ [FileRead (nth 1 argv EmptyString);
                     FileWrite (nth 2 argv EmptyString)]
    /\ (forall p,
          files (fst (main' argv w)) p
          = if aliases same_file p (nth 2 argv EmptyString)
            then Some contents else files w p)
    /\ files (fst (main' argv w)) (nth 2 argv EmptyString) = Some contents
    /\ files (fst (main' argv w)) (nth 1 argv EmptyString)
       = if aliases same_file (nth 1 argv EmptyString) (nth 2 argv EmptyString)
         then Some contents else Some input_bin.
Proof.
  intros Hs.
  destruct (main_normal argv w Hs)
    as (Hge & input_bin & img & contents & Hfile & Hc & He & Hw & Hfst).
  exists input_bin, img, contents.
  split; [exact Hfile|]. split; [exact Hc|]. split; [exact He|].
  rewrite Hfst. cbn [stdout trace files].
  split; [reflexivity|]. split; [rewrite <- app_assoc; reflexivity|].
  split; [intros p; apply (store_twice same_file)|].
  rewrite !(store_twice same_file), (aliases_refl same_file), Hfile. split; reflexivity.
Qed.

(** X4. However a run ends, it changes no file other than the one its
    output path leads to: a path that is neither the output path nor
    another path to the same file holds afterwards what it held before. *)
Theorem run_touches_only_output (argv : list string) (w : world) (p : string) :
  aliases same_file p (nth 2 argv EmptyString) = false ->
  files (fst (main' argv w)) p = files w p.
Proof.
  intros Hp.
  destruct (Nat.lt_ge_cases (List.length argv) 3) as [Hlt|Hge].
  { rewrite (main_usage argv w Hlt). reflexivity. }
  destruct (files w (nth 1 argv EmptyString)) as [input_bin|] eqn:Hfile.
  2:{ rewrite (main_missing argv w Hge Hfile). reflexivity. }
  destruct (convert' input_bin) as [e|img] eqn:Hc.
  { rewrite (main_run invalid_cast encode writable same_file argv w input_bin Hge Hfile).
    cbv zeta. rewrite Hc. reflexivity. }
  rewrite (main_converted argv w input_bin img Hge Hfile Hc). cbv zeta.
  destruct (encode (nth 2 argv EmptyString) img) as [|format|e remains|contents];
    try reflexivity;
    destruct (writable (nth 2 argv EmptyString)) as [f|]; try reflexivity;
    cbn [fst files]; rewrite (store_twice same_file), Hp; reflexivity.
Qed.

(** X5. When PIL refuses the output path before it opens it, a run on an
    input of at least 196608 bytes fails in [save], after the whole
    conversion, with the exception PIL raises: [ValueError] for an
    extension it does not know, [KeyError] for a format it knows but has
    no writer for.  The exit status is 1, nothing is printed, no file is
    created or changed, and the read of the input is the only file
    operation. *)
Theorem unsupported_output_format
    (argv : list string) (w : world) (input_bin : list byte) :
  3 <= List.length argv ->
  files w (nth 1 argv EmptyString) = Some input_bin ->
  3 * 128 * 128 * 4 <= List.length input_bin ->
  exists img,
    convert' input_bin = inr img
    /\ (encode (nth 2 argv EmptyString) img = UnknownExtension ->
        exists msg,
          snd (main' argv w) = inl (ValueError msg)
          /\ exit_status (snd (main' argv w)) = 1%Z
          /\ files (fst (main' argv w)) = files w
          /\ stdout (fst (main' argv w)) = stdout w
          /\ trace (fst (main' argv w))
             = trace w ++ [FileRead (nth 1 argv EmptyString)])
    /\ (forall format,
          encode (nth 2 argv EmptyString) img = NoWriter format ->
          snd (main' argv w) = inl (KeyError format)
          /\ exit_status (snd (main' argv w)) = 1%Z
          /\ files (fst (main' argv w)) = files w
          /\ stdout (fst (main' argv w)) = stdout w
          /\ trace (fst (main' argv w))
             = trace w ++ [FileRead (nth 1 argv EmptyString)]).
Proof.
  intros Hargs Hfile Hlen.
  destruct (convert_ok invalid_cast input_bin Hlen)
    as (_ & _ & _ & img & _ & _ & _ & _ & _ & _ & _ & Hc & _).
  exists img. split; [exact Hc|].
  rewrite (main_converted argv w input_bin img Hargs Hfile Hc). cbv zeta.
  split.
  - intros ->. eexists. repeat split; reflexivity.
  - intros format ->. repeat split; reflexivity.
Qed.

(** X15. When the output path cannot be opened for writing (a directory of
    the path is missing, no permission, ...), a run on an input of at
    least 196608 bytes for which PIL has an encoder fails in [save] with
    the exception [open] raises, [FileNotFoundError] for a missing
    directory and another [OSError] otherwise.  The exit status is 1,
    nothing is printed and no file is created or changed. *)
Theorem output_cannot_be_opened
    (argv : list string) (w : world) (input_bin : list byte) (f : open_failure) :
  3 <= List.length argv ->
  files w (nth 1 argv EmptyString) = Some input_bin ->
  3 * 128 * 128 * 4 <= List.length input_bin ->
  writable (nth 2 argv EmptyString) = Some f ->
  exists img,
    convert' input_bin = inr img
    /\ (encode (nth 2 argv EmptyString) img <> UnknownExtension ->
        (forall format, encode (nth 2 argv EmptyString) img <> NoWriter format) ->
        snd (main' argv w) = inl (open_exn f (nth 2 argv EmptyString))
        /\ exit_status (snd (main' argv w)) = 1%Z
        /\ files (fst (main' argv w)) = files w
        /\ stdout (fst (main' argv w)) = stdout w
        /\ trace (fst (main' argv w))
           = trace w ++ [FileRead (nth 1 argv EmptyString);
                         FileWrite (nth 2 argv EmptyString)]).
Proof.
  intros Hargs Hfile Hlen Hw.
  destruct (convert_ok invalid_cast input_bin Hlen)
    as (_ & _ & _ & img & _ & _ & _ & _ & _ & _ & _ & Hc & _).
  exists img. split; [exact Hc|].
  intros Hu Hn.
  rewrite (main_converted argv w input_bin img Hargs Hfile Hc). cbv zeta.
  rewrite Hw.
  destruct (encode (nth 2 argv EmptyString) img) as [|format|e remains|contents];
    [contradiction Hu; reflexivity|contradiction (Hn format); reflexivity| |];
    cbn [fst snd files stdout trace]; rewrite <- app_assoc;
    (split; [reflexivity|]); (split; [destruct f; reflexivity|]);
    repeat split; reflexivity.
Qed.

End RunFacts.

(** ** What reaches the cast *)

Section ClassificationFacts.

Local Open Scope Z_scope.

(** With an infinite range, a finite difference gives a zero. *)
Lemma normalize_inf_range_zero (lo hi v : float32) :
  F32.sub hi lo = S754_infinity false ->
  F32.is_finite (F32.sub v lo) = true ->
  exists s, normalize lo hi v = S754_zero s.
Proof.
  intros H Hu. unfold normalize. rewrite H.
  destruct (F32.sub v lo) as [s|s| |s m e]; try discriminate Hu;
    destruct s; eexists; reflexivity.
Qed.

Lemma nonneg_number_zero (s : bool) : nonneg_number (S754_zero s) = true.
Proof. reflexivity. Qed.

(** The normalised value of a sample between the extremes is NaN or a
    number in [[0, 255]]: never negative, never above 255, never an
    infinity. *)
Lemma normalize_classify (lo hi v : float32) :
  valid lo = true -> valid hi = true -> valid v = true ->
  F32.leb lo v = true -> F32.leb v hi = true ->
  normalize lo hi v = S754_nan
  \/ (nonneg_number (normalize lo hi v) = true
      /\ scaled (normalize lo hi v) <= 255 * 2 ^ 149).
Proof.
  intros Vl Vh Vv Hlv Hvh.
  destruct (leb_not_nan _ _ Hlv) as [Nl Nv]. destruct (leb_not_nan _ _ Hvh) as [_ Nh].
  pose proof (pow2_pos 149 ltac:(lia)) as P.
  destruct (F32.is_finite lo) eqn:Fl.
  2:{ left. destruct lo as [?|s| |? ? ?]; try discriminate.
      apply normalize_inf_lo; assumption. }
  assert (Hinf : F32.sub hi lo = S754_infinity false ->
                 normalize lo hi v = S754_nan
                 \/ (nonneg_number (normalize lo hi v) = true
                     /\ scaled (normalize lo hi v) <= 255 * 2 ^ 149)).
  { intros Hd.
    destruct (F32.is_finite (F32.sub v lo)) eqn:Fu.
    - right. destruct (normalize_inf_range_zero lo hi v Hd Fu) as [s ->].
      split; [reflexivity|]. cbn [scaled]. lia.
    - left. unfold normalize. rewrite Hd.
      destruct (F32.sub v lo) as [s|s| |s m e]; try discriminate Fu; reflexivity. }
  assert (Hlh : F32.leb lo hi = true) by (apply leb_trans with v; assumption).
  destruct (F32.is_finite hi) eqn:Fh.
  2:{ destruct hi as [?|[]| |? ? ?]; try discriminate.
      - destruct lo as [?|?| |[] ? ?]; discriminate.
      - apply Hinf. destruct lo; try discriminate; reflexivity. }
  assert (Fv : F32.is_finite v = true) by (apply (between_finite lo hi); assumption).
  destruct (sub_stage hi lo Vh Vl Fh Fl Hlh) as [Nd Ed].
  destruct (F32.sub hi lo) as [sd|sd| |sd md ed] eqn:Ed0.
  - (* all samples equal *)
    left.
    assert (E0 : scaled hi - scaled lo = 0).
    { destruct (Z.eq_dec (scaled hi - scaled lo) 0) as [E|E]; [exact E|].
      pose proof (round_frac_nonzero (scaled hi - scaled lo) 1 ltac:(lia) ltac:(lia)) as Hz.
      apply feq_nonzero in Ed; [|exact Hz]. rewrite <- Ed in Hz. discriminate. }
    apply (normalize_zero_range lo hi v sd Ed0).
    destruct (sub_stage v lo Vv Vl Fv Fl Hlv) as [Nv' Ev].
    assert (scaled v <= scaled hi) by (apply (leb_scaled v hi); assumption).
    replace (scaled v - scaled lo) with 0 in Ev by lia.
    rewrite round_frac_zero in Ev by lia.
    apply feq_sym, feq_zero_l in Ev. destruct Ev as [s' ->]. reflexivity.
  - (* the range overflows *)
    destruct sd.
    + destruct (round_frac_cases (scaled hi - scaled lo) 1 ltac:(lia) ltac:(lia))
        as [_ [Z1|[(m & e & Z1)|Z1]]]; rewrite Z1 in Ed;
        destruct Ed as [Ed|[Ed _]]; discriminate.
    + apply Hinf. reflexivity.
  - left. apply normalize_nan_range. exact Ed0.
  - right. rewrite <- Ed0 in *.
    assert (Hd : F32.is_finite_nonzero (F32.sub hi lo) = true) by (rewrite Ed0; reflexivity).
    destruct (normalize_chain lo hi v Vl Vh Vv Fl Fh Fv Hlv Hvh Hd)
      as (_ & _ & _ & _ & _ & _ & Ep & HP & Bp).
    split; [exact (feq_nonneg _ _ Ep HP)|exact Bp].
Qed.

Lemma reduce_fmin_in (xs : list float32) (lo : float32) :
  reduce fmin xs = Some lo -> In lo xs.
Proof.
  destruct xs as [|x xs]; [discriminate|]. cbn [reduce].
  intros H. injection H as <-. apply fold_fmin_in.
Qed.

Lemma reduce_fmax_in (xs : list float32) (hi : float32) :
  reduce fmax xs = Some hi -> In hi xs.
Proof.
  destruct xs as [|x xs]; [discriminate|]. cbn [reduce].
  intros H. injection H as <-. apply fold_fmax_in.
Qed.

(** A NaN among the elements is the minimum the reduction returns. *)
Lemma reduce_fmin_nan (xs : list float32) (lo : float32) :
  reduce fmin xs = Some lo -> In S754_nan xs -> lo = S754_nan.
Proof.
  destruct xs as [|x xs]; [discriminate|]. cbn [reduce].
  intros H Hn. injection H as <-. apply fold_fmin_nan. exact Hn.
Qed.

Lemma no_nan_dec (xs : list float32) : In S754_nan xs \/ no_nan xs.
Proof.
  destruct (existsb F32.is_nan xs) eqn:En.
  - left. apply existsb_exists in En. destruct En as (x & Ix & Hx).
    destruct x; try discriminate Hx. exact Ix.
  - right. intros x Ix. destruct (F32.is_nan x) eqn:E; [|reflexivity].
    assert (existsb F32.is_nan xs = true)
      by (apply existsb_exists; exists x; split; assumption).
    congruence.
Qed.

(** Every element of a tensor normalises to NaN or to a number in
    [[0, 255]]. *)
Lemma quantize_classify (xs : list float32) (lo hi : float32) :
  (forall x, In x xs -> valid x = true) ->
  reduce fmin xs = Some lo -> reduce fmax xs = Some hi ->
  forall x, In x xs ->
    normalize lo hi x = S754_nan
    \/ (nonneg_number (normalize lo hi x) = true
        /\ scaled (normalize lo hi x) <= 255 * 2 ^ 149).
Proof.
  intros V Hlo Hhi x Ix.
  destruct (no_nan_dec xs) as [Hn|Hn].
  - left. rewrite (reduce_fmin_nan xs lo Hlo Hn). apply normalize_nan_lo.
  - destruct (reduce_bounds xs lo hi Hlo Hhi Hn x Ix) as [L U].
    apply normalize_classify; try assumption; apply V;
      [apply reduce_fmin_in|apply reduce_fmax_in|]; assumption.
Qed.

End ClassificationFacts.

(** ** Inputs with special values *)

Section SpecialInputFacts.

Lemma input_nan_size : List.length input_nan = (3 * 128 * 128 * 4)%nat.
Proof. apply Nat.eqb_eq. vm_compute. reflexivity. Qed.

Lemma input_inf_size : List.length input_inf = (3 * 128 * 128 * 4)%nat.
Proof. apply Nat.eqb_eq. vm_compute. reflexivity. Qed.

Lemma input_nan_length : (3 * 128 * 128 * 4 <= List.length input_nan)%nat.
Proof. rewrite input_nan_size. apply le_n. Qed.

Lemma input_inf_length : (3 * 128 * 128 * 4 <= List.length input_inf)%nat.
Proof. rewrite input_inf_size. apply le_n. Qed.

Lemma samples_input_nan :
  samples input_nan
  = [S754_nan] ++ List.concat (repeat [S754_zero false] (3 * 128 * 128 - 1)).
Proof.
  apply samples_of_items; [rewrite input_nan_size; apply le_n|].
  unfold input_nan.
  rewrite (float32_items_app [x00; x00; xc0; x7f] [S754_nan] _ eq_refl).
  rewrite (float32_items_repeat zero_word [S754_zero false] (3 * 128 * 128 - 1)
             zero_word_items).
  reflexivity.
Qed.

Lemma samples_input_inf :
  samples input_inf
  = [S754_infinity false] ++ List.concat (repeat [S754_zero false] (3 * 128 * 128 - 1)).
Proof.
  apply samples_of_items; [rewrite input_inf_size; apply le_n|].
  unfold input_inf.
  rewrite (float32_items_app [x00; x00; x80; x7f] [S754_infinity false] _ eq_refl).
  rewrite (float32_items_repeat zero_word [S754_zero false] (3 * 128 * 128 - 1)
             zero_word_items).
  reflexivity.
Qed.

Lemma input_nan_has_nan : In S754_nan (samples input_nan).
Proof. rewrite samples_input_nan. left. reflexivity. Qed.

Lemma input_inf_has_inf : In (S754_infinity false) (samples input_inf).
Proof. rewrite samples_input_inf. left. reflexivity. Qed.

Lemma forallb_not_in (f : float32 -> bool) (xs : list float32) (x : float32) :
  forallb f xs = true -> f x = false -> ~ In x xs.
Proof.
  intros H Hx Ix. rewrite forallb_forall in H. rewrite (H x Ix) in Hx. discriminate.
Qed.

Lemma input_inf_no_nan : no_nan (samples input_inf).
Proof.
  assert (H : forallb (fun x => negb (F32.is_nan x)) (samples input_inf) = true).
  { rewrite samples_input_inf. vm_compute. reflexivity. }
  intros x Ix. rewrite forallb_forall in H. apply negb_true_iff. exact (H x Ix).
Qed.

Lemma input_inf_no_negative_infinity : ~ In (S754_infinity true) (samples input_inf).
Proof.
  apply forallb_not_in
    with (f := fun x => match x with S754_infinity true => false | _ => true end);
    [|reflexivity].
  rewrite samples_input_inf. vm_compute. reflexivity.
Qed.

Lemma input_overflow_finite : forallb F32.is_finite (samples input_overflow) = true.
Proof. rewrite samples_input_overflow. vm_compute. reflexivity. Qed.

Lemma input_overflow_range : range_is_finite input_overflow = false.
Proof.
  unfold range_is_finite. rewrite input_overflow_min, input_overflow_max. reflexivity.
Qed.

(** The run on [input_ramp] succeeds. *)
Lemma ramp_run_succeeds :
  snd (main x86_invalid_cast raw_encode always_writable no_links
         ["bin2img_fp32.py"; "in.bin"; "out.png"]%string
         (world_with "in.bin" input_ramp))
  = inr tt.
Proof.
  apply (main_succeeds x86_invalid_cast raw_encode always_writable no_links
           ["bin2img_fp32.py"; "in.bin"; "out.png"]%string
           (world_with "in.bin" input_ramp) input_ramp).
  - cbn [List.length]. lia.
  - reflexivity.
  - exact input_ramp_length.
  - intros img. eexists. reflexivity.
  - reflexivity.
Qed.

(** So does the run that writes to [./x.png] what it read from [x.png]. *)
Lemma in_place_run_succeeds :
  snd (main x86_invalid_cast raw_encode always_writable dot_slash
         ["bin2img_fp32.py"; "x.png"; "./x.png"]%string
         (world_with_two "x.png" input_ramp "./x.png" input_ramp))
  = inr tt.
Proof.
  apply (main_succeeds x86_invalid_cast raw_encode always_writable dot_slash
           ["bin2img_fp32.py"; "x.png"; "./x.png"]%string
           (world_with_two "x.png" input_ramp "./x.png" input_ramp) input_ramp).
  - cbn [List.length]. lia.
  - reflexivity.
  - exact input_ramp_length.
  - intros img. eexists. reflexivity.
  - reflexivity.
Qed.

End SpecialInputFacts.

(** ** Pixels of degenerate and regular inputs *)

Section PixelFacts.

Variable invalid_cast : float32 -> Z.

Local Abbreviation to_uint8' := (to_uint8 invalid_cast).
Local Abbreviation convert' := (convert invalid_cast).

Local Open Scope Z_scope.

Lemma leb_neg_inf_r (x : float32) :
  F32.leb x (S754_infinity true) = true -> x = S754_infinity true.
Proof. destruct x as [?|[]| |[] ? ?]; try discriminate. reflexivity. Qed.

(** The image of a long enough input, written out. *)
Lemma convert_image (input_bin : list byte) :
  (3 * 128 * 128 * 4 <= List.length input_bin)%nat ->
  exists lo hi,
    reduce fmin (samples input_bin) = Some lo
    /\ reduce fmax (samples input_bin) = Some hi
    /\ convert' input_bin
       = inr (mkImage 128 128
                (map (item 0 (map to_uint8' (map (normalize lo hi) (samples input_bin))))
                     (c_order [128; 128; 3] [128; 1; 16384] 0))).
Proof.
  intros Hlen.
  destruct (input_tensor_ok input_bin Hlen) as (xs & Hitems & Hn & Ht).
  assert (Hs : samples input_bin = xs) by (unfold samples; rewrite Hitems; reflexivity).
  rewrite Hs.
  destruct (fold_fmin_nonempty xs Hn) as (x & rest & ->).
  exists (fold_left fmin rest x), (fold_left fmax rest x).
  split; [reflexivity|]. split; [reflexivity|].
  unfold convert. rewrite Ht. reflexivity.
Qed.

(** A position of the image and the index of its sample. *)
Lemma position_of_index (i : Z) :
  0 <= i < n_samples ->
  exists r c k,
    0 <= r < 128 /\ 0 <= c < 128 /\ 0 <= k < 3 /\ k * 16384 + r * 128 + c = i.
Proof.
  unfold n_samples. intros Hi.
  exists ((i mod 16384) / 128), ((i mod 16384) mod 128), (i / 16384).
  pose proof (Z.div_mod i 16384 ltac:(lia)) as E1.
  pose proof (Z.mod_pos_bound i 16384 ltac:(lia)) as B1.
  pose proof (Z.div_mod (i mod 16384) 128 ltac:(lia)) as E2.
  pose proof (Z.mod_pos_bound (i mod 16384) 128 ltac:(lia)) as B2.
  repeat split; lia.
Qed.

(** X6. Every image the conversion produces is 128 x 128 with exactly
    49152 bytes, each in [[0, 255]], whatever the samples are (NaN and
    infinities included) and whatever the machine's conversion of an
    unrepresentable value yields. *)
Theorem image_invariant (input_bin : list byte) (img : image) :
  convert' input_bin = inr img ->
  width img = 128
  /\ height img = 128
  /\ Z.of_nat (List.length (pixels img)) = 49152
  /\ Forall (fun p => 0 <= p <= 255) (pixels img).
Proof.
  intros Hc.
  pose proof (convert_length invalid_cast input_bin img Hc) as Hlen.
  destruct (convert_image input_bin Hlen) as (lo & hi & _ & _ & E).
  set (px := map _ (c_order _ _ _)) in E.
  assert (L : Z.of_nat (List.length px) = 49152).
  { unfold px. rewrite length_map, c_order_length; [reflexivity|reflexivity|].
    repeat constructor; lia. }
  assert (R : Forall (fun p => 0 <= p <= 255) px).
  { apply Forall_forall. intros p Hp.
    apply in_map_iff in Hp. destruct Hp as (o & <- & _).
    unfold item.
    destruct (nth_in_or_default (Z.to_nat o)
                (map to_uint8' (map (normalize lo hi) (samples input_bin))) 0)
      as [Hin| ->]; [|lia].
    apply in_map_iff in Hin. destruct Hin as (y & <- & _).
    apply to_uint8_range. }
  clearbody px. rewrite E in Hc. injection Hc as <-. cbn [width height pixels].
  split; [reflexivity|]. split; [reflexivity|]. split; [exact L|exact R].
Qed.

(** X10. A single NaN or a single -Inf among the 49152 samples blanks the
    whole image: the minimum is then NaN or -Inf, every normalised value
    is NaN, and every byte is what the conversion of NaN yields. *)
Theorem nan_blanks_image (input_bin : list byte) :
  (3 * 128 * 128 * 4 <= List.length input_bin)%nat ->
  In S754_nan (samples input_bin) \/ In (S754_infinity true) (samples input_bin) ->
  exists lo hi img,
    reduce fmin (samples input_bin) = Some lo
    /\ reduce fmax (samples input_bin) = Some hi
    /\ convert' input_bin = inr img
    /\ forall r c k : Z,
        0 <= r < 128 -> 0 <= c < 128 -> 0 <= k < 3 ->
        normalize lo hi (sample input_bin (k * 16384 + r * 128 + c)) = S754_nan
        /\ getpixel img r c k = invalid_cast S754_nan mod 256.
Proof.
  intros Hlen Hbad.
  destruct (convert_pixels invalid_cast input_bin Hlen)
    as (lo & hi & img & Hlo & Hhi & Ilo & Ihi & Hc & _ & _ & Hpx).
  exists lo, hi, img.
  split; [exact Hlo|]. split; [exact Hhi|]. split; [exact Hc|].
  assert (Hnan : forall i, 0 <= i < n_samples ->
                   normalize lo hi (sample input_bin i) = S754_nan).
  { intros i Hi.
    destruct (no_nan_dec (samples input_bin)) as [Hn|Hn].
    - rewrite (reduce_fmin_nan _ lo Hlo Hn). apply normalize_nan_lo.
    - destruct Hbad as [Hb|Hb].
      + rewrite (reduce_fmin_nan _ lo Hlo Hb). apply normalize_nan_lo.
      + destruct (reduce_bounds _ lo hi Hlo Hhi Hn _ Hb) as [L _].
        apply leb_neg_inf_r in L. subst lo.
        pose proof (sample_in input_bin i Hlen Hi) as Ii.
        destruct (reduce_bounds _ _ hi Hlo Hhi Hn _ Ii) as [Li _].
        apply normalize_inf_lo; [apply Hn; exact Ii|apply Hn; exact Ihi|exact Li]. }
  intros r c k Hr Hc' Hk.
  assert (Hi : 0 <= k * 16384 + r * 128 + c < n_samples) by (unfold n_samples; lia).
  split; [apply Hnan; exact Hi|].
  rewrite (Hpx r c k Hr Hc' Hk), (Hnan _ Hi). reflexivity.
Qed.

(** X11. With a +Inf among the samples (and neither NaN nor -Inf), the
    maximum is +Inf and the image has no grey levels: the byte of a +Inf
    sample is what the conversion of NaN yields, and every other byte is 0
    (or the NaN byte, when the sample's difference to the minimum is not
    finite). *)
Theorem positive_infinity_flattens_image (input_bin : list byte) :
  (3 * 128 * 128 * 4 <= List.length input_bin)%nat ->
  no_nan (samples input_bin) ->
  ~ In (S754_infinity true) (samples input_bin) ->
  In (S754_infinity false) (samples input_bin) ->
  exists lo img,
    reduce fmin (samples input_bin) = Some lo
    /\ reduce fmax (samples input_bin) = Some (S754_infinity false)
    /\ convert' input_bin = inr img
    /\ forall r c k : Z,
        0 <= r < 128 -> 0 <= c < 128 -> 0 <= k < 3 ->
        let v := sample input_bin (k * 16384 + r * 128 + c) in
        (v = S754_infinity false -> getpixel img r c k = invalid_cast S754_nan mod 256)
        /\ ((F32.is_finite (F32.sub v lo) = true /\ getpixel img r c k = 0)
            \/ (F32.is_finite (F32.sub v lo) = false
                /\ getpixel img r c k = invalid_cast S754_nan mod 256)).
Proof.
  intros Hlen Hn Hneg Hinf.
  destruct (convert_pixels invalid_cast input_bin Hlen)
    as (lo & hi & img & Hlo & Hhi & Ilo & Ihi & Hc & _ & _ & Hpx).
  destruct (reduce_bounds _ lo hi Hlo Hhi Hn _ Hinf) as [_ U].
  apply leb_inf_l in U. subst hi.
  exists lo, img.
  split; [exact Hlo|]. split; [exact Hhi|]. split; [exact Hc|].
  intros r c k Hr Hc' Hk v.
  assert (Hi : 0 <= k * 16384 + r * 128 + c < n_samples) by (unfold n_samples; lia).
  pose proof (sample_in input_bin _ Hlen Hi) as Iv. fold v in Iv.
  destruct (reduce_bounds _ lo _ Hlo Hhi Hn _ Iv) as [Lv _].
  rewrite (Hpx r c k Hr Hc' Hk). fold v. clearbody v.
  pose proof (Hn lo Ilo) as Nl.
  assert (Hcases : (F32.is_finite (F32.sub v lo) = true
                    /\ to_uint8' (normalize lo (S754_infinity false) v) = 0)
                   \/ (F32.is_finite (F32.sub v lo) = false
                       /\ normalize lo (S754_infinity false) v = S754_nan)).
  { destruct (F32.is_finite lo) eqn:Fl.
    - apply normalize_inf_range. destruct lo; try discriminate Fl; reflexivity.
    - right. destruct lo as [?|[]| |? ? ?]; try discriminate.
      + exfalso. apply Hneg. exact Ilo.
      + apply leb_inf_l in Lv. subst v. split; reflexivity. }
  split.
  - intros ->. destruct Hcases as [[F _]|[_ ->]]; [|reflexivity].
    destruct lo as [?|[]| |? ? ?]; discriminate.
  - destruct Hcases as [[F E]|[F E]]; [left|right]; (split; [exact F|]);
      [exact E|rewrite E; reflexivity].
Qed.

(** X12. When all samples are finite but [maxVal - minVal] overflows,
    the range is +Inf: every byte is 0, or the NaN byte when the sample's
    difference to the minimum overflows too; a sample that holds the
    minimum gives 0 and a sample that holds the maximum gives the NaN
    byte. *)
Theorem range_overflow_pixels (input_bin : list byte) :
  (3 * 128 * 128 * 4 <= List.length input_bin)%nat ->
  forallb F32.is_finite (samples input_bin) = true ->
  range_is_finite input_bin = false ->
  exists lo hi img,
    reduce fmin (samples input_bin) = Some lo
    /\ reduce fmax (samples input_bin) = Some hi
    /\ F32.sub hi lo = S754_infinity false
    /\ convert' input_bin = inr img
    /\ forall r c k : Z,
        0 <= r < 128 -> 0 <= c < 128 -> 0 <= k < 3 ->
        let i := k * 16384 + r * 128 + c in
        ((F32.is_finite (F32.sub (sample input_bin i) lo) = true
          /\ getpixel img r c k = 0)
         \/ (F32.is_finite (F32.sub (sample input_bin i) lo) = false
             /\ getpixel img r c k = invalid_cast S754_nan mod 256))
        /\ (holds_minimum input_bin i -> getpixel img r c k = 0)
        /\ (holds_maximum input_bin i ->
            getpixel img r c k = invalid_cast S754_nan mod 256).
Proof.
  intros Hlen Hfin Hrange.
  destruct (convert_pixels invalid_cast input_bin Hlen)
    as (lo & hi & img & Hlo & Hhi & Ilo & Ihi & Hc & _ & _ & Hpx).
  unfold range_is_finite in Hrange. rewrite Hlo, Hhi in Hrange.
  pose proof (finite_no_nan _ Hfin) as Hnn.
  rewrite forallb_forall in Hfin.
  pose proof (samples_valid input_bin lo Hlen Ilo) as Vl.
  pose proof (samples_valid input_bin hi Hlen Ihi) as Vh.
  destruct (reduce_bounds _ lo hi Hlo Hhi Hnn hi Ihi) as [Hlh _].
  destruct (sub_stage hi lo Vh Vl (Hfin _ Ihi) (Hfin _ Ilo) Hlh) as [Nd Ed].
  assert (Hd : F32.sub hi lo = S754_infinity false).
  { destruct (round_frac_cases (scaled hi - scaled lo) 1 ltac:(lia) ltac:(lia))
      as [_ [Z1|[(m & e & Z1)|Z1]]]; rewrite Z1 in Ed.
    - apply feq_sym, feq_zero_l in Ed. destruct Ed as [s Ed].
      rewrite Ed in Hrange. discriminate.
    - apply feq_nonzero in Ed; [|reflexivity]. rewrite Ed in Hrange. discriminate.
    - apply feq_nonzero in Ed; [|reflexivity]. exact Ed. }
  exists lo, hi, img.
  split; [exact Hlo|]. split; [exact Hhi|]. split; [exact Hd|]. split; [exact Hc|].
  intros r c k Hr Hc' Hk i.
  assert (Hi : 0 <= i < n_samples) by (unfold i, n_samples; lia).
  pose proof (sample_in input_bin _ Hlen Hi) as Ii.
  destruct (reduce_bounds _ lo hi Hlo Hhi Hnn _ Ii) as [Li Ui].
  pose proof (samples_valid input_bin _ Hlen Ii) as Vi.
  rewrite (Hpx r c k Hr Hc' Hk). fold i.
  assert (Hcases : (F32.is_finite (F32.sub (sample input_bin i) lo) = true
                    /\ to_uint8' (normalize lo hi (sample input_bin i)) = 0)
                   \/ (F32.is_finite (F32.sub (sample input_bin i) lo) = false
                       /\ to_uint8' (normalize lo hi (sample input_bin i))
                          = invalid_cast S754_nan mod 256)).
  { destruct (normalize_inf_range invalid_cast lo hi (sample input_bin i) Hd)
      as [[F E]|[F E]]; [left|right]; (split; [exact F|]);
      [exact E|rewrite E; reflexivity]. }
  split; [exact Hcases|]. split; intros Hext.
  - (* a minimum: its difference to the minimum is a zero *)
    destruct (in_sample input_bin lo Hlen Ilo) as (j & Hj & Ej).
    assert (E : F32.eqb (sample input_bin i) lo = true).
    { apply leb_antisym; [|exact Li]. rewrite <- Ej. apply Hext. exact Hj. }
    destruct (sub_eqb_finite _ _ E (Hfin _ Ii)) as [s Es].
    destruct Hcases as [[_ E0]|[F _]]; [exact E0|].
    rewrite Es in F. discriminate.
  - (* a maximum: its difference to the minimum overflows as the range does *)
    destruct (in_sample input_bin hi Hlen Ihi) as (j & Hj & Ej).
    assert (E : F32.eqb (sample input_bin i) hi = true).
    { apply leb_antisym; [exact Ui|]. rewrite <- Ej. apply Hext. exact Hj. }
    apply (eqb_scaled _ _ Vi Vh (Hfin _ Ii) (Hfin _ Ihi)) in E.
    destruct (sub_stage (sample input_bin i) lo Vi Vl (Hfin _ Ii) (Hfin _ Ilo) Li)
      as [_ Eu].
    rewrite E in Eu.
    assert (Hr' : round_frac false (scaled hi - scaled lo) 1 = S754_infinity false).
    { rewrite Hd in Ed. symmetry. apply feq_nonzero; [exact Ed|].
      destruct (round_frac_cases (scaled hi - scaled lo) 1 ltac:(lia) ltac:(lia))
        as [_ [Z1|[(m & e & Z1)|Z1]]]; rewrite Z1 in *; try reflexivity.
      destruct Ed as [Ed|[Ed _]]; discriminate. }
    rewrite Hr' in Eu. apply feq_nonzero in Eu; [|reflexivity].
    destruct Hcases as [[F _]|[_ E1]]; [|exact E1].
    rewrite Eu in F. discriminate.
Qed.

(** X8. For every input of at least 196608 bytes, the normalised value of
    every sample is either NaN, and its byte is what the conversion of NaN
    yields, or a number whose integer part lies in [[0, 255]], and its
    byte is that integer part.  The cast never meets an infinity, a
    negative value or a value of 256 or more. *)
Theorem cast_operand_is_nan_or_byte (input_bin : list byte) :
  (3 * 128 * 128 * 4 <= List.length input_bin)%nat ->
  exists lo hi img,
    reduce fmin (samples input_bin) = Some lo
    /\ reduce fmax (samples input_bin) = Some hi
    /\ convert' input_bin = inr img
    /\ forall r c k : Z,
        0 <= r < 128 -> 0 <= c < 128 -> 0 <= k < 3 ->
        let y := normalize lo hi (sample input_bin (k * 16384 + r * 128 + c)) in
        (y = S754_nan /\ getpixel img r c k = invalid_cast S754_nan mod 256)
        \/ (exists z, F32.trunc y = Some z /\ 0 <= z <= 255
                      /\ getpixel img r c k = z).
Proof.
  intros Hlen.
  destruct (convert_pixels invalid_cast input_bin Hlen)
    as (lo & hi & img & Hlo & Hhi & Ilo & Ihi & Hc & _ & _ & Hpx).
  exists lo, hi, img.
  split; [exact Hlo|]. split; [exact Hhi|]. split; [exact Hc|].
  intros r c k Hr Hc' Hk y.
  assert (Hi : 0 <= k * 16384 + r * 128 + c < n_samples) by (unfold n_samples; lia).
  pose proof (sample_in input_bin _ Hlen Hi) as Ii.
  rewrite (Hpx r c k Hr Hc' Hk). fold y.
  destruct (quantize_classify (samples input_bin) lo hi
              (fun x => samples_valid input_bin x Hlen) Hlo Hhi _ Ii) as [E|[Hp Hb]];
    fold y in E || fold y in Hp, Hb.
  - left. rewrite E. split; reflexivity.
  - right. destruct (to_uint8_number invalid_cast y Hp Hb) as [E R].
    exists (scaled y / 2 ^ 149). split; [apply trunc_scaled; exact Hp|].
    split; [exact R|exact E].
Qed.

(** X13. When the samples are all finite and not all equal and
    [maxVal - minVal] does not overflow, the image uses the full range:
    some byte is 0 and some byte is 255. *)
Theorem full_range_used (input_bin : list byte) :
  (3 * 128 * 128 * 4 <= List.length input_bin)%nat ->
  forallb F32.is_finite (samples input_bin) = true ->
  ~ all_equal input_bin ->
  range_is_finite input_bin = true ->
  exists img,
    convert' input_bin = inr img
    /\ (exists r c k, 0 <= r < 128 /\ 0 <= c < 128 /\ 0 <= k < 3
                      /\ getpixel img r c k = 0)
    /\ (exists r c k, 0 <= r < 128 /\ 0 <= c < 128 /\ 0 <= k < 3
                      /\ getpixel img r c k = 255).
Proof.
  intros Hlen Hfin Hne Hrange.
  destruct (convert_pixels invalid_cast input_bin Hlen)
    as (lo & hi & img & Hlo & Hhi & Ilo & Ihi & Hc & _ & _ & Hpx).
  unfold range_is_finite in Hrange. rewrite Hlo, Hhi in Hrange.
  pose proof (range_nonzero input_bin lo hi Hlen Hlo Hhi Ilo Ihi Hfin Hne Hrange) as Hd.
  rewrite forallb_forall in Hfin.
  exists img. split; [exact Hc|]. split.
  - destruct (in_sample input_bin lo Hlen Ilo) as (i & Hi & Ei).
    destruct (position_of_index i Hi) as (r & c & k & Hr & Hc' & Hk & E).
    exists r, c, k. repeat (split; [assumption|]).
    rewrite (Hpx r c k Hr Hc' Hk), E, Ei. unfold normalize.
    assert (El : F32.eqb lo lo = true).
    { apply leb_antisym; apply leb_refl; destruct lo; try reflexivity;
        discriminate (Hfin _ Ilo). }
    destruct (sub_eqb_finite _ _ El (Hfin _ Ilo)) as [s ->].
    destruct (div_zero s _ Hd) as [s' ->].
    rewrite mul_zero_c255. reflexivity.
  - destruct (in_sample input_bin hi Hlen Ihi) as (i & Hi & Ei).
    destruct (position_of_index i Hi) as (r & c & k & Hr & Hc' & Hk & E).
    exists r, c, k. repeat (split; [assumption|]).
    rewrite (Hpx r c k Hr Hc' Hk), E, Ei. unfold normalize.
    rewrite (div_same _ Hd), mul_one_c255. reflexivity.
Qed.

End PixelFacts.

(** ** Dependence on the machine *)

Section PlatformFacts.

Local Open Scope Z_scope.

(** X9. The image depends on the machine's float-to-integer conversion
    only through the byte it yields for NaN: two conversions that agree on
    NaN (modulo 256) give the same result on every input. *)
Theorem platform_matters_only_for_nan (ic1 ic2 : float32 -> Z) (input_bin : list byte) :
  ic1 S754_nan mod 256 = ic2 S754_nan mod 256 ->
  convert ic1 input_bin = convert ic2 input_bin.
Proof.
  intros Hnan. unfold convert.
  destruct (input_tensor input_bin) as [e|a] eqn:Ht; [reflexivity|].
  unfold rbind.
  destruct (amin a) as [e|lo] eqn:Hlo; [reflexivity|].
  destruct (amax a) as [e|hi] eqn:Hhi; [reflexivity|].
  assert (V : forall x, In x (data a) -> valid x = true).
  { unfold input_tensor, frombuffer in Ht.
    destruct (float32_items (firstn (3 * 128 * 128 * 4) input_bin)) as [xs|] eqn:E;
      [|discriminate Ht].
    unfold rbind, reshape in Ht.
    destruct (size _ =? _); [|discriminate Ht].
    injection Ht as <-. exact (float32_items_valid _ _ E). }
  unfold amin in Hlo. destruct (reduce fmin (data a)) as [lo'|] eqn:Rlo; [|discriminate].
  injection Hlo as ->.
  unfold amax in Hhi. destruct (reduce fmax (data a)) as [hi'|] eqn:Rhi; [|discriminate].
  injection Hhi as ->.
  replace (astype_uint8 ic1 (amap (normalize lo hi) a))
    with (astype_uint8 ic2 (amap (normalize lo hi) a)); [reflexivity|].
  unfold astype_uint8, amap. cbn [data shape strides]. f_equal.
  apply map_ext_in. intros y Hy.
  apply in_map_iff in Hy. destruct Hy as (x & <- & Ix).
  destruct (quantize_classify (data a) lo hi V Rlo Rhi x Ix) as [E|[Hp Hb]].
  - rewrite E. symmetry. exact Hnan.
  - destruct (to_uint8_number ic1 _ Hp Hb) as [E1 _].
    destruct (to_uint8_number ic2 _ Hp Hb) as [E2 _].
    rewrite E1, E2. reflexivity.
Qed.

End PlatformFacts.

(** ** Accuracy of the float32 pipeline *)

Section AccuracyFacts.

Local Open Scope Z_scope.

(** Rounding to nearest moves a quotient by at most half a unit. *)
Lemma rne_nearest (N B : Z) :
  0 <= N -> 0 < B ->
  Z.abs (2 * (round_nearest_even (N / B) (loc_of_rem (N mod B) B) * B) - 2 * N) <= B.
Proof.
  intros HN HB.
  pose proof (Z.div_mod N B ltac:(lia)) as E.
  pose proof (Z.mod_pos_bound N B HB) as R.
  unfold loc_of_rem, round_nearest_even.
  destruct (Z.eqb_spec (N mod B) 0) as [E0|E0].
  - lia.
  - destruct (Z.compare_spec (2 * (N mod B)) B) as [C|C|C].
    + destruct (Z.even (N / B)); lia.
    + lia.
    + lia.
Qed.

(** The value of a rounding that does not overflow. *)
Lemma scaled_round_frac (N D : Z) :
  0 <= N -> 0 < D ->
  nonneg_number (round_frac false N D) = true ->
  scaled (round_frac false N D)
  = round_nearest_even (N / (D * 2 ^ rnd_shift N D))
                       (loc_of_rem (N mod (D * 2 ^ rnd_shift N D)) (D * 2 ^ rnd_shift N D))
    * 2 ^ rnd_shift N D.
Proof.
  intros HN HD Hn.
  pose proof (rpair_canon N D HN HD) as C.
  rewrite round_frac_pack in Hn |- * by assumption.
  unfold rpair in *.
  pose proof (quot_bounds N D HN HD) as [Hq Hk].
  pose proof (rnd_shift_nonneg N D) as K0.
  set (k := rnd_shift N D) in *. set (B := D * 2 ^ k) in *.
  pose proof (rne_bounds (N / B) (loc_of_rem (N mod B) B)) as Hm.
  set (m := round_nearest_even (N / B) (loc_of_rem (N mod B) B)) in *.
  clearbody m.
  destruct (Z.eqb_spec m (2 ^ 24)) as [E|E]; cbn [fst snd] in *.
  - assert (Hc : k - 149 + 1 <= 104).
    { unfold pack in Hn. cbn [Z.eqb] in Hn.
      destruct (Z.leb_spec (k - 149 + 1) 104); [assumption|discriminate Hn]. }
    rewrite pack_scaled by assumption.
    rewrite E. replace (k - 149 + 1 + 149) with (k + 1) by lia.
    rewrite Z.pow_add_r by lia. change (2 ^ 1) with 2.
    change (2 ^ 23) with 8388608. change (2 ^ 24) with 16777216. lia.
  - destruct (Z.eq_dec m 0) as [Z0|Z0].
    + rewrite Z0. unfold pack. cbn [Z.eqb]. reflexivity.
    + assert (Hc : k - 149 <= 104).
      { unfold pack in Hn. destruct (Z.eqb_spec m 0); [lia|].
        destruct (Z.leb_spec (k - 149) 104); [assumption|discriminate Hn]. }
      rewrite pack_scaled by assumption.
      replace (k - 149 + 149) with k by lia. reflexivity.
Qed.

(** The error of a rounding: relative [2 ^ -24], or half the spacing of
    the smallest numbers. *)
Lemma round_frac_error (N D : Z) :
  0 <= N -> 0 < D ->
  nonneg_number (round_frac false N D) = true ->
  16777216 * Z.abs (scaled (round_frac false N D) * D - N) <= N + 8388608 * D.
Proof.
  intros HN HD Hn.
  rewrite (scaled_round_frac N D HN HD Hn).
  pose proof (quot_bounds N D HN HD) as [Hq Hk].
  pose proof (rnd_shift_nonneg N D) as K0.
  set (k := rnd_shift N D) in *.
  pose proof (pow2_pos k K0) as Pk.
  assert (HB : 0 < D * 2 ^ k) by nia.
  pose proof (rne_nearest N (D * 2 ^ k) HN HB) as Hr.
  set (B := D * 2 ^ k) in *.
  set (m := round_nearest_even (N / B) (loc_of_rem (N mod B) B)) in *.
  replace (m * 2 ^ k * D) with (m * B) by (unfold B; ring).
  destruct (Z.eq_dec k 0) as [E|E].
  - assert (B = D) by (unfold B; rewrite E; change (2 ^ 0) with 1; lia).
    lia.
  - specialize (Hk ltac:(lia)). change (2 ^ 23) with 8388608 in Hk.
    assert (8388608 * B <= N).
    { pose proof (Z.mul_div_le N B HB). nia. }
    lia.
Qed.

(** A rounding of an integer: exact below [2 ^ 24]. *)
Lemma round_frac_error_int (N : Z) :
  0 <= N ->
  nonneg_number (round_frac false N 1) = true ->
  16777216 * Z.abs (scaled (round_frac false N 1) - N) <= N.
Proof.
  intros HN Hn.
  rewrite (scaled_round_frac N 1 HN ltac:(lia) Hn).
  pose proof (quot_bounds N 1 HN ltac:(lia)) as [Hq Hk].
  pose proof (rnd_shift_nonneg N 1) as K0.
  set (k := rnd_shift N 1) in *.
  pose proof (pow2_pos k K0) as Pk.
  assert (HB : 0 < 1 * 2 ^ k) by lia.
  pose proof (rne_nearest N (1 * 2 ^ k) HN HB) as Hr.
  set (B := 1 * 2 ^ k) in *.
  set (m := round_nearest_even (N / B) (loc_of_rem (N mod B) B)) in *.
  replace (m * 2 ^ k) with (m * B) by (unfold B; ring).
  destruct (Z.eq_dec k 0) as [E|E].
  - assert (B1 : B = 1) by (unfold B; rewrite E; reflexivity).
    assert (m = N).
    { unfold m. rewrite B1, Z.mod_1_r, Z.div_1_r. reflexivity. }
    lia.
  - specialize (Hk ltac:(lia)). change (2 ^ 23) with 8388608 in Hk.
    assert (8388608 * B <= N).
    { pose proof (Z.mul_div_le N B HB). nia. }
    lia.
Qed.

(** The three rounding errors of [normalize] add up to less than
    [0.0001]. *)
Lemma accuracy_arith (a b u d q p T : Z) :
  0 <= a <= b -> 0 < b -> 0 <= u -> 0 < d -> 0 <= q -> 0 <= p ->
  16777216 <= T ->
  16777216 * Z.abs (u - a) <= a ->
  16777216 * Z.abs (d - b) <= b ->
  16777216 * Z.abs (q * d - u * T) <= u * T + 8388608 * d ->
  16777216 * Z.abs (p - 255 * q) <= 255 * q ->
  p <= 255 * T ->
  16777216 * Z.abs (p * b - 255 * a * T) <= 2040 * (T * b).
Proof.
  intros Ha Hb Hu Hd Hq Hp HT Eu Ed Eq Ep Bp.
  assert (Hq2 : q <= 2 * T) by lia.
  assert (Hu2 : u <= 2 * b) by lia.
  assert (Hd2 : d <= 2 * b) by lia.
  (* p b - 255 a T = (p - 255 q) b + 255 q (b - d) + 255 (q d - u T) + 255 T (u - a) *)
  assert (Tb : 0 <= T * b) by nia.
  assert (E1 : 16777216 * (Z.abs (p - 255 * q) * b) <= 510 * (T * b)).
  { assert (16777216 * Z.abs (p - 255 * q) <= 510 * T) by lia.
    assert (16777216 * Z.abs (p - 255 * q) * b <= 510 * T * b)
      by (apply Z.mul_le_mono_nonneg_r; lia).
    lia. }
  assert (E2 : 16777216 * (q * Z.abs (b - d)) <= 2 * (T * b)).
  { assert (A : Z.abs (b - d) = Z.abs (d - b)) by lia. rewrite A.
    assert (q * (16777216 * Z.abs (d - b)) <= q * b)
      by (apply Z.mul_le_mono_nonneg_l; lia).
    assert (q * b <= 2 * T * b) by (apply Z.mul_le_mono_nonneg_r; lia).
    lia. }
  assert (E3 : 16777216 * Z.abs (q * d - u * T) <= 3 * (T * b)).
  { assert (u * T <= 2 * b * T) by (apply Z.mul_le_mono_nonneg_r; lia).
    assert (16777216 * b <= T * b) by (apply Z.mul_le_mono_nonneg_r; lia).
    lia. }
  assert (E4 : 16777216 * (T * Z.abs (u - a)) <= T * b).
  { assert (T * (16777216 * Z.abs (u - a)) <= T * a)
      by (apply Z.mul_le_mono_nonneg_l; lia).
    assert (T * a <= T * b) by (apply Z.mul_le_mono_nonneg_l; lia).
    lia. }
  assert (Hsplit : p * b - 255 * a * T
                   = (p - 255 * q) * b + 255 * (q * (b - d))
                     + 255 * (q * d - u * T) + 255 * (T * (u - a))) by ring.
  rewrite Hsplit.
  pose proof (Z.abs_triangle ((p - 255 * q) * b + 255 * (q * (b - d))
                              + 255 * (q * d - u * T)) (255 * (T * (u - a)))) as T1.
  pose proof (Z.abs_triangle ((p - 255 * q) * b + 255 * (q * (b - d)))
                             (255 * (q * d - u * T))) as T2.
  pose proof (Z.abs_triangle ((p - 255 * q) * b) (255 * (q * (b - d)))) as T3.
  repeat rewrite Z.abs_mul in T1. repeat rewrite Z.abs_mul in T2.
  repeat rewrite Z.abs_mul in T3.
  rewrite (Z.abs_eq b), (Z.abs_eq q), (Z.abs_eq 255) in T3 by lia.
  rewrite (Z.abs_eq 255) in T2 by lia.
  rewrite (Z.abs_eq T), (Z.abs_eq 255) in T1 by lia.
  set (x1 := Z.abs (p - 255 * q) * b) in *.
  set (x2 := q * Z.abs (b - d)) in *.
  set (x3 := Z.abs (q * d - u * T)) in *.
  set (x4 := T * Z.abs (u - a)) in *.
  set (s3 := Z.abs ((p - 255 * q) * b + 255 * (q * (b - d))
                    + 255 * (q * d - u * T))) in *.
  set (s2 := Z.abs ((p - 255 * q) * b + 255 * (q * (b - d)))) in *.
  set (s4 := Z.abs ((p - 255 * q) * b + 255 * (q * (b - d))
                    + 255 * (q * d - u * T) + 255 * (T * (u - a)))) in *.
  set (tb := T * b) in *.
  clearbody x1 x2 x3 x4 s2 s3 s4 tb.
  clear - E1 E2 E3 E4 T1 T2 T3. lia.
Qed.

(** Values less than one apart have integer parts at most one apart. *)
Lemma floor_close (p a b T : Z) :
  0 < b -> 0 < T ->
  Z.abs (p * b - a * T) < T * b ->
  Z.abs (p / T - a / b) <= 1.
Proof.
  intros Hb HT H.
  pose proof (Z.div_mod p T ltac:(lia)) as Ep.
  pose proof (Z.mod_pos_bound p T HT) as Rp.
  pose proof (Z.div_mod a b ltac:(lia)) as Ea.
  pose proof (Z.mod_pos_bound a b Hb) as Ra.
  set (P := p / T) in *. set (A := a / b) in *.
  set (rp := p mod T) in *. set (ra := a mod b) in *.
  clearbody P A rp ra. subst p a.
  assert (E : (T * P + rp) * b - (b * A + ra) * T = (P - A) * (T * b) + (rp * b - ra * T))
    by ring.
  rewrite E in H.
  assert (0 <= rp * b < T * b) by nia.
  assert (0 <= ra * T < T * b) by nia.
  assert (Tb : 0 < T * b) by nia.
  destruct (Z_lt_le_dec 1 (P - A)) as [G1|G1].
  - assert (2 * (T * b) <= (P - A) * (T * b)) by nia. lia.
  - destruct (Z_lt_le_dec (P - A) (-1)) as [G2|G2]; [|lia].
    assert ((P - A) * (T * b) <= -2 * (T * b)) by nia. lia.
Qed.

End AccuracyFacts.

Section AccuracyOfConversion.

Variable invalid_cast : float32 -> Z.

Local Abbreviation to_uint8' := (to_uint8 invalid_cast).
Local Abbreviation convert' := (convert invalid_cast).

Local Open Scope Z_scope.

(** The normalised value of a sample against the exact quotient. *)
Lemma normalize_accuracy (lo hi v : float32) :
  valid lo = true -> valid hi = true -> valid v = true ->
  F32.is_finite lo = true -> F32.is_finite hi = true -> F32.is_finite v = true ->
  F32.leb lo v = true -> F32.leb v hi = true ->
  F32.is_finite_nonzero (F32.sub hi lo) = true ->
  0 <= scaled v - scaled lo <= scaled hi - scaled lo
  /\ 0 < scaled hi - scaled lo
  /\ 16777216 * Z.abs (scaled (normalize lo hi v) * (scaled hi - scaled lo)
                       - 255 * (scaled v - scaled lo) * 2 ^ 149)
     <= 2040 * (2 ^ 149 * (scaled hi - scaled lo)).
Proof.
  intros Vl Vh Vv Fl Fh Fv Hlv Hvh Hd.
  destruct (normalize_chain lo hi v Vl Vh Vv Fl Fh Fv Hlv Hvh Hd)
    as (Hdn & Hdp & Eu & HU & Eq & HQ & Ep & HP & Bp).
  assert (Hlh : F32.leb lo hi = true) by (apply leb_trans with v; assumption).
  destruct (sub_stage hi lo Vh Vl Fh Fl Hlh) as [Nb Ed].
  destruct (sub_stage v lo Vv Vl Fv Fl Hlv) as [Na _].
  assert (Hab : scaled v <= scaled hi) by (apply (leb_scaled v hi); assumption).
  set (a := scaled v - scaled lo) in *. set (b := scaled hi - scaled lo) in *.
  set (d := F32.sub hi lo) in *. set (u := F32.sub v lo) in *.
  set (q := F32.div u d) in *. set (p := normalize lo hi v) in *.
  pose proof (round_frac_error_int b Nb (feq_nonneg _ _ (feq_sym _ _ Ed) Hdn)) as Xd.
  rewrite <- (feq_scaled _ _ Ed) in Xd.
  pose proof (round_frac_error_int a Na HU) as Xu.
  rewrite <- (feq_scaled _ _ Eu) in Xu.
  pose proof (feq_nonneg _ _ Eu HU) as Hun.
  pose proof (feq_nonneg _ _ Eq HQ) as Hqn.
  pose proof (feq_nonneg _ _ Ep HP) as Hpn.
  apply nonneg_number_inv in Hun, Hqn, Hpn.
  destruct Hun as (_ & _ & U0 & _), Hqn as (_ & _ & Q0 & _), Hpn as (_ & _ & P0 & _).
  pose proof (pow2_pos 149 ltac:(lia)) as PT.
  assert (HT : 16777216 <= 2 ^ 149).
  { change 16777216 with (2 ^ 24). apply Z.pow_le_mono_r; lia. }
  set (T := 2 ^ 149) in *.
  assert (NuT : 0 <= scaled u * T) by (apply Z.mul_nonneg_nonneg; lia).
  pose proof (round_frac_error (scaled u * T) (scaled d) NuT Hdp HQ) as Xq.
  rewrite <- (feq_scaled _ _ Eq) in Xq.
  assert (Nq : 0 <= 255 * scaled q) by lia.
  pose proof (round_frac_error_int (255 * scaled q) Nq HP) as Xp.
  rewrite <- (feq_scaled _ _ Ep) in Xp.
  assert (Hb : 0 < b) by lia.
  split; [unfold a, b; lia|]. split; [exact Hb|].
  apply (accuracy_arith a b (scaled u) (scaled d) (scaled q) (scaled p) T);
    try assumption; lia.
Qed.

(** X14. The float32 pipeline against exact arithmetic.  When the samples
    are all finite and not all equal and [maxVal - minVal] does not
    overflow, the normalised value of a sample differs from the exact
    [255 (v - minVal) / (maxVal - minVal)] by at most [2040 / 2 ^ 24]
    (less than 0.00013), and the output byte differs from the exact
    value rounded down by at most 1. *)
Theorem quantization_accuracy (input_bin : list byte) :
  (3 * 128 * 128 * 4 <= List.length input_bin)%nat ->
  forallb F32.is_finite (samples input_bin) = true ->
  ~ all_equal input_bin ->
  range_is_finite input_bin = true ->
  exists lo hi img,
    reduce fmin (samples input_bin) = Some lo
    /\ reduce fmax (samples input_bin) = Some hi
    /\ convert' input_bin = inr img
    /\ forall r c k : Z,
        0 <= r < 128 -> 0 <= c < 128 -> 0 <= k < 3 ->
        let v := sample input_bin (k * 16384 + r * 128 + c) in
        Z.abs (getpixel img r c k - exact_byte lo hi v) <= 1
        /\ 16777216 * Z.abs (scaled (normalize lo hi v) * (scaled hi - scaled lo)
                             - 255 * (scaled v - scaled lo) * 2 ^ 149)
           <= 2040 * (2 ^ 149 * (scaled hi - scaled lo)).
Proof.
  intros Hlen Hfin Hne Hrange.
  destruct (convert_pixels invalid_cast input_bin Hlen)
    as (lo & hi & img & Hlo & Hhi & Ilo & Ihi & Hc & _ & _ & Hpx).
  unfold range_is_finite in Hrange. rewrite Hlo, Hhi in Hrange.
  pose proof (range_nonzero input_bin lo hi Hlen Hlo Hhi Ilo Ihi Hfin Hne Hrange) as Hd.
  pose proof (finite_no_nan _ Hfin) as Hnn.
  rewrite forallb_forall in Hfin.
  exists lo, hi, img.
  split; [exact Hlo|]. split; [exact Hhi|]. split; [exact Hc|].
  intros r c k Hr Hc' Hk v.
  assert (Hi : 0 <= k * 16384 + r * 128 + c < n_samples) by (unfold n_samples; lia).
  pose proof (sample_in input_bin _ Hlen Hi) as Ii. fold v in Ii.
  destruct (reduce_bounds _ lo hi Hlo Hhi Hnn _ Ii) as [Li Ui].
  pose proof (samples_valid input_bin lo Hlen Ilo) as Vl.
  pose proof (samples_valid input_bin hi Hlen Ihi) as Vh.
  pose proof (samples_valid input_bin v Hlen Ii) as Vv.
  rewrite (Hpx r c k Hr Hc' Hk). fold v. clearbody v.
  destruct (normalize_accuracy lo hi v Vl Vh Vv (Hfin _ Ilo) (Hfin _ Ihi) (Hfin _ Ii)
              Li Ui Hd) as (Ha & Hb & Hacc).
  destruct (normalize_pixel invalid_cast lo hi v Vl Vh Vv (Hfin _ Ilo) (Hfin _ Ihi)
              (Hfin _ Ii) Li Ui Hd) as (_ & -> & _).
  split; [|exact Hacc].
  unfold exact_byte.
  pose proof (pow2_pos 149 ltac:(lia)) as PT.
  apply floor_close; [exact Hb|exact PT|].
  set (T := 2 ^ 149) in *. set (b := scaled hi - scaled lo) in *.
  set (e := Z.abs (scaled (normalize lo hi v) * b - 255 * (scaled v - scaled lo) * T)) in *.
  assert (0 < T * b) by (apply Z.mul_pos_pos; assumption).
  lia.
Qed.

End AccuracyOfConversion.

(** ** Decoding of the samples *)

Section DecodingFacts.

Variable invalid_cast : float32 -> Z.

Local Abbreviation to_uint8' := (to_uint8 invalid_cast).
Local Abbreviation convert' := (convert invalid_cast).

(** Item [i] of a buffer is decoded from its bytes [4 i .. 4 i + 3]. *)
Lemma float32_items_nth : forall (buf : list byte) (xs : list float32),
  float32_items buf = Some xs ->
  forall i d, i < List.length xs ->
    nth i xs d
    = F32.of_bits (le_word (nth (4 * i) buf x00) (nth (4 * i + 1) buf x00)
                           (nth (4 * i + 2) buf x00) (nth (4 * i + 3) buf x00)).
Proof.
  fix IH 1. intros buf xs H i d Hi.
  destruct buf as [|b0 [|b1 [|b2 [|b3 rest]]]]; cbn [float32_items] in H; try discriminate.
  - injection H as <-. cbn [List.length] in Hi. lia.
  - destruct (float32_items rest) as [ys|] eqn:E; [|discriminate].
    injection H as <-. destruct i as [|i].
    + reflexivity.
    + cbn [List.length] in Hi. cbn [nth].
      rewrite (IH rest ys E i d) by lia.
      replace (4 * S i) with (S (S (S (S (4 * i))))) by lia.
      replace (4 * S i + 1) with (S (S (S (S (4 * i + 1))))) by lia.
      replace (4 * S i + 2) with (S (S (S (S (4 * i + 2))))) by lia.
      replace (4 * S i + 3) with (S (S (S (S (4 * i + 3))))) by lia.
      reflexivity.
Qed.

(** Sample [i] is decoded from the four input bytes at offsets
    [4 i .. 4 i + 3], least significant byte first. *)
Lemma sample_of_bytes (input_bin : list byte) (i : Z) :
  3 * 128 * 128 * 4 <= List.length input_bin ->
  (0 <= i < n_samples)%Z ->
  sample input_bin i
  = F32.of_bits (le_word (item x00 input_bin (4 * i)) (item x00 input_bin (4 * i + 1))
                         (item x00 input_bin (4 * i + 2)) (item x00 input_bin (4 * i + 3))).
Proof.
  intros Hlen Hi.
  destruct (samples_ok input_bin Hlen) as [Hitems Hn].
  unfold n_samples in *. unfold sample, item.
  rewrite (float32_items_nth _ _ Hitems) by lia.
  assert (Hlen' : 4 * Z.to_nat i + 3 < 3 * 128 * 128 * 4).
  { apply Nat2Z.inj_lt. rewrite Nat2Z.inj_add, !Nat2Z.inj_mul, Z2Nat.id by lia.
    rewrite <- Nat2Z.inj_mul, <- Nat2Z.inj_mul, sample_count. lia. }
  assert (F : forall j, j < 3 * 128 * 128 * 4 ->
               nth j (firstn (3 * 128 * 128 * 4) input_bin) x00 = nth j input_bin x00).
  { intros j Hj. rewrite <- (firstn_skipn (3 * 128 * 128 * 4) input_bin) at 2.
    rewrite app_nth1; [reflexivity|]. rewrite firstn_length_le by exact Hlen. exact Hj. }
  rewrite !F by lia.
  replace (Z.to_nat (4 * i)) with (4 * Z.to_nat i) by lia.
  replace (Z.to_nat (4 * i + 1)) with (4 * Z.to_nat i + 1) by lia.
  replace (Z.to_nat (4 * i + 2)) with (4 * Z.to_nat i + 2) by lia.
  replace (Z.to_nat (4 * i + 3)) with (4 * Z.to_nat i + 3) by lia.
  reflexivity.
Qed.

(** X7. The script reads the input as a planar tensor of little-endian
    float32: element [[k][r][c]] of the tensor it normalises is decoded
    from the four input bytes at offset [4 (k * 16384 + r * 128 + c)],
    least significant byte first, and channel [k] of the pixel at row [r]
    and column [c] is the cast of that element, normalised with the
    extremes of the tensor.  Bytes after the first 196608 are not read
    into it. *)
Theorem pixel_source_bytes (input_bin : list byte) :
  3 * 128 * 128 * 4 <= List.length input_bin ->
  exists a lo hi img,
    input_tensor input_bin = inr a
    /\ amin a = inr lo
    /\ amax a = inr hi
    /\ convert' input_bin = inr img
    /\ forall r c k : Z,
        (0 <= r < 128)%Z -> (0 <= c < 128)%Z -> (0 <= k < 3)%Z ->
        let o := (4 * (k * 16384 + r * 128 + c))%Z in
        let v := F32.of_bits (le_word (item x00 input_bin o)
                                      (item x00 input_bin (o + 1))
                                      (item x00 input_bin (o + 2))
                                      (item x00 input_bin (o + 3))) in
        (o + 3 < 3 * 128 * 128 * 4)%Z
        /\ get S754_nan a [k; r; c] = v
        /\ getpixel img r c k = to_uint8' (normalize lo hi v).
Proof.
  intros Hlen.
  destruct (convert_ok invalid_cast input_bin Hlen)
    as (a & lo & hi & img & Ht & Hsh & Hst & Hitems & Hsz & Hlo & Hhi & Hc & Hw & Hh & Hpx).
  exists a, lo, hi, img.
  split; [exact Ht|]. split; [exact Hlo|]. split; [exact Hhi|]. split; [exact Hc|].
  intros r c k Hr Hc' Hk o v.
  assert (Hi : (0 <= k * 16384 + r * 128 + c < n_samples)%Z) by (unfold n_samples; lia).
  assert (Hs : samples input_bin = data a) by (unfold samples; rewrite Hitems; reflexivity).
  assert (Hg : get S754_nan a [k; r; c] = v).
  { unfold v, o. rewrite <- (sample_of_bytes input_bin _ Hlen Hi).
    unfold get, sample. rewrite Hst, Hs. cbn [offset_of]. f_equal. lia. }
  split; [unfold o; lia|]. split; [exact Hg|].
  rewrite (Hpx r c k Hr Hc' Hk), Hg. reflexivity.
Qed.

End DecodingFacts.

(** ** The claims at sample inputs *)

Lemma global_min_max_witness :
  exists img,
    convert x86_invalid_cast input_planes = inr img
    /\ getpixel img 0 0 0 = 0%Z
    /\ getpixel img 0 0 1 = 127%Z
    /\ getpixel img 0 0 2 = 255%Z.
Proof.
  destruct (global_min_max x86_invalid_cast input_planes) as [_ (img & Hc & Hpx)].
  - exact input_planes_length.
  - exists img. split; [exact Hc|]. apply Hpx; lia.
Defined.

Lemma short_input_fails_witness :
  exists msg,
    snd (main x86_invalid_cast raw_encode always_writable no_links ["bin2img_fp32.py"; "in.bin"; "out.png"]%string
           (world_with "in.bin" input_short))
    = inl (ValueError msg).
Proof.
  destruct (short_input_fails x86_invalid_cast raw_encode always_writable no_links
              ["bin2img_fp32.py"; "in.bin"; "out.png"]%string
              (world_with "in.bin" input_short) input_short)
    as (msg & H & _).
  - cbn [List.length]. lia.
  - reflexivity.
  - cbn [List.length input_short]. lia.
  - exists msg. exact H.
Defined.

Lemma conversion_deterministic_witness :
  snd (main x86_invalid_cast raw_encode always_writable no_links ["bin2img_fp32.py"; "in.bin"; "out.png"]%string
         (world_with "in.bin" input_ramp))
  = snd (main x86_invalid_cast raw_encode always_writable no_links ["bin2img_fp32.py"; "in.bin"; "out.png"]%string
           (mkWorld (files (world_with_two "out.png" [x00] "in.bin" input_ramp))
                    ["earlier output"%string] [])).
Proof.
  apply (conversion_deterministic x86_invalid_cast raw_encode always_writable no_links
           ["bin2img_fp32.py"; "in.bin"; "out.png"]%string _ _ input_ramp).
  - cbn [List.length]. lia.
  - reflexivity.
  - reflexivity.
Defined.

Lemma only_first_bytes_matter_witness :
  convert x86_invalid_cast input_ramp
  = convert x86_invalid_cast (input_ramp ++ [x2a; x2a; x2a]).
Proof.
  apply (only_first_bytes_matter x86_invalid_cast raw_encode always_writable no_links).
  rewrite firstn_app, input_ramp_size, Nat.sub_diag, firstn_O, app_nil_r.
  reflexivity.
Defined.

Lemma interleaved_layout_witness :
  exists img,
    convert x86_invalid_cast input_ramp = inr img /\ width img = 128%Z.
Proof.
  destruct (interleaved_layout x86_invalid_cast input_ramp)
    as (lo & hi & img & _ & _ & Hc & Hw & _).
  - exact input_ramp_length.
  - exists img. split; assumption.
Defined.

Lemma constant_input_is_nan_witness :
  exists img,
    convert x86_invalid_cast input_zeros = inr img
    /\ getpixel img 0 0 0 = 0%Z.
Proof.
  destruct (constant_input_is_nan x86_invalid_cast input_zeros)
    as (lo & hi & img & _ & _ & _ & Hc & Hpx).
  - exact input_zeros_length.
  - apply all_equal_of_first; [exact input_zeros_length|exact input_zeros_all_equalb].
  - exists img. split; [exact Hc|].
    destruct (Hpx 0%Z 0%Z 0%Z) as [_ Hp]; try lia. rewrite Hp. reflexivity.
Defined.

Lemma usage_on_missing_arguments_witness :
  exit_status (snd (main x86_invalid_cast raw_encode always_writable no_links ["bin2img_fp32.py"; "in.bin"]%string
                      empty_world)) = 1%Z.
Proof.
  apply (usage_on_missing_arguments x86_invalid_cast raw_encode always_writable no_links
           ["bin2img_fp32.py"; "in.bin"]%string empty_world).
  cbn [tl List.length]. lia.
Defined.

(** C1 as stated fails.  The samples [3.4028235e38, -3.4028235e38, 0, ...]
    are finite and not all equal, and sample 0 holds the maximum; but
    [maxVal - minVal] overflows to +Inf, so the normalised maximum is
    Inf / Inf = NaN and its byte is what the conversion of NaN yields
    (0 on x86-64), not 255. *)
Lemma max_pixel_counterexample :
  3 * 128 * 128 * 4 <= List.length input_overflow
  /\ forallb F32.is_finite (samples input_overflow) = true
  /\ ~ all_equal input_overflow
  /\ holds_maximum input_overflow 0
  /\ exists img,
       convert x86_invalid_cast input_overflow = inr img
       /\ normalize (S754_finite true 16777215 104) (S754_finite false 16777215 104)
                    (sample input_overflow 0) = S754_nan
       /\ getpixel img 0 0 0 = 0%Z
       /\ getpixel img 0 0 0 <> 255%Z.
Proof.
  split; [exact input_overflow_length|].
  split; [rewrite samples_input_overflow; vm_compute; reflexivity|].
  split; [exact input_overflow_not_all_equal|].
  split.
  { apply holds_maximum_of_bound;
      [exact input_overflow_length|exact input_overflow_upper]. }
  destruct (convert_pixels x86_invalid_cast input_overflow input_overflow_length)
    as (lo & hi & img & Hlo & Hhi & _ & _ & Hc & _ & _ & Hpx).
  rewrite input_overflow_min in Hlo. rewrite input_overflow_max in Hhi.
  injection Hlo as <-. injection Hhi as <-.
  exists img. split; [exact Hc|]. split; [exact input_overflow_normalized|].
  rewrite (Hpx 0%Z 0%Z 0%Z) by lia.
  change (0 * 16384 + 0 * 128 + 0)%Z with 0%Z.
  rewrite input_overflow_normalized.
  split; [reflexivity|discriminate].
Qed.

Lemma min_max_pixels_witness :
  exists img,
    convert x86_invalid_cast input_ramp = inr img
    /\ getpixel img 0 0 0 = 0%Z
    /\ getpixel img 0 2 0 = 255%Z.
Proof.
  destruct (min_max_pixels x86_invalid_cast input_ramp) as (img & Hc & Hpx).
  - exact input_ramp_length.
  - exact input_ramp_finite.
  - exact input_ramp_not_all_equal.
  - exact input_ramp_range.
  - destruct input_ramp_first as (E0 & _ & E2).
    exists img. split; [exact Hc|]. split.
    + apply (Hpx 0%Z 0%Z 0%Z); try lia.
      apply holds_minimum_of_bound; [exact input_ramp_length|].
      change (0 * 16384 + 0 * 128 + 0)%Z with 0%Z.
      rewrite E0, samples_input_ramp. vm_compute. reflexivity.
    + apply (Hpx 0%Z 2%Z 0%Z); try lia.
      apply holds_maximum_of_bound; [exact input_ramp_length|].
      change (0 * 16384 + 0 * 128 + 2)%Z with 2%Z.
      rewrite E2, samples_input_ramp. vm_compute. reflexivity.
Defined.

(** C2 as stated fails on the same input: the normalised value of
    sample 0 is NaN, which has no integer part for the output byte to
    equal. *)
Lemma truncation_counterexample :
  3 * 128 * 128 * 4 <= List.length input_overflow
  /\ ~ all_equal input_overflow
  /\ reduce fmin (samples input_overflow) = Some (S754_finite true 16777215 104)
  /\ reduce fmax (samples input_overflow) = Some (S754_finite false 16777215 104)
  /\ F32.trunc (normalize (S754_finite true 16777215 104)
                          (S754_finite false 16777215 104)
                          (sample input_overflow 0)) = None.
Proof.
  split; [exact input_overflow_length|].
  split; [exact input_overflow_not_all_equal|].
  split; [exact input_overflow_min|].
  split; [exact input_overflow_max|].
  rewrite input_overflow_normalized. reflexivity.
Qed.

Lemma quantization_truncates_witness :
  exists img,
    convert x86_invalid_cast input_ramp = inr img
    /\ getpixel img 0 1 0 = 127%Z.
Proof.
  destruct (quantization_truncates x86_invalid_cast input_ramp)
    as [(lo & hi & img & Hlo & Hhi & Hc & Hpx) _].
  - exact input_ramp_length.
  - exact input_ramp_finite.
  - exact input_ramp_not_all_equal.
  - exact input_ramp_range.
  - exists img. split; [exact Hc|].
    destruct (Hpx 0%Z 1%Z 0%Z) as [Ht _]; try lia.
    rewrite input_ramp_min in Hlo. rewrite input_ramp_max in Hhi.
    injection Hlo as <-. injection Hhi as <-.
    change (0 * 16384 + 0 * 128 + 1)%Z with 1%Z in Ht.
    destruct input_ramp_first as (_ & E1 & _). rewrite E1 in Ht.
    injection Ht as <-. reflexivity.
Defined.

Lemma quantization_monotone_witness :
  exists img,
    convert x86_invalid_cast input_ramp = inr img
    /\ (getpixel img 0 0 0 <= getpixel img 0 1 0)%Z.
Proof.
  apply (quantization_monotone x86_invalid_cast input_ramp 0 0 0 0 1 0); try lia.
  - exact input_ramp_length.
  - change (0 * 16384 + 0 * 128 + 0)%Z with 0%Z.
    change (0 * 16384 + 0 * 128 + 1)%Z with 1%Z.
    destruct input_ramp_first as (-> & -> & _). reflexivity.
Defined.

(** ** The further properties at sample inputs *)

Lemma missing_input_file_witness :
  snd (main x86_invalid_cast raw_encode always_writable no_links ["bin2img_fp32.py"; "in.bin"; "out.png"]%string
         empty_world)
  = inl (FileNotFoundError "in.bin").
Proof.
  apply (missing_input_file x86_invalid_cast raw_encode always_writable no_links
           ["bin2img_fp32.py"; "in.bin"; "out.png"]%string empty_world).
  - cbn [List.length]. lia.
  - reflexivity.
Defined.

Lemma image_invariant_witness :
  exists img,
    convert x86_invalid_cast input_ramp = inr img
    /\ Z.of_nat (List.length (pixels img)) = 49152%Z.
Proof.
  destruct (convert_ok x86_invalid_cast input_ramp input_ramp_length)
    as (_ & _ & _ & img & _ & _ & _ & _ & _ & _ & _ & Hc & _).
  exists img. split; [exact Hc|].
  apply (image_invariant x86_invalid_cast input_ramp img Hc).
Defined.

Lemma nan_blanks_image_witness :
  exists img,
    convert x86_invalid_cast input_nan = inr img
    /\ getpixel img 5 7 1 = 0%Z.
Proof.
  destruct (nan_blanks_image x86_invalid_cast input_nan)
    as (lo & hi & img & _ & _ & Hc & Hpx).
  - exact input_nan_length.
  - left. exact input_nan_has_nan.
  - exists img. split; [exact Hc|].
    destruct (Hpx 5%Z 7%Z 1%Z) as [_ Hp]; try lia. rewrite Hp. reflexivity.
Defined.

Lemma positive_infinity_flattens_image_witness :
  exists img,
    convert x86_invalid_cast input_inf = inr img
    /\ getpixel img 0 0 0 = 0%Z.
Proof.
  destruct (positive_infinity_flattens_image x86_invalid_cast input_inf)
    as (lo & img & _ & _ & Hc & Hpx).
  - exact input_inf_length.
  - exact input_inf_no_nan.
  - exact input_inf_no_negative_infinity.
  - exact input_inf_has_inf.
  - exists img. split; [exact Hc|].
    destruct (Hpx 0%Z 0%Z 0%Z) as [Hp _]; try lia.
    rewrite Hp; [reflexivity|].
    change (0 * 16384 + 0 * 128 + 0)%Z with 0%Z.
    unfold sample. rewrite samples_input_inf. reflexivity.
Defined.

Lemma range_overflow_pixels_witness :
  exists lo hi,
    reduce fmin (samples input_overflow) = Some lo
    /\ reduce fmax (samples input_overflow) = Some hi
    /\ F32.sub hi lo = S754_infinity false.
Proof.
  destruct (range_overflow_pixels x86_invalid_cast input_overflow)
    as (lo & hi & img & Hlo & Hhi & Hd & _).
  - exact input_overflow_length.
  - exact input_overflow_finite.
  - exact input_overflow_range.
  - exists lo, hi. split; [exact Hlo|]. split; [exact Hhi|exact Hd].
Defined.

Lemma cast_operand_is_nan_or_byte_witness :
  exists img, convert x86_invalid_cast input_ramp = inr img.
Proof.
  destruct (cast_operand_is_nan_or_byte x86_invalid_cast input_ramp)
    as (lo & hi & img & _ & _ & Hc & _).
  - exact input_ramp_length.
  - exists img. exact Hc.
Defined.

Lemma platform_matters_only_for_nan_witness :
  convert x86_invalid_cast input_zeros = convert zero_invalid_cast input_zeros.
Proof.
  apply (platform_matters_only_for_nan x86_invalid_cast zero_invalid_cast input_zeros).
  reflexivity.
Defined.

Lemma full_range_used_witness :
  exists img r c k,
    convert x86_invalid_cast input_ramp = inr img
    /\ getpixel img r c k = 255%Z.
Proof.
  destruct (full_range_used x86_invalid_cast input_ramp)
    as (img & Hc & _ & (r & c & k & _ & _ & _ & H)).
  - exact input_ramp_length.
  - exact input_ramp_finite.
  - exact input_ramp_not_all_equal.
  - exact input_ramp_range.
  - exists img, r, c, k. split; assumption.
Defined.

Lemma quantization_accuracy_witness :
  exists img,
    convert x86_invalid_cast input_ramp = inr img
    /\ (Z.abs (getpixel img 0 1 0 - 127) <= 1)%Z.
Proof.
  destruct (quantization_accuracy x86_invalid_cast input_ramp)
    as (lo & hi & img & Hlo & Hhi & Hc & Hpx).
  - exact input_ramp_length.
  - exact input_ramp_finite.
  - exact input_ramp_not_all_equal.
  - exact input_ramp_range.
  - exists img. split; [exact Hc|].
    rewrite input_ramp_min in Hlo. rewrite input_ramp_max in Hhi.
    injection Hlo as <-. injection Hhi as <-.
    destruct (Hpx 0%Z 1%Z 0%Z) as [H _]; try lia.
    change (0 * 16384 + 0 * 128 + 1)%Z with 1%Z in H.
    destruct input_ramp_first as (_ & E1 & _). rewrite E1 in H.
    exact H.
Defined.

Lemma normal_run_conditions_witness :
  exists input_bin,
    files (world_with "in.bin" input_ramp) "in.bin" = Some input_bin
    /\ 3 * 128 * 128 * 4 <= List.length input_bin.
Proof.
  destruct (normal_run_conditions x86_invalid_cast raw_encode always_writable no_links
              ["bin2img_fp32.py"; "in.bin"; "out.png"]%string
              (world_with "in.bin" input_ramp))
    as (_ & input_bin & img & contents & Hfile & Hlen & _).
  - exact ramp_run_succeeds.
  - exists input_bin. split; [exact Hfile|exact Hlen].
Defined.

Lemma successful_run_effects_witness :
  exists contents,
    files (fst (main x86_invalid_cast raw_encode always_writable dot_slash
                  ["bin2img_fp32.py"; "x.png"; "./x.png"]%string
                  (world_with_two "x.png" input_ramp "./x.png" input_ramp))) "./x.png"
    = Some contents
    /\ files (fst (main x86_invalid_cast raw_encode always_writable dot_slash
                     ["bin2img_fp32.py"; "x.png"; "./x.png"]%string
                     (world_with_two "x.png" input_ramp "./x.png" input_ramp))) "x.png"
       = Some contents.
Proof.
  destruct (successful_run_effects x86_invalid_cast raw_encode always_writable dot_slash
              ["bin2img_fp32.py"; "x.png"; "./x.png"]%string
              (world_with_two "x.png" input_ramp "./x.png" input_ramp))
    as (input_bin & img & contents & _ & _ & _ & _ & _ & _ & Hout & Hin).
  - exact in_place_run_succeeds.
  - exists contents. split; [exact Hout|exact Hin].
Defined.

Lemma run_touches_only_output_witness :
  files (fst (main x86_invalid_cast raw_encode always_writable no_links
                ["bin2img_fp32.py"; "in.bin"; "out.png"]%string
                (world_with "in.bin" input_ramp))) "in.bin"
  = Some input_ramp.
Proof.
  rewrite (run_touches_only_output x86_invalid_cast raw_encode always_writable no_links
             ["bin2img_fp32.py"; "in.bin"; "out.png"]%string
             (world_with "in.bin" input_ramp) "in.bin").
  - reflexivity.
  - reflexivity.
Defined.

Lemma unsupported_output_format_witness :
  snd (main x86_invalid_cast png_only_encode always_writable no_links
         ["bin2img_fp32.py"; "in.bin"; "out.fits"]%string
         (world_with "in.bin" input_ramp))
  = inl (KeyError "FITS").
Proof.
  destruct (unsupported_output_format x86_invalid_cast png_only_encode
              always_writable no_links
              ["bin2img_fp32.py"; "in.bin"; "out.fits"]%string
              (world_with "in.bin" input_ramp) input_ramp)
    as (img & _ & _ & H).
  - cbn [List.length]. lia.
  - reflexivity.
  - exact input_ramp_length.
  - destruct (H "FITS"%string) as [E _]; [reflexivity|exact E].
Defined.

Lemma output_cannot_be_opened_witness :
  snd (main x86_invalid_cast raw_encode no_out_directory no_links
         ["bin2img_fp32.py"; "in.bin"; "out/x.png"]%string
         (world_with "in.bin" input_ramp))
  = inl (FileNotFoundError "out/x.png").
Proof.
  destruct (output_cannot_be_opened x86_invalid_cast raw_encode no_out_directory no_links
              ["bin2img_fp32.py"; "in.bin"; "out/x.png"]%string
              (world_with "in.bin" input_ramp) input_ramp NoSuchDirectory)
    as (img & _ & H).
  - cbn [List.length]. lia.
  - reflexivity.
  - exact input_ramp_length.
  - reflexivity.
  - destruct H as [E _]; [discriminate|intros format; discriminate|exact E].
Defined.

Lemma pixel_source_bytes_witness :
  exists a,
    input_tensor input_ramp = inr a
    /\ get S754_nan a [0; 0; 0]%Z = F32.of_bits 0xbf800000.
Proof.
  destruct (pixel_source_bytes x86_invalid_cast input_ramp)
    as (a & lo & hi & img & Ht & _ & _ & _ & H).
  - exact input_ramp_length.
  - exists a. split; [exact Ht|].
    destruct (H 0%Z 0%Z 0%Z) as (_ & E & _); try lia.
    rewrite E. reflexivity.
Defined.
